(** * rest-api-tester: the Swagger-driven test engine, embedded in Rocq

    A shallow embedding of [swagger_tester.py] (contract parser, request
    builder, HTTP probe, value pools, combination generator, per-endpoint
    pipeline) and of the [/api/run-test] handler of [app.py], followed by
    the properties of the specification that were checked against it.

    Conventions of the embedding.
    - Python/JSON values are the inductive [pyval]; JSON numbers are
      integers, text is an ASCII byte [string].
    - A Python [dict] is an association list in insertion order
      ([dict_get], [dict_set]); a [set] or a list used only through [in]
      is a [list string] read through [mem].
    - Code that talks to the network or may raise runs in the monad [M]:
      it threads the trace of exchanges performed so far and returns
      either a value or the Python exception that escaped.
    - What is only shown to the operator ([print]) and the pauses
      between probes ([time.sleep]) are left out.
    - Library functions that the repository calls but does not define
      ([urlencode], [json.dumps], [base64], [str] of a container) are the
      fields of the class [PyRuntime]; the remote parties are the fields
      of the class [Network]. *)

From Stdlib Require Import String Ascii List ZArith Lia Bool Arith DecimalString Sorted.
Import ListNotations.
Open Scope string_scope.

(* ================================================================== *)
(** * Python values and strings *)
(* ================================================================== *)

#[warnings="-register-all"]
Inductive pyval : Type :=
| PNone
| PBool (b : bool)
| PInt (z : Z)
| PStr (s : string)
| PList (l : list pyval)
| PDict (d : list (string * pyval)).

Definition pydict := list (string * pyval).

(** Python truthiness ([if v:], [a or b]). *)
Definition truthy (v : pyval) : bool :=
  match v with
  | PNone => false
  | PBool b => b
  | PInt z => negb (z =? 0)%Z
  | PStr s => negb (s =? EmptyString)
  | PList l => match l with [] => false | _ => true end
  | PDict d => match d with [] => false | _ => true end
  end.

(** [a or b] *)
Definition py_or (a b : pyval) : pyval := if truthy a then a else b.

(** [v is not None] *)
Definition not_none (v : pyval) : bool :=
  match v with PNone => false | _ => true end.

Definition string_of_Z (z : Z) : string := NilZero.string_of_int (Z.to_int z).

(** The library functions used by the engine. *)
Class PyRuntime : Type := {
  (** [str(v)] for a list or a dict *)
  str_container : pyval -> string;
  (** [urllib.parse.urlencode(q, doseq=True)] *)
  urlencode : pydict -> string;
  (** [json.dumps(v, indent=2)] *)
  json_dumps : pyval -> string;
  (** the message of the RecursionError that [json.dumps(v, indent=2)]
      raises on a value nested too deep for the encoder; [None] when the
      value can be written *)
  dumps_overflow : pyval -> option string;
  (** [base64.b64encode(s.encode()).decode()] *)
  b64encode : string -> string
}.

(** [type(v).__name__] *)
Definition type_name (v : pyval) : string :=
  match v with
  | PNone => "NoneType"
  | PBool _ => "bool"
  | PInt _ => "int"
  | PStr _ => "str"
  | PList _ => "list"
  | PDict _ => "dict"
  end.

(** [str(v)] *)
Definition pystr `{PyRuntime} (v : pyval) : string :=
  match v with
  | PNone => "None"
  | PBool true => "True"
  | PBool false => "False"
  | PInt z => string_of_Z z
  | PStr s => s
  | PList _ | PDict _ => str_container v
  end.

(** ** String methods *)

Definition lower_ascii (c : ascii) : ascii :=
  let n := nat_of_ascii c in
  if (65 <=? n)%nat && (n <=? 90)%nat then ascii_of_nat (n + 32) else c.

Definition upper_ascii (c : ascii) : ascii :=
  let n := nat_of_ascii c in
  if (97 <=? n)%nat && (n <=? 122)%nat then ascii_of_nat (n - 32) else c.

(** [s.upper()] *)
Fixpoint upper (s : string) : string :=
  match s with
  | EmptyString => EmptyString
  | String c s' => String (upper_ascii c) (upper s')
  end.

(** [s.lower()] *)
Fixpoint lower (s : string) : string :=
  match s with
  | EmptyString => EmptyString
  | String c s' => String (lower_ascii c) (lower s')
  end.

Definition is_space (c : ascii) : bool :=
  let n := nat_of_ascii c in
  ((9 <=? n)%nat && (n <=? 13)%nat) || ((28 <=? n)%nat && (n <=? 32)%nat).

Fixpoint lstrip_by (p : ascii -> bool) (s : string) : string :=
  match s with
  | EmptyString => EmptyString
  | String c s' => if p c then lstrip_by p s' else s
  end.

Fixpoint rstrip_by (p : ascii -> bool) (s : string) : string :=
  match s with
  | EmptyString => EmptyString
  | String c s' =>
      match rstrip_by p s' with
      | EmptyString => if p c then EmptyString else String c EmptyString
      | r => String c r
      end
  end.

(** [s.strip()] *)
Definition strip (s : string) : string := rstrip_by is_space (lstrip_by is_space s).

(** [s.rstrip('/')] *)
Definition rstrip_slash (s : string) : string :=
  rstrip_by (fun c => Ascii.eqb c "/"%char) s.

(** [s.split(sep)] for a one-character separator *)
Fixpoint split_on (sep : ascii) (s : string) : list string :=
  match s with
  | EmptyString => [EmptyString]
  | String c s' =>
      if Ascii.eqb c sep then EmptyString :: split_on sep s'
      else match split_on sep s' with
           | [] => [String c EmptyString]
           | h :: t => String c h :: t
           end
  end.

(** [c in s] for a one-character [c] *)
Fixpoint has_char (c : ascii) (s : string) : bool :=
  match s with
  | EmptyString => false
  | String d s' => Ascii.eqb c d || has_char c s'
  end.

(** [s.replace(old, new)] for a non-empty [old]: the occurrences are
    replaced from left to right without overlap.  [skip] counts the
    characters of an occurrence that remain to be dropped. *)
Fixpoint replace_from (old new : string) (skip : nat) (s : string) : string :=
  match s with
  | EmptyString => EmptyString
  | String c s' =>
      match skip with
      | S k => replace_from old new k s'
      | O =>
          if prefix old s
          then new ++ replace_from old new (String.length old - 1) s'
          else String c (replace_from old new 0 s')
      end
  end.

Definition replace (old new s : string) : string := replace_from old new 0 s.

(** [s[:n]] *)
Definition take (n : nat) (s : string) : string := substring 0 n s.

(** [s[n:]] *)
Fixpoint drop (n : nat) (s : string) : string :=
  match n, s with
  | O, _ => s
  | S _, EmptyString => EmptyString
  | S k, String _ s' => drop k s'
  end.

(** [sep.join(l)] *)
Fixpoint join (sep : string) (l : list string) : string :=
  match l with
  | [] => EmptyString
  | [x] => x
  | x :: t => x ++ sep ++ join sep t
  end.

(** ** Dictionaries and membership *)

Fixpoint dict_get {V : Type} (k : string) (d : list (string * V)) : option V :=
  match d with
  | [] => None
  | (k', v) :: d' => if k' =? k then Some v else dict_get k d'
  end.

(** [k in d] *)
Definition dict_has {V : Type} (k : string) (d : list (string * V)) : bool :=
  match dict_get k d with Some _ => true | None => false end.

(** [d[k] = v]: an existing key keeps its place, a new key goes last *)
Fixpoint dict_set {V : Type} (k : string) (v : V) (d : list (string * V))
  : list (string * V) :=
  match d with
  | [] => [(k, v)]
  | (k', v') :: d' =>
      if k' =? k then (k', v) :: d' else (k', v') :: dict_set k v d'
  end.

(** [d.update(e)] *)
Definition dict_update {V : Type} (d e : list (string * V)) : list (string * V) :=
  fold_left (fun acc kv => dict_set (fst kv) (snd kv) acc) e d.

(** [x in l] for a list or set of strings *)
Definition mem (x : string) (l : list string) : bool :=
  existsb (String.eqb x) l.

(** [d.get(k)] on a dict of values: [None] when the key is missing *)
Definition py_get (k : string) (d : pydict) : pyval :=
  match dict_get k d with Some v => v | None => PNone end.

(* ================================================================== *)
(** * The outside world *)
(* ================================================================== *)

Inductive Verb := GET | POST | PUT | DELETE | PATCH.

(** One call of [requests.get/post/put/delete/patch]. *)
Record Request := {
  q_verb : Verb;
  q_url : string;
  q_headers : option (list (string * string));
  q_json : option pydict;
  q_timeout : Z
}.

(** What [resp.json()] does: it returns the decoded value, raises
    JSONDecodeError (a ValueError) on a body that is not JSON, or raises
    RecursionError, with the given message, on a body nested deeper than
    the decoder's stack. *)
Inductive JsonOutcome :=
| JsonValue (v : pyval)
| JsonInvalid
| JsonTooDeep (what : string).

(** What the engine reads from a [requests.Response]. *)
Record Response := {
  r_status_code : Z;
  (** [round(resp.elapsed.total_seconds() * 1000, 2)], in 1/100 ms *)
  r_elapsed : Z;
  r_headers : list (string * string);
  r_text : string;
  (** [resp.json()] *)
  r_json : JsonOutcome;
  r_request_headers : list (string * string);
  r_request_url : string;
  r_request_method : string;
  r_request_body : option string
}.

(** The exception classes of [requests.exceptions], with [str(e)]. *)
Inductive ReqExn :=
| ConnectionError (detail : string)
| ConnectTimeout (detail : string)
| ReadTimeout (detail : string)
| OtherRequestException (detail : string).

Definition exn_detail (e : ReqExn) : string :=
  match e with
  | ConnectionError d | ConnectTimeout d | ReadTimeout d
  | OtherRequestException d => d
  end.

(** [isinstance(e, requests.exceptions.ConnectionError)]:
    [ConnectTimeout] derives from both [ConnectionError] and [Timeout]. *)
Definition is_ConnectionError (e : ReqExn) : bool :=
  match e with ConnectionError _ | ConnectTimeout _ => true | _ => false end.

Definition is_Timeout (e : ReqExn) : bool :=
  match e with ConnectTimeout _ | ReadTimeout _ => true | _ => false end.

Inductive Event :=
| EvHttp (rq : Request)
| EvGemini (prompt : string).

Definition Trace := list Event.

(** The remote parties: the HTTP peer answers a request given everything
    that happened before; the analysis service answers a prompt. *)
Class Network : Type := {
  http_exchange : Trace -> Request -> ReqExn + Response;
  gemini_reply : Trace -> string -> string
}.

(* ================================================================== *)
(** * The effect monad *)
(* ================================================================== *)

(** The exceptions that the engine meets, with the text of [str(e)], or
    the missing key for a KeyError. *)
Inductive PyExn :=
| RequestsExn (e : ReqExn)
| TypeError (what : string)
| KeyError (key : string)
| ValueError (what : string)
| RecursionError (what : string)
| AttributeError (what : string).

Inductive Result (A : Type) :=
| Ok (a : A)
| Raise (e : PyExn).
Arguments Ok {A} a.
Arguments Raise {A} e.

Definition M (A : Type) : Type := Trace -> Result A * Trace.

Definition ret {A} (a : A) : M A := fun tr => (Ok a, tr).

Definition raise {A} (e : PyExn) : M A := fun tr => (Raise e, tr).

Definition bind {A B} (m : M A) (k : A -> M B) : M B :=
  fun tr =>
    match m tr with
    | (Ok a, tr') => k a tr'
    | (Raise e, tr') => (Raise e, tr')
    end.

Notation "x <- m ;; k" := (bind m (fun x => k))
  (at level 61, m at next level, right associativity).
Notation "' pat <- m ;; k" := (bind m (fun x => match x with pat => k end))
  (at level 61, pat pattern, m at next level, right associativity).

(** [try: body / except <classes>: handler]; [handler e = None] when no
    clause matches [e], which then propagates. *)
Definition try_except {A} (body : M A) (handler : PyExn -> option (M A)) : M A :=
  fun tr =>
    match body tr with
    | (Ok a, tr') => (Ok a, tr')
    | (Raise e, tr') =>
        match handler e with
        | Some h => h tr'
        | None => (Raise e, tr')
        end
    end.

(** [for x in l: acc.append(f(x))] *)
Fixpoint mapM {A B} (f : A -> M B) (l : list A) : M (list B) :=
  match l with
  | [] => ret []
  | x :: t => y <- f x ;; ys <- mapM f t ;; ret (y :: ys)
  end.

(** The ValueError of urllib3 for a timeout that is not positive. *)
Definition timeout_refused (t : Z) : PyExn :=
  ValueError ("Attempted to set connect timeout to " ++ string_of_Z t
              ++ ", but the timeout cannot be set to a value less than or equal to 0.").

(** A call into [requests].  A timeout that is not positive is refused
    with ValueError before anything is sent; otherwise the request is
    recorded in the trace and answered by the peer. *)
Definition requests_call `{Network} (rq : Request) : M Response :=
  fun tr =>
    if (q_timeout rq <=? 0)%Z then (Raise (timeout_refused (q_timeout rq)), tr)
    else
      match http_exchange tr rq with
      | inl e => (Raise (RequestsExn e), (tr ++ [EvHttp rq])%list)
      | inr r => (Ok r, (tr ++ [EvHttp rq])%list)
      end.

(** [ask_gemini(prompt, api_key)]: the analysis collaborator, text in and
    text out; it catches its own failures. *)
Definition ask_gemini `{Network} (prompt : string) : M string :=
  fun tr => (Ok (gemini_reply tr prompt), (tr ++ [EvGemini prompt])%list).

(* ================================================================== *)
(** * HTTP probe: [call_endpoint] *)
(* ================================================================== *)

(** The keys written after a response arrived (lines 331-346). *)
Record WireInfo := {
  response_headers : list (string * string);
  request_headers : list (string * string);
  request_url : string;
  request_method : string;
  request_body : option string;
  body_full : string
}.

Record ProbeResult := {
  url : string;
  method : string;
  status_code : option Z;
  response_time_ms : option Z;
  is_json : bool;
  json_body : pyval;
  body_preview : option string;
  error : option string;
  wire : option WireInfo;
  (** added by [run_baseline] *)
  schema_validation : option string;
  (** added by the granular fuzz loop *)
  fuzz_param : option (string * pyval)
}.

Definition initial_result (u m : string) : ProbeResult :=
  {| url := u; method := m; status_code := None; response_time_ms := None;
     is_json := false; json_body := PNone; body_preview := None;
     error := None; wire := None; schema_validation := None;
     fuzz_param := None |}.

(** [json_body or {}] *)
Definition body_or_empty (json_body : option pydict) : pydict :=
  match json_body with
  | Some (kv :: d) => kv :: d
  | _ => []
  end.

(** The [if method == ... elif ... else] chain of lines 316-327. *)
Definition dispatch (u m : string) (headers : option (list (string * string)))
           (json_body : option pydict) (timeout : Z) : Request :=
  let without_body v :=
    {| q_verb := v; q_url := u; q_headers := headers; q_json := None;
       q_timeout := timeout |} in
  let with_body v :=
    {| q_verb := v; q_url := u; q_headers := headers;
       q_json := Some (body_or_empty json_body); q_timeout := timeout |} in
  if m =? "GET" then without_body GET
  else if m =? "POST" then with_body POST
  else if m =? "PUT" then with_body PUT
  else if m =? "DELETE" then without_body DELETE
  else if m =? "PATCH" then with_body PATCH
  else without_body GET.

(** Lines 329-346: the result after a response whose body the codec can
    process, as JSON or as text. *)
Definition fill_result `{PyRuntime} (u m : string) (resp : Response) : ProbeResult :=
  let w full :=
    {| response_headers := r_headers resp;
       request_headers := r_request_headers resp;
       request_url := r_request_url resp;
       request_method := r_request_method resp;
       request_body := r_request_body resp;
       body_full := full |} in
  match r_json resp with
  | JsonValue j =>
      let body_str := json_dumps j in
      {| url := u; method := m;
         status_code := Some (r_status_code resp);
         response_time_ms := Some (r_elapsed resp);
         is_json := true; json_body := j;
         body_preview :=
           Some (take 2000 body_str ++
                 (if (2000 <? String.length body_str)%nat then "..." else EmptyString));
         error := None; wire := Some (w body_str);
         schema_validation := None; fuzz_param := None |}
  | _ =>
      {| url := u; method := m;
         status_code := Some (r_status_code resp);
         response_time_ms := Some (r_elapsed resp);
         is_json := false; json_body := PNone;
         body_preview := Some (take 1000 (r_text resp));
         error := None; wire := Some (w (r_text resp));
         schema_validation := None; fuzz_param := None |}
  end.

Definition with_error (r : ProbeResult) (e : string) : ProbeResult :=
  {| url := url r; method := method r; status_code := status_code r;
     response_time_ms := response_time_ms r; is_json := is_json r;
     json_body := json_body r; body_preview := body_preview r;
     error := Some e; wire := wire r;
     schema_validation := schema_validation r; fuzz_param := fuzz_param r |}.

(** The text of [error] for each class of failure (lines 348-352). *)
Definition transport_error (timeout : Z) (x : ReqExn) : string :=
  if is_ConnectionError x then "Connection refused or DNS failure"
  else if is_Timeout x then "Timed out (>" ++ string_of_Z timeout ++ "s)"
  else exn_detail x.

(** The three [except] clauses of lines 347-352, in source order; any
    exception that is not one of [requests] leaves the probe. *)
Definition probe_handler (u m : string) (timeout : Z) (e : PyExn)
  : option (M ProbeResult) :=
  match e with
  | RequestsExn x =>
      if is_ConnectionError x then
        Some (ret (with_error (initial_result u m)
                              "Connection refused or DNS failure"))
      else if is_Timeout x then
        Some (ret (with_error (initial_result u m)
                              ("Timed out (>" ++ string_of_Z timeout ++ "s)")))
      else
        Some (ret (with_error (initial_result u m) (exn_detail x)))
  | _ => None
  end.

Definition call_endpoint `{PyRuntime} `{Network} (u m : string)
           (headers : option (list (string * string)))
           (json_body : option pydict) (timeout : Z) : M ProbeResult :=
  try_except
    (resp <- requests_call (dispatch u m headers json_body timeout) ;;
     match r_json resp with
     | JsonTooDeep what => raise (RecursionError what)
     | JsonValue j =>
         match dumps_overflow j with
         | Some what => raise (RecursionError what)
         | None => ret (fill_result u m resp)
         end
     | JsonInvalid => ret (fill_result u m resp)
     end)
    (probe_handler u m timeout).

(* ================================================================== *)
(** * Contract parser: [parse_endpoints] *)
(* ================================================================== *)

(** ** The contract document, as far as the parser reads it *)

(** The [schema] object of a parameter.  A field is [None] when the key
    is missing; [sc_default] is what [schema.get("default")] returns. *)
Record RawSchema := {
  sc_type : option string;
  sc_default : pyval;
  sc_enum : option (list pyval);
  sc_example : option pyval
}.

Definition empty_schema : RawSchema :=
  {| sc_type := None; sc_default := PNone; sc_enum := None; sc_example := None |}.

(** One entry of [parameters]. *)
Record RawParam := {
  rp_name : option string;
  rp_in : option string;
  rp_required : option bool;
  rp_description : option string;
  rp_example : option pyval;
  rp_schema : option RawSchema
}.

(** One entry of the [properties] of a request-body schema. *)
Record RawProp := {
  bp_description : option string;
  bp_type : option string;
  bp_example : pyval;
  bp_default : pyval;
  bp_enum : option (list pyval)
}.

(** The schema of an [application/json] request body. *)
Record BodySchema := {
  bs_properties : option (list (string * RawProp));
  bs_required : option (list string);
  bs_other_keys : list string
}.

Definition empty_body_schema : BodySchema :=
  {| bs_properties := None; bs_required := None; bs_other_keys := [] |}.

(** Truthiness of the schema dict: it has at least one key. *)
Definition schema_truthy (s : BodySchema) : bool :=
  match bs_properties s, bs_required s, bs_other_keys s with
  | None, None, [] => false
  | _, _, _ => true
  end.

(** [schema.get("properties", {})] *)
Definition properties_of (s : BodySchema) : list (string * RawProp) :=
  match bs_properties s with Some ps => ps | None => [] end.

(** [schema.get("required", [])] *)
Definition required_of (s : BodySchema) : list string :=
  match bs_required s with Some r => r | None => [] end.

(** The schema of a response, read by [validate_schema]. *)
Record RespSchema := {
  rs_type : option string;
  rs_other_keys : list string
}.

Record RawMedia (S : Type) := { md_schema : option S }.
Arguments md_schema {S} r.

Record RawResponse := {
  rr_description : option string;
  rr_content : option (list (string * RawMedia RespSchema))
}.

Record RawRequestBody := {
  rb_content : option (list (string * RawMedia BodySchema))
}.

Record RawOperation := {
  op_tags : option (list string);
  op_summary : option string;
  op_operationId : option string;
  op_parameters : option (list RawParam);
  op_responses : option (list (string * RawResponse));
  op_requestBody : option RawRequestBody
}.

Record OpenApiDoc := {
  doc_paths : option (list (string * list (string * RawOperation)))
}.

(** ** Parsed definitions *)

Record ParamInfo := {
  p_name : string;
  p_in : string;
  p_required : bool;
  p_description : string;
  p_example : pyval;
  p_default : pyval;
  p_type : string;
  p_enum : option (list pyval)
}.

Record ResponseSchemaEntry := {
  rse_description : string;
  rse_schema : option RespSchema
}.

Record Endpoint := {
  e_group : string;
  e_path : string;
  e_method : string;
  e_tags : list string;
  e_summary : string;
  e_operation_id : string;
  e_params : list ParamInfo;
  e_request_body_schema : option BodySchema;
  e_response_schemas : list (string * ResponseSchemaEntry);
  (** added by [fetch_all_endpoints] *)
  e_service_name : option pyval;
  e_base_url : option string
}.

Definition or_default {A} (d : A) (o : option A) : A :=
  match o with Some a => a | None => d end.

(** [type_defaults.get(t, "test")] *)
Definition lookup_default (table : list (string * string)) (t : string) : string :=
  or_default "test" (dict_get t table).

(** The table of lines 143-149. *)
Definition type_defaults : list (string * string) :=
  [("string", "test"); ("integer", "1"); ("number", "1.0");
   ("boolean", "true"); ("array", "test")].

(** The table of line 194. *)
Definition body_type_defaults : list (string * string) :=
  [("string", "test"); ("integer", "1"); ("number", "1.0"); ("boolean", "true")].

(** Truthiness of [param_info["enum"]] followed by [enum[0]]. *)
Definition first_enum (e : option (list pyval)) : option pyval :=
  match e with Some (x :: _) => Some x | _ => None end.

(** Lines 117-152: one declared parameter. *)
Definition parse_param (p : RawParam) : ParamInfo :=
  let schema := or_default empty_schema (rp_schema p) in
  let ty := or_default "string" (sc_type schema) in
  let dflt := sc_default schema in
  let en := sc_enum schema in
  let ex :=
    match rp_example p with
    | Some v => v
    | None =>
        match sc_example schema with
        | Some v => v
        | None =>
            if not_none dflt then dflt
            else match first_enum en with
                 | Some v => v
                 | None => PStr (lookup_default type_defaults ty)
                 end
        end
    end in
  {| p_name := or_default EmptyString (rp_name p);
     p_in := or_default "query" (rp_in p);
     p_required := or_default false (rp_required p);
     p_description := or_default EmptyString (rp_description p);
     p_example := ex; p_default := dflt; p_type := ty; p_enum := en |}.

(** Lines 183-195: one property of the request body. *)
Definition parse_body_prop (required_fields : list string) (name : string)
           (d : RawProp) : ParamInfo :=
  let ty := or_default "string" (bp_type d) in
  let ex := py_or (bp_example d) (bp_default d) in
  {| p_name := name;
     p_in := "body";
     p_required := mem name required_fields;
     p_description := or_default EmptyString (bp_description d);
     p_example := if truthy ex then ex
                  else PStr (lookup_default body_type_defaults ty);
     p_default := bp_default d; p_type := ty; p_enum := bp_enum d |}.

(** [any(existing["name"] == p_name for existing in params)] *)
Definition name_taken (name : string) (params : list ParamInfo) : bool :=
  existsb (fun existing => p_name existing =? name) params.

(** Lines 178-197: the loop over [props.items()], appending to [params]. *)
Fixpoint flatten_props (required_fields : list string)
         (props : list (string * RawProp)) (params : list ParamInfo)
  : list ParamInfo :=
  match props with
  | [] => params
  | (name, d) :: rest =>
      if name_taken name params
      then flatten_props required_fields rest params
      else flatten_props required_fields rest
             (params ++ [parse_body_prop required_fields name d])%list
  end.

(** Lines 169-173: the schema of the [application/json] body, if any. *)
Definition json_body_schema (op : RawOperation) : option BodySchema :=
  match op_requestBody op with
  | None => None
  | Some rb =>
      match dict_get "application/json" (or_default [] (rb_content rb)) with
      | Some media => Some (or_default empty_body_schema (md_schema media))
      | None => None
      end
  end.

(** Lines 115-197: the parameter sequence of an operation. *)
Definition parse_params (op : RawOperation) : list ParamInfo :=
  let params := map parse_param (or_default [] (op_parameters op)) in
  match json_body_schema op with
  | Some schema =>
      match bs_properties schema with
      | Some (kv :: more) =>
          flatten_props (required_of schema) (kv :: more) params
      | _ => params
      end
  | None => params
  end.

(** The properties of the [application/json] request body, if any. *)
Definition body_properties (op : RawOperation) : list (string * RawProp) :=
  match json_body_schema op with
  | Some schema => properties_of schema
  | None => []
  end.

(** The fields named [required] by the request-body schema. *)
Definition body_required (op : RawOperation) : list string :=
  match json_body_schema op with
  | Some schema => required_of schema
  | None => []
  end.

(** The body parameters added by the flattening loop. *)
Definition from_property (required_fields : list string)
           (props : list (string * RawProp)) (q : ParamInfo) : Prop :=
  p_in q = "body"
  /\ exists d, In (p_name q, d) props
               /\ q = parse_body_prop required_fields (p_name q) d.

(** ** The resolution order in the words of the specification *)

(** The type-keyed fallback. *)
Definition spec_type_fallback (t : string) : string :=
  if t =? "string" then "test"
  else if t =? "integer" then "1"
  else if t =? "number" then "1.0"
  else if t =? "boolean" then "true"
  else if t =? "array" then "test"
  else "test".

(** The first candidate that is present, else the fallback. *)
Fixpoint first_present (candidates : list (option pyval)) (fallback : pyval) : pyval :=
  match candidates with
  | [] => fallback
  | Some v :: _ => v
  | None :: rest => first_present rest fallback
  end.

(** Declared example, then schema-level example, then default, then first
    enum value, then the fallback keyed by the type (string when none is
    declared). *)
Definition spec_example (p : RawParam) : pyval :=
  let schema := or_default empty_schema (rp_schema p) in
  first_present
    [rp_example p;
     sc_example schema;
     (if not_none (sc_default schema) then Some (sc_default schema) else None);
     first_enum (sc_enum schema)]
    (PStr (spec_type_fallback (or_default "string" (sc_type schema)))).

(** Lines 155-166. *)
Definition parse_response (r : RawResponse) : ResponseSchemaEntry :=
  {| rse_description := or_default EmptyString (rr_description r);
     rse_schema :=
       match dict_get "application/json" (or_default [] (rr_content r)) with
       | Some media =>
           Some (or_default {| rs_type := None; rs_other_keys := [] |}
                            (md_schema media))
       | None => None
       end |}.

(** [response_schemas[code] = ...] over [responses.items()] *)
Definition parse_responses (rs : list (string * RawResponse))
  : list (string * ResponseSchemaEntry) :=
  fold_left (fun acc kv => dict_set (fst kv) (parse_response (snd kv)) acc) rs [].

Definition http_methods : list string := ["get"; "post"; "put"; "delete"; "patch"].

Definition parse_operation (group_name path method_ : string) (op : RawOperation)
  : Endpoint :=
  {| e_group := group_name;
     e_path := path;
     e_method := upper method_;
     e_tags := or_default [] (op_tags op);
     e_summary := or_default EmptyString (op_summary op);
     e_operation_id := or_default EmptyString (op_operationId op);
     e_params := parse_params op;
     e_request_body_schema := json_body_schema op;
     e_response_schemas := parse_responses (or_default [] (op_responses op));
     e_service_name := None;
     e_base_url := None |}.

(** Lines 100-211. *)
Definition parse_endpoints (spec : OpenApiDoc) (group_name : string) : list Endpoint :=
  flat_map
    (fun pm : string * list (string * RawOperation) =>
       flat_map
         (fun mo : string * RawOperation =>
            if mem (lower (fst mo)) http_methods
            then [parse_operation group_name (fst pm) (fst mo) (snd mo)]
            else [])
         (snd pm))
    (or_default [] (doc_paths spec)).

(* ================================================================== *)
(** * Request builder: [build_test_url] *)
(* ================================================================== *)

(** [s and name in s], for an optional set or list of names *)
Definition opt_mem (name : string) (s : option (list string)) : bool :=
  match s with
  | Some l => mem name l
  | None => false
  end.

(** [include_params is not None and name not in include_params] *)
Definition filtered_out (name : string) (include : option (list string)) : bool :=
  match include with
  | Some l => negb (mem name l)
  | None => false
  end.

(** [param_overrides and name in param_overrides], then the value *)
Definition truthy_lookup (name : string) (overrides : option pydict) : option pyval :=
  match overrides with
  | Some d => dict_get name d
  | None => None
  end.

Section RequestBuilder.
Context `{PyRuntime}.

(** [str(p.get("example") or p.get("default") or "test")] *)
Definition example_or_default (p : ParamInfo) : string :=
  pystr (py_or (py_or (p_example p) (p_default p)) (PStr "test")).

(** The TypeError of [path.replace(old, v)] for a [v] that is not text. *)
Definition replace_refused (v : pyval) : PyExn :=
  TypeError ("replace() argument 2 must be str, not "
             ++ match v with PNone => "None" | _ => type_name v end).

(** One turn of the loop of lines 222-254 on [(path, query_params)]. *)
Definition build_step (overrides : option pydict)
           (skip empty include : option (list string))
           (st : string * pydict) (p : ParamInfo) : Result (string * pydict) :=
  let '(path, query) := st in
  let name := p_name p in
  if opt_mem name skip then Ok st
  else if filtered_out name include && negb (p_in p =? "path") then Ok st
  else if p_in p =? "path" then
    let val :=
      match truthy_lookup name overrides with
      | Some v => v
      | None => PStr (if truthy (p_example p) then pystr (p_example p) else "test")
      end in
    match val with
    | PStr v => Ok (replace ("{" ++ name ++ "}") v path, query)
    | v => Raise (replace_refused v)
    end
  else if p_in p =? "query" then
    if opt_mem name empty then Ok (path, dict_set name (PStr EmptyString) query)
    else
      match overrides with
      | Some d =>
          match dict_get name d with
          | Some v => if not_none v then Ok (path, dict_set name v query) else Ok st
          | None =>
              if p_required p
              then Ok (path, dict_set name (PStr (example_or_default p)) query)
              else Ok st
          end
      | None =>
          if not_none (p_example p)
          then Ok (path, dict_set name (PStr (pystr (p_example p))) query)
          else if not_none (p_default p)
          then Ok (path, dict_set name (PStr (pystr (p_default p))) query)
          else Ok st
      end
  else Ok st.

Fixpoint build_params (overrides : option pydict)
         (skip empty include : option (list string))
         (params : list ParamInfo) (st : string * pydict)
  : Result (string * pydict) :=
  match params with
  | [] => Ok st
  | p :: rest =>
      match build_step overrides skip empty include st p with
      | Ok st' => build_params overrides skip empty include rest st'
      | Raise e => Raise e
      end
  end.

(** Lines 280-286 and 290-296: the value of a body field taken from
    the contract. *)
Definition body_from_spec (name : string) (prop : RawProp) (body : pydict) : pydict :=
  let val := py_or (bp_example prop) (bp_default prop) in
  if not_none val then dict_set name val body
  else match bp_type prop with
       | Some "string" => dict_set name (PStr "test") body
       | Some "integer" => dict_set name (PInt 1) body
       | _ => body
       end.

(** One turn of the loop of lines 267-296 on [json_body]. *)
Definition body_step (overrides : option pydict) (include : option (list string))
           (required_body_fields : list string)
           (body : pydict) (np : string * RawProp) : pydict :=
  let '(name, prop) := np in
  if filtered_out name include then body
  else
    match overrides with
    | Some d =>
        match dict_get name d with
        | Some v => if not_none v then dict_set name v body else body
        | None =>
            if mem name required_body_fields
            then body_from_spec name prop body
            else body
        end
    | None => body_from_spec name prop body
    end.

Definition build_body (e : Endpoint) (overrides : option pydict)
           (include : option (list string)) : pydict :=
  match e_request_body_schema e with
  | Some schema =>
      if schema_truthy schema
      then fold_left (body_step overrides include (required_of schema))
                     (properties_of schema) []
      else []
  | None => []
  end.

Definition build_test_url (base_url : string) (e : Endpoint)
           (param_overrides : option pydict)
           (skip_params empty_params include_params : option (list string))
  : Result (string * pydict) :=
  match build_params param_overrides skip_params empty_params include_params
                     (e_params e) (e_path e, []) with
  | Raise x => Raise x
  | Ok (path, query) =>
      let full_url := rstrip_slash base_url ++ path in
      let full_url :=
        match query with
        | [] => full_url
        | _ => full_url ++ "?" ++ urlencode query
        end in
      Ok (full_url, build_body e param_overrides include_params)
  end.
End RequestBuilder.

(** ** Equal inputs *)

(** Two optional dicts that compare equal in Python: both [None], or the
    same value under every key, whatever the insertion order. *)
Definition same_mapping (o1 o2 : option pydict) : Prop :=
  match o1, o2 with
  | None, None => True
  | Some d1, Some d2 => forall k, dict_get k d1 = dict_get k d2
  | _, _ => False
  end.

(** Two optional collections of names with the same members. *)
Definition same_names (s1 s2 : option (list string)) : Prop :=
  match s1, s2 with
  | None, None => True
  | Some l1, Some l2 => forall x, mem x l1 = mem x l2
  | _, _ => False
  end.

(* ================================================================== *)
(** * Value pools and the combination generator *)
(* ================================================================== *)

(** A pool element: a sample, a list of samples sent together, or the
    absence sentinel ([None]). *)
Inductive PoolValue :=
| Absent
| Single (s : string)
| Multi (l : list string).

Definition PoolValue_eq_dec (a b : PoolValue) : {a = b} + {a <> b}.
Proof. decide equality; [apply string_dec | apply (list_eq_dec string_dec)]. Defined.

(** Python [==] on pool elements *)
Definition pv_eqb (a b : PoolValue) : bool :=
  if PoolValue_eq_dec a b then true else false.

Definition pv_to_py (v : PoolValue) : pyval :=
  match v with
  | Absent => PNone
  | Single s => PStr s
  | Multi l => PList (map PStr l)
  end.

(** [itertools.combinations(l, k)] *)
Fixpoint combinations {A} (l : list A) (k : nat) : list (list A) :=
  match k, l with
  | O, _ => [[]]
  | S _, [] => []
  | S k', x :: t => (map (cons x) (combinations t k') ++ combinations t k)%list
  end.

(** [itertools.product] of the pools: the last one varies fastest *)
Fixpoint product {A} (pools : list (list A)) : list (list A) :=
  match pools with
  | [] => [[]]
  | p :: rest => flat_map (fun x => map (cons x) (product rest)) p
  end.

(** [l] is made of elements of [s], taken in the order of [s]. *)
Inductive subseq {A : Type} : list A -> list A -> Prop :=
| subseq_nil : forall s, subseq [] s
| subseq_take : forall x l s, subseq l s -> subseq (x :: l) (x :: s)
| subseq_skip : forall x l s, subseq l s -> subseq l (x :: s).

(** The number of samples of a pool element. *)
Definition pv_size (v : PoolValue) : nat :=
  match v with
  | Multi l => List.length l
  | Single _ => 1
  | Absent => 0
  end.

Definition size_le (a b : PoolValue) : Prop := pv_size a <= pv_size b.

(** Lexicographic order on lists of positions. *)
Fixpoint lex_lt (a b : list nat) : Prop :=
  match a, b with
  | [], [] => False
  | [], _ :: _ => True
  | _ :: _, [] => False
  | x :: a', y :: b' => x < y \/ (x = y /\ lex_lt a' b')
  end.

(** Smaller first; at equal size, the one that comes first in input
    order. *)
Definition size_then_position (a b : list nat) : Prop :=
  List.length a < List.length b
  \/ (List.length a = List.length b /\ lex_lt a b).

(** The samples at the given positions. *)
Definition pick (samples : list string) (positions : list nat) : list string :=
  map (fun i => nth i samples EmptyString) positions.

(** The [seen] loop of lines 653-655. *)
Fixpoint dedup_into (seen : list PoolValue) (candidates : list PoolValue)
  : list PoolValue :=
  match candidates with
  | [] => seen
  | c :: rest =>
      if existsb (pv_eqb c) seen
      then dedup_into seen rest
      else dedup_into (seen ++ [c])%list rest
  end.

Definition dedup (candidates : list PoolValue) : list PoolValue :=
  dedup_into [] candidates.

(** Lines 645-647: all the subsets of sizes 1 to [len(all_samples)]. *)
Definition power_candidates (all_samples : list string) : list PoolValue :=
  flat_map (fun i => map Multi (combinations all_samples i))
           (seq 1 (List.length all_samples)).

Section Pools.
Context `{PyRuntime}.

(** Lines 623-641: the samples collected for an included parameter. *)
Definition collect_samples (p : ParamInfo) (base_overrides : option pydict)
           (random_overrides : pydict) : list string :=
  let name := p_name p in
  let ui_val :=
    match dict_get name (or_default [] base_overrides) with
    | Some v => v
    | None => PStr EmptyString
    end in
  let s1 :=
    if truthy ui_val then
      if has_char ","%char (pystr ui_val)
      then map strip (split_on ","%char (pystr ui_val))
      else [pystr ui_val]
    else [] in
  let fuzz_val := py_get name random_overrides in
  let s2 := if truthy fuzz_val then (s1 ++ [pystr fuzz_val])%list else s1 in
  if p_type p =? "boolean" then
    let s3 := if mem "true" (map lower s2) then s2 else (s2 ++ ["true"])%list in
    if mem "false" (map lower s3) then s3 else (s3 ++ ["false"])%list
  else s2.

(** Lines 643-650. *)
Definition candidates_of (name : string) (multi_params : list string)
           (all_samples : list string) : list PoolValue :=
  if mem name multi_params then power_candidates all_samples
  else map Single all_samples.

(** Lines 657-669: the final pool of an included parameter. *)
Definition final_pool (p : ParamInfo) (seen : list PoolValue) : list PoolValue :=
  match seen with
  | _ :: _ =>
      if negb (p_required p) && negb (existsb (pv_eqb Absent) seen)
      then (seen ++ [Absent])%list
      else seen
  | [] =>
      if p_required p then [Single (example_or_default p); Absent]
      else [Absent]
  end.

(** Lines 643-655: [seen], the candidates of an included parameter
    before the final pool is assembled. *)
Definition seen_candidates (p : ParamInfo) (base_overrides : option pydict)
           (random_overrides : pydict) (multi_params : list string)
  : list PoolValue :=
  dedup (candidates_of (p_name p) multi_params
           (collect_samples p base_overrides random_overrides)).

(** Lines 605-671: the pool of one parameter. *)
Definition pool_of (p : ParamInfo) (base_overrides : option pydict)
           (random_overrides : pydict) (multi_params include_params : list string)
  : list PoolValue :=
  if negb (mem (p_name p) include_params) then
    if p_required p then [Single (example_or_default p)] else [Absent]
  else
    final_pool p (seen_candidates p base_overrides random_overrides multi_params).

(** [pool[0]] of a pool that is never empty *)
Definition pool_head (pool : list PoolValue) : PoolValue :=
  match pool with v :: _ => v | [] => Absent end.

(** Lines 601-673: [parameter_pools] and [baseline_values]. *)
Definition build_pools (params : list ParamInfo) (base_overrides : option pydict)
           (random_overrides : pydict) (multi_params include_params : list string)
  : list (string * list PoolValue) * list (string * PoolValue) :=
  fold_left
    (fun (acc : list (string * list PoolValue) * list (string * PoolValue)) p =>
       let pool := pool_of p base_overrides random_overrides
                           multi_params include_params in
       (dict_set (p_name p) pool (fst acc),
        dict_set (p_name p) (pool_head pool) (snd acc)))
    params ([], []).

(** What the two dicts built by the pool loop hold: every entry of
    [parameter_pools] is the pool of a parameter of that name, with its
    first element recorded in [baseline_values]. *)
Definition pools_agree (params : list ParamInfo) (bo : option pydict) (ro : pydict)
           (multi include : list string)
           (acc : list (string * list PoolValue) * list (string * PoolValue)) : Prop :=
  (forall name pl,
      dict_get name (fst acc) = Some pl ->
      (exists p, In p params /\ p_name p = name
                 /\ pl = pool_of p bo ro multi include)
      /\ dict_get name (snd acc) = Some (pool_head pl))
  /\ (forall p, In p params -> dict_get (p_name p) (fst acc) <> None).
End Pools.

(** A combination: a value for every parameter name. *)
Definition Combination := list (string * PoolValue).

(** Lines 686-688: [baseline_values.copy()] with the main-pool names set. *)
Definition assign (baseline : Combination) (names : list string)
           (combo : list PoolValue) : Combination :=
  fold_left (fun d nv => dict_set (fst nv) (snd nv) d) (combine names combo) baseline.

(** [[parameter_pools[name] for name in main_pool_names]] *)
Fixpoint lookup_pools (pools : list (string * list PoolValue)) (names : list string)
  : Result (list (list PoolValue)) :=
  match names with
  | [] => Ok []
  | n :: rest =>
      match dict_get n pools with
      | None => Raise (KeyError n)
      | Some pool =>
          match lookup_pools pools rest with
          | Ok ps => Ok (pool :: ps)
          | Raise e => Raise e
          end
      end
  end.

(** Lines 692-702: the sweep of one isolated parameter. *)
Definition isolated_sweep (pools : list (string * list PoolValue))
           (baseline : Combination) (name : string) : list Combination :=
  match dict_get name pools with
  | None => []
  | Some full_pool =>
      let baseline_v := or_default Absent (dict_get name baseline) in
      map (fun val => dict_set name val baseline)
          (filter (fun val => negb (pv_eqb val baseline_v)) full_pool)
  end.

(** Lines 678-702: [all_combos_dicts]. *)
Definition all_combos (pools : list (string * list PoolValue))
           (baseline : Combination) (include_params isolated_params : list string)
  : Result (list Combination) :=
  let main_pool_names :=
    filter (fun name => negb (mem name isolated_params)) include_params in
  match lookup_pools pools main_pool_names with
  | Raise e => Raise e
  | Ok main_pools =>
      Ok (map (assign baseline main_pool_names) (product main_pools)
          ++ flat_map (isolated_sweep pools baseline) isolated_params)%list
  end.

(** [parameter_pools[name]], empty for an unknown name *)
Definition pool_at (pools : list (string * list PoolValue)) (name : string)
  : list PoolValue :=
  or_default [] (dict_get name pools).

(** Python's [l[a:b]] for integers [a] and [b]. *)
Definition clamp_index (n i : Z) : Z :=
  if (i <? 0)%Z then Z.max (i + n) 0 else Z.min i n.

Definition py_slice {A} (l : list A) (a b : Z) : list A :=
  let n := Z.of_nat (List.length l) in
  let lo := clamp_index n a in
  let hi := clamp_index n b in
  firstn (Z.to_nat (hi - lo)) (skipn (Z.to_nat lo) l).

(** Lines 704-711. *)
Definition select_window {A} (mode : string) (offset limit : Z) (all : list A)
  : list A :=
  if mode =? "minimal" then firstn 1 all
  else py_slice all offset (offset + limit).

(* ================================================================== *)
(** * Combinatorial phase: [run_combinatorial_tests] *)
(* ================================================================== *)

Definition liftR {A} (r : Result A) : M A := fun tr => (r, tr).

Record CombinationResult := {
  cr_combination : string;
  cr_status_code : Z;
  cr_passed : bool;
  cr_body_preview : option string;
  cr_request_url : string;
  cr_request_body : pydict;
  cr_params_used : Combination
}.

Record CombinatorialResult := {
  co_results : list CombinationResult;
  co_total_count : Z;
  co_offset : Z;
  co_limit : Z
}.

(** What the engine reads from [config.json]; a field is [None] when
    the key is missing.  [services] holds the entries of the list, each
    whatever JSON value the file gives, and is empty when the key is
    missing. *)
Record Config := {
  timeout_seconds : option Z;
  response_time_limit_ms : option Z;
  swagger_base_url : option string;
  auth_type : option string;
  auth_header : option string;
  gemini_api_key : option string;
  services : list pyval
}.

(** [config[key]] *)
Definition config_item {A} (key : string) (field : option A) : M A :=
  match field with
  | Some v => ret v
  | None => raise (KeyError key)
  end.

(** [call_endpoint(..., timeout=config["timeout_seconds"])]: the key is
    read when the arguments are evaluated, before the call. *)
Definition probe `{PyRuntime} `{Network} (config : Config) (u m : string)
           (headers : option (list (string * string)))
           (json_body : option pydict) : M ProbeResult :=
  timeout <- config_item "timeout_seconds" (timeout_seconds config) ;;
  call_endpoint u m headers json_body timeout.

Definition Headers := list (string * string).

(** [include_params or [p["name"] for p in endpoint["params"]]] *)
Definition effective_include (e : Endpoint) (include_params : option (list string))
  : list string :=
  match include_params with
  | Some (n :: l) => n :: l
  | _ => map p_name (e_params e)
  end.

(** Lines 720-728: the display name of a combination. *)
Definition display_part (name : string) (val : PoolValue) : string :=
  match val with
  | Multi l => name ++ "=[" ++ join "," l ++ "]"
  | Single s => name ++ "=" ++ s
  | Absent => name ++ "=None"
  end.

Definition comb_name (include_params : list string) (baseline test_params : Combination)
  : string :=
  let display_parts :=
    flat_map
      (fun nv : string * PoolValue =>
         if mem (fst nv) include_params
            && negb (pv_eqb (snd nv) (or_default Absent (dict_get (fst nv) baseline)))
         then [display_part (fst nv) (snd nv)]
         else [])
      test_params in
  match display_parts with
  | [] => "Baseline (+)"
  | _ => join ", " display_parts
  end.

Definition to_overrides (c : Combination) : pydict :=
  map (fun nv => (fst nv, pv_to_py (snd nv))) c.

Section Combinatorial.
Context `{PyRuntime} `{Network}.

(** Lines 595-702: the full enumerated sequence and the baseline. *)
Definition enumerate (e : Endpoint) (base_overrides : option pydict)
           (multi_params include_params : option (list string))
           (random_overrides : option pydict)
           (isolated_params : option (list string))
  : Result (list Combination * Combination) :=
  let include := effective_include e include_params in
  let '(pools, baseline) :=
    build_pools (e_params e) base_overrides (or_default [] random_overrides)
                (or_default [] multi_params) include in
  match all_combos pools baseline include (or_default [] isolated_params) with
  | Ok all => Ok (all, baseline)
  | Raise x => Raise x
  end.

(** The offsets [0, limit, 2 * limit, ...] below [total]. *)
Definition window_offsets (total limit : Z) : list Z :=
  filter (fun off => (off <? total)%Z)
         (map (fun k => (Z.of_nat k * limit)%Z) (seq 0 (Z.to_nat total))).

(** The TypeError of [200 <= None] (line 737). *)
Definition status_not_comparable : PyExn :=
  TypeError "'<=' not supported between instances of 'int' and 'NoneType'".

(** Lines 715-742: one turn of the loop over [subset]. *)
Definition run_combination (e : Endpoint) (base_url : string) (headers : Headers)
           (config : Config) (include : list string) (baseline : Combination)
           (test_params : Combination) : M CombinationResult :=
  '(test_url, test_body) <-
     liftR (build_test_url base_url e (Some (to_overrides test_params))
                           None None None) ;;
  res <- probe config test_url (e_method e) (Some headers) (Some test_body) ;;
  match status_code res with
  | None => raise status_not_comparable
  | Some sc =>
      ret {| cr_combination := comb_name include baseline test_params;
             cr_status_code := sc;
             cr_passed := (200 <=? sc)%Z && (sc <? 300)%Z;
             cr_body_preview := body_preview res;
             cr_request_url := test_url;
             cr_request_body := test_body;
             cr_params_used := test_params |}
  end.

Definition run_combinatorial_tests (e : Endpoint) (base_url : string)
           (headers : Headers) (config : Config)
           (base_overrides : option pydict) (mode : string) (offset limit : Z)
           (multi_params include_params : option (list string))
           (random_overrides : option pydict)
           (isolated_params : option (list string))
  : M CombinatorialResult :=
  match e_params e with
  | [] => ret {| co_results := []; co_total_count := 0;
                 co_offset := 0; co_limit := limit |}
  | _ :: _ =>
      '(all, baseline) <-
         liftR (enumerate e base_overrides multi_params include_params
                          random_overrides isolated_params) ;;
      let subset := select_window mode offset limit all in
      results <- mapM (run_combination e base_url headers config
                         (effective_include e include_params) baseline) subset ;;
      ret {| co_results := results;
             co_total_count := Z.of_nat (List.length all);
             co_offset := offset; co_limit := limit |}
  end.
End Combinatorial.

(* ================================================================== *)
(** * The single-probe phases *)
(* ================================================================== *)

(** [status in (a, b, ...)]; [None] is in no such tuple *)
Definition status_in (s : option Z) (l : list Z) : bool :=
  match s with
  | Some z => existsb (Z.eqb z) l
  | None => false
  end.

Definition resp_schema_truthy (s : RespSchema) : bool :=
  match rs_type s, rs_other_keys s with
  | None, [] => false
  | _, _ => true
  end.

Definition is_list (v : pyval) : bool := match v with PList _ => true | _ => false end.
Definition is_dict (v : pyval) : bool := match v with PDict _ => true | _ => false end.
(** [isinstance(v, int)]: [bool] is a subclass of [int] *)
Definition is_int (v : pyval) : bool :=
  match v with PInt _ | PBool _ => true | _ => false end.
Definition is_str (v : pyval) : bool := match v with PStr _ => true | _ => false end.

(** Lines 355-375. *)
Definition validate_schema (response_json : pyval) (schema_info : option RespSchema)
  : string :=
  match schema_info with
  | None => "N/A"
  | Some s =>
      if negb (resp_schema_truthy s) then "N/A"
      else
        match rs_type s with
        | None => "N/A"
        | Some expected_type =>
            if expected_type =? EmptyString then "N/A"
            else if (expected_type =? "array") && negb (is_list response_json)
            then "FAIL: Expected array, got object"
            else if (expected_type =? "object") && negb (is_dict response_json)
            then "FAIL: Expected object, got list/primitive"
            else if (expected_type =? "integer") && negb (is_int response_json)
            then "FAIL: Expected integer"
            else if (expected_type =? "string") && negb (is_str response_json)
            then "FAIL: Expected string"
            else "PASS"
        end
  end.

Definition with_schema_validation (r : ProbeResult) (s : string) : ProbeResult :=
  {| url := url r; method := method r; status_code := status_code r;
     response_time_ms := response_time_ms r; is_json := is_json r;
     json_body := json_body r; body_preview := body_preview r;
     error := error r; wire := wire r;
     schema_validation := Some s; fuzz_param := fuzz_param r |}.

Definition with_fuzz_param (r : ProbeResult) (name : string) (v : pyval) : ProbeResult :=
  {| url := url r; method := method r; status_code := status_code r;
     response_time_ms := response_time_ms r; is_json := is_json r;
     json_body := json_body r; body_preview := body_preview r;
     error := error r; wire := wire r;
     schema_validation := schema_validation r; fuzz_param := Some (name, v) |}.

Record ParamResult := {
  prm_param : string;
  prm_required_by_spec : bool;
  prm_required_by_test : bool;
  prm_status_without : option Z
}.

Record EmptyResult := {
  emp_param : string;
  emp_status_empty : option Z;
  emp_graceful : bool
}.

Record NegativeResult := {
  neg_test : string;
  neg_status_code : option Z;
  neg_passed : bool;
  neg_response : option string
}.

Record PathFuzzResult := {
  pf_param : string;
  pf_value : string;
  pf_status_code : option Z;
  pf_result : string;
  pf_response_preview : option string
}.

Record EnumResult := {
  en_param : string;
  en_value : string;
  en_status_code : option Z;
  en_passed : bool;
  en_response : option string
}.

Record SubsetResult := {
  sub_value : string;
  sub_status_code : option Z;
  sub_keys : list string
}.

Record FieldProgression := {
  fp_param : string;
  fp_empty_status : option Z;
  fp_empty_keys : list string;
  fp_subset : option SubsetResult
}.

(** [base_overrides.copy() if base_overrides else {}] *)
Definition copy_or_empty (o : option pydict) : pydict := or_default [] o.

(** The fuzz vocabulary of line 528. *)
Definition fuzz_values : list string :=
  ["null"; "undefined"; "NaN"; "0"; "-1"; "999999999"; "INVALID_PATH"].

(** [sub in s] for strings *)
Fixpoint contains (sub s : string) : bool :=
  prefix sub s
  || match s with
     | EmptyString => false
     | String _ s' => contains sub s'
     end.

Definition selector_keywords : list string :=
  ["fields"; "select"; "required_fields"; "include"; "exclude"].

(** Lines 820-823. *)
Definition find_field_selectors (e : Endpoint) : list ParamInfo :=
  filter (fun p => existsb (fun k => contains k (lower (p_name p))) selector_keywords)
         (e_params e).

(** [get_keys] of lines 858-861 and 869-872. *)
Definition get_keys (data : pyval) : list string :=
  match data with
  | PDict d => map fst d
  | PList (PDict d :: _) => map fst d
  | _ => []
  end.

Definition sensitive_keywords : list string :=
  ["password"; "secret"; "api_key"; "access_token"; "hash"; "private_key"].

Definition dquote : string := String (ascii_of_nat 34) EmptyString.
Definition newline : string := String (ascii_of_nat 10) EmptyString.

Section Phases.
Context `{PyRuntime} `{Network}.

(** Lines 380-399. *)
Definition run_baseline (u m : string) (headers : Headers) (config : Config)
           (json_body_ : option pydict) (endpoint_def : Endpoint) : M ProbeResult :=
  result <- probe config u m (Some headers) json_body_ ;;
  limit <- config_item "response_time_limit_ms" (response_time_limit_ms config) ;;
  let schema_status :=
    if is_json result && status_in (status_code result) [200%Z] then
      match dict_get "200" (e_response_schemas endpoint_def) with
      | Some entry =>
          match rse_schema entry with
          | Some ok_schema =>
              if resp_schema_truthy ok_schema
              then validate_schema (json_body result) (Some ok_schema)
              else "N/A"
          | None => "N/A"
          end
      | None => "N/A"
      end
    else "N/A" in
  ret (with_schema_validation result schema_status).

(** Lines 402-412. *)
Definition run_auth_check (u m : string) (config : Config) : M ProbeResult :=
  probe config u m (Some []) None.

(** The parameters audited by phases 3 and 4 (lines 420-428, 460-468):
    name and [required]. *)
Definition auditable_params (e : Endpoint) : list (string * bool) :=
  (map (fun p => (p_name p, p_required p))
       (filter (fun p => p_in p =? "query") (e_params e))
   ++ match e_request_body_schema e with
      | Some schema =>
          if schema_truthy schema
          then map (fun np : string * RawProp =>
                      (fst np, mem (fst np) (required_of schema)))
                   (properties_of schema)
          else []
      | None => []
      end)%list.

(** Lines 415-455. *)
Definition run_param_removal (e : Endpoint) (base_url : string) (headers : Headers)
           (config : Config) (base_overrides : option pydict)
           (include_params : option (list string)) : M (list ParamResult) :=
  mapM
    (fun nr : string * bool =>
       let name := fst nr in
       '(test_url, test_body) <-
          liftR (build_test_url base_url e base_overrides (Some [name])
                                None include_params) ;;
       result <- probe config test_url (e_method e) (Some headers)
                               (Some test_body) ;;
       let is_required :=
         negb (status_in (status_code result) [200%Z])
         || match error result with Some _ => true | None => false end in
       ret {| prm_param := name;
              prm_required_by_spec := snd nr;
              prm_required_by_test := is_required;
              prm_status_without := status_code result |})
    (filter (fun nr => negb (filtered_out (fst nr) include_params))
            (auditable_params e)).

(** Lines 458-494. *)
Definition run_empty_values (e : Endpoint) (base_url : string) (headers : Headers)
           (config : Config) (base_overrides : option pydict)
           (include_params : option (list string)) : M (list EmptyResult) :=
  mapM
    (fun nr : string * bool =>
       let name := fst nr in
       '(test_url, test_body) <-
          liftR (build_test_url base_url e base_overrides None
                                (Some [name]) include_params) ;;
       result <- probe config test_url (e_method e) (Some headers)
                               (Some test_body) ;;
       ret {| emp_param := name;
              emp_status_empty := status_code result;
              emp_graceful := status_in (status_code result) [200; 400; 422]%Z |})
    (filter (fun nr => negb (filtered_out (fst nr) include_params))
            (auditable_params e)).

(** Lines 497-520. *)
Definition run_negative_tests (e : Endpoint) (base_url : string) (headers : Headers)
           (config : Config) : M (list NegativeResult) :=
  let bad_method := if e_method e =? "GET" then "DELETE" else "PATCH" in
  '(test_url, test_body) <-
     liftR (build_test_url base_url e None None None None) ;;
  result <- probe config test_url bad_method (Some headers) (Some test_body) ;;
  ret [{| neg_test := "Invalid Method (" ++ bad_method ++ ")";
          neg_status_code := status_code result;
          neg_passed := status_in (status_code result) [405; 403; 404; 501]%Z;
          neg_response := body_preview result |}].

(** Lines 523-553. *)
Definition run_path_fuzzing (e : Endpoint) (base_url : string) (headers : Headers)
           (config : Config) (base_overrides : option pydict)
  : M (list PathFuzzResult) :=
  mapM
    (fun pv : ParamInfo * string =>
       let '(p, val) := pv in
       let overrides := dict_set (p_name p) (PStr val) (copy_or_empty base_overrides) in
       '(test_url, test_body) <-
          liftR (build_test_url base_url e (Some overrides) None None None) ;;
       res <- probe config test_url (e_method e) (Some headers) (Some test_body) ;;
       let status :=
         if status_in (status_code res) [200%Z] then "WARN (200 OK?)"
         else if status_in (status_code res) [404; 400; 422]%Z then "PASS"
         else "FAIL" in
       ret {| pf_param := p_name p; pf_value := val;
              pf_status_code := status_code res; pf_result := status;
              pf_response_preview := body_preview res |})
    (flat_map (fun p => map (fun val => (p, val)) fuzz_values)
              (filter (fun p => p_in p =? "path") (e_params e))).

(** Lines 556-581. *)
Definition run_enum_testing (e : Endpoint) (base_url : string) (headers : Headers)
           (config : Config) (base_overrides : option pydict)
  : M (list EnumResult) :=
  mapM
    (fun p : ParamInfo =>
       let invalid_val := "INVALID_ENUM_VALUE" in
       let overrides :=
         dict_set (p_name p) (PStr invalid_val) (copy_or_empty base_overrides) in
       '(test_url, test_body) <-
          liftR (build_test_url base_url e (Some overrides) None None None) ;;
       res <- probe config test_url (e_method e) (Some headers) (Some test_body) ;;
       ret {| en_param := p_name p; en_value := invalid_val;
              en_status_code := status_code res;
              en_passed := status_in (status_code res) [400; 422]%Z;
              en_response := body_preview res |})
    (filter (fun p => match p_enum p with Some (_ :: _) => true | _ => false end)
            (e_params e)).

(** [find_in_json] of lines 791-799; [target] is [str(target_val).lower()]. *)
Fixpoint find_in_json (target : string) (data : pyval) : bool :=
  (target =? lower (pystr data))
  || match data with
     | PDict d => existsb (fun kv => match kv with (_, v) => find_in_json target v end) d
     | PList l => existsb (find_in_json target) l
     | _ => false
     end.

(** Lines 776-817. *)
Definition run_logic_checks (baseline_res : ProbeResult) (overrides : option pydict)
           (json_body_ : pydict) : list string :=
  if negb (truthy (json_body baseline_res)) then []
  else
    let sent_data := dict_update (copy_or_empty overrides) json_body_ in
    let response_json := json_body baseline_res in
    let echo :=
      flat_map
        (fun kv : string * pyval =>
           let '(key, val) := kv in
           if not_none val && (1 <? String.length (pystr val))%nat then
             if find_in_json (lower (pystr val)) response_json
             then ["Logic: `" ++ key ++ "=" ++ pystr val
                   ++ "` correctly ECHOED in response."]
             else ["LOGIC WARN: Sent field `" ++ key ++ "=" ++ pystr val
                   ++ "` NOT found in response."]
           else [])
        sent_data in
    let body_str :=
      lower (match wire baseline_res with
             | Some w => body_full w
             | None => EmptyString
             end) in
    let sensitive :=
      flat_map
        (fun kw =>
           if contains (dquote ++ kw ++ dquote) body_str
              || contains ("'" ++ kw ++ "'") body_str
           then ["SECURITY: Response contains sensitive keyword `" ++ kw ++ "`!"]
           else [])
        sensitive_keywords in
    (echo ++ sensitive)%list.

(** Lines 826-879. *)
Definition run_field_progression_test (e : Endpoint) (base_url : string)
           (headers : Headers) (config : Config) (base_overrides : option pydict)
  : M (list FieldProgression) :=
  mapM
    (fun s : ParamInfo =>
       let name := p_name s in
       let current_val := or_default PNone (truthy_lookup name base_overrides) in
       let current_val :=
         if truthy current_val then current_val
         else py_or (p_example s) (p_default s) in
       let overrides_empty :=
         dict_set name (PStr EmptyString) (copy_or_empty base_overrides) in
       '(u1, b1) <-
          liftR (build_test_url base_url e (Some overrides_empty) None None None) ;;
       r1 <- probe config u1 (e_method e) (Some headers) (Some b1) ;;
       sub_res <-
         (if truthy current_val && has_char ","%char (pystr current_val) then
            let single_field :=
              strip (hd EmptyString (split_on ","%char (pystr current_val))) in
            let overrides_sub :=
              dict_set name (PStr single_field) (copy_or_empty base_overrides) in
            '(u2, b2) <-
               liftR (build_test_url base_url e (Some overrides_sub) None None None) ;;
            r2 <- probe config u2 (e_method e) (Some headers) (Some b2) ;;
            ret (Some {| sub_value := single_field;
                         sub_status_code := status_code r2;
                         sub_keys := get_keys (json_body r2) |})
          else ret None) ;;
       ret {| fp_param := name;
              fp_empty_status := status_code r1;
              fp_empty_keys := get_keys (json_body r1);
              fp_subset := sub_res |})
    (find_field_selectors e).
End Phases.

(* ================================================================== *)
(** * The per-endpoint pipeline: [test_single_endpoint] *)
(* ================================================================== *)

(** The record returned by the early exit of lines 1605-1613. *)
Record HaltedRecord := {
  h_baseline : ProbeResult;
  h_enum_results : list EnumResult;
  h_combinatorial_result : CombinatorialResult;
  h_logic_findings : list string;
  h_granular_fuzz : list ProbeResult;
  h_auth_findings : list ProbeResult;
  h_ai_analysis : option string
}.

(** The record of lines 1713-1729. *)
Record FullRecord := {
  f_endpoint : Endpoint;
  f_test_url : string;
  f_baseline : ProbeResult;
  f_auth_test : ProbeResult;
  f_special_auth : list (string * ProbeResult);
  f_param_results : list ParamResult;
  f_empty_results : list EmptyResult;
  f_negative_results : list NegativeResult;
  f_fuzz_test_results : list ProbeResult;
  f_path_fuzz_results : list PathFuzzResult;
  f_enum_results : list EnumResult;
  f_combinatorial_result : CombinatorialResult;
  f_logic_findings : list string;
  f_field_progression : list FieldProgression;
  f_ai_analysis : option string
}.

Inductive TestRunRecord :=
| Halted (h : HaltedRecord)
| Completed (f : FullRecord).

(** Truthiness of an optional string *)
Definition nonempty (o : option string) : bool :=
  match o with
  | Some s => negb (s =? EmptyString)
  | None => false
  end.

(** [str] of an optional number in an f-string *)
Definition opt_Z_str (o : option Z) : string :=
  match o with Some z => string_of_Z z | None => "None" end.

(** [str] of a time in 1/100 ms, as Python prints the rounded float *)
Definition ms_str (k : Z) : string :=
  let a := Z.abs k in
  let whole := string_of_Z (a / 100) in
  let frac := (a mod 100)%Z in
  (if (k <? 0)%Z then "-" else EmptyString)
  ++ whole ++ "."
  ++ (if (frac mod 10 =? 0)%Z then string_of_Z (frac / 10)
      else string_of_Z (frac / 10) ++ string_of_Z (frac mod 10)).

Definition halted_notice : string :=
  "Authentication failed (401). Please check your token/credentials.".

Section Pipeline.
Context `{PyRuntime} `{Network}.

(** Lines 1573-1589. *)
Definition make_auth_headers (config : Config)
           (auth_token username password : option string) : Headers :=
  match auth_token with
  | Some tok0 =>
      if negb (tok0 =? EmptyString) then
        let tok := strip tok0 in
        let ty := or_default "Bearer" (auth_type config) in
        let key := or_default "Authorization" (auth_header config) in
        let tok :=
          if prefix (lower ty ++ " ") (lower tok)
          then strip (drop (String.length ty + 1) tok)
          else tok in
        [(key, ty ++ " " ++ tok)]
      else if nonempty username && nonempty password then
        [("Authorization",
          "Basic " ++ b64encode (or_default EmptyString username ++ ":"
                                 ++ or_default EmptyString password))]
      else []
  | None =>
      if nonempty username && nonempty password then
        [("Authorization",
          "Basic " ++ b64encode (or_default EmptyString username ++ ":"
                                 ++ or_default EmptyString password))]
      else []
  end.

(** Lines 1592-1595. *)
Definition merge_custom (param_overrides custom_overrides : option pydict)
  : option pydict :=
  match custom_overrides with
  | Some (kv :: more) =>
      Some (dict_update (copy_or_empty param_overrides) (kv :: more))
  | _ => param_overrides
  end.

(** [endpoint.get("base_url") or config.get("swagger_base_url", "")] *)
Definition resolve_base_url (e : Endpoint) (config : Config) : string :=
  if nonempty (e_base_url e) then or_default EmptyString (e_base_url e)
  else or_default EmptyString (swagger_base_url config).

(** Lines 1630-1646: the granular fuzz loop. *)
Definition granular_fuzz (e : Endpoint) (base_url : string) (headers : Headers)
           (config : Config) (param_overrides random_overrides : option pydict)
  : M (list ProbeResult) :=
  mapM
    (fun kv : string * pyval =>
       let '(param_name, random_val) := kv in
       let current_overrides :=
         dict_set param_name random_val (copy_or_empty param_overrides) in
       '(fuzz_url, fuzz_body) <-
          liftR (build_test_url base_url e (Some current_overrides)
                                None None None) ;;
       res <- probe config fuzz_url (e_method e) (Some headers) (Some fuzz_body) ;;
       ret (with_fuzz_param res param_name random_val))
    (or_default [] random_overrides).

(** Lines 1650-1690: the authorization probes; returns [auth_result]
    and [special_auth_results]. *)
Definition auth_tests (e : Endpoint) (base_url test_url : string)
           (headers : Headers) (config : Config) (param_overrides : option pydict)
           (baseline : ProbeResult)
  : M (ProbeResult * list (string * ProbeResult)) :=
  let param_names := map p_name (e_params e) in
  if mem "username" param_names || mem "password" param_names then
    '(token_only_url, token_only_body) <-
       liftR (build_test_url base_url e param_overrides
                             (Some ["username"; "password"]) None None) ;;
    token_only_res <- probe config token_only_url (e_method e) (Some headers)
                                    (Some token_only_body) ;;
    '(creds_url, creds_body) <-
       liftR (build_test_url base_url e param_overrides None None None) ;;
    creds_res <- probe config creds_url (e_method e) (Some [])
                               (Some creds_body) ;;
    ret (creds_res, [("token_only", token_only_res); ("creds_only", creds_res)])
  else
    auth_result <- run_auth_check test_url (e_method e) config ;;
    let bad_token_header :=
      [(or_default "Authorization" (auth_header config),
        "Bearer invalid_token_12345")] in
    invalid_auth_res <- probe config test_url (e_method e) (Some bad_token_header)
                                      None ;;
    ret (auth_result, [("token_only", baseline); ("invalid_token", invalid_auth_res)]).

(** Lines 1731-1738: the prompt given to the analysis service. *)
Definition analysis_prompt (e : Endpoint) (baseline : ProbeResult) : string :=
  let summary_text :=
    "Baseline: " ++ opt_Z_str (status_code baseline) ++ ", Time: "
    ++ match response_time_ms baseline with
       | Some k => ms_str k
       | None => "None"
       end ++ "ms" ++ newline in
  let summary_text :=
    if nonempty (body_preview baseline)
    then summary_text ++ "Response: "
         ++ take 500 (or_default EmptyString (body_preview baseline)) ++ newline
    else summary_text in
  "Analyze this API endpoint: " ++ e_method e ++ " " ++ e_path e ++ newline
  ++ newline ++ summary_text ++ newline ++ newline ++ "Is it working correctly?".

(** Lines 1566-1740. *)
Definition test_single_endpoint (e : Endpoint) (config : Config)
           (auth_token username password : option string)
           (param_overrides random_overrides custom_overrides : option pydict)
           (run_ai : bool) (combinatorial_mode : string)
           (comb_offset comb_limit : Z)
           (multi_params include_params isolated_params : option (list string))
  : M TestRunRecord :=
  let base_url := resolve_base_url e config in
  let auth_headers := make_auth_headers config auth_token username password in
  let param_overrides := merge_custom param_overrides custom_overrides in
  '(test_url, json_body_) <-
     liftR (build_test_url base_url e param_overrides None None include_params) ;;
  baseline <- run_baseline test_url (e_method e) auth_headers config
                           (Some json_body_) e ;;
  if status_in (status_code baseline) [401%Z] then
    ret (Halted
           {| h_baseline := baseline;
              h_enum_results := [];
              h_combinatorial_result :=
                {| co_results := []; co_total_count := 0;
                   co_offset := comb_offset; co_limit := comb_limit |};
              h_logic_findings := [];
              h_granular_fuzz := [];
              h_auth_findings := [];
              h_ai_analysis := if run_ai then Some halted_notice else None |})
  else
    neg_results <- run_negative_tests e base_url auth_headers config ;;
    path_fuzz_results <-
      run_path_fuzzing e base_url auth_headers config param_overrides ;;
    enum_results <-
      run_enum_testing e base_url auth_headers config param_overrides ;;
    combinatorial_result <-
      run_combinatorial_tests e base_url auth_headers config param_overrides
        combinatorial_mode comb_offset comb_limit multi_params include_params
        random_overrides isolated_params ;;
    let logic_findings := run_logic_checks baseline param_overrides json_body_ in
    fuzz_results_list <-
      granular_fuzz e base_url auth_headers config param_overrides
                    random_overrides ;;
    '(auth_result, special_auth_results) <-
       auth_tests e base_url test_url auth_headers config param_overrides baseline ;;
    '(param_results, empty_results) <-
       (match filter (fun p => p_in p =? "query") (e_params e) with
        | [] => ret ([], [])
        | _ :: _ =>
            prs <- run_param_removal e base_url auth_headers config
                                     param_overrides include_params ;;
            ers <- run_empty_values e base_url auth_headers config
                                    param_overrides include_params ;;
            ret (prs, ers)
        end) ;;
    field_progression <-
      run_field_progression_test e base_url auth_headers config param_overrides ;;
    ai <- (if run_ai
           then
             api_key <- config_item "gemini_api_key" (gemini_api_key config) ;;
             a <- ask_gemini (analysis_prompt e baseline) ;;
             ret (Some a)
           else ret None) ;;
    ret (Completed
           {| f_endpoint := e;
              f_test_url := test_url;
              f_baseline := baseline;
              f_auth_test := auth_result;
              f_special_auth := special_auth_results;
              f_param_results := param_results;
              f_empty_results := empty_results;
              f_negative_results := neg_results;
              f_fuzz_test_results := fuzz_results_list;
              f_path_fuzz_results := path_fuzz_results;
              f_enum_results := enum_results;
              f_combinatorial_result := combinatorial_result;
              f_logic_findings := logic_findings;
              f_field_progression := field_progression;
              f_ai_analysis := ai |}).
End Pipeline.

(* ================================================================== *)
(** * Discovery: [fetch_all_endpoints] *)
(* ================================================================== *)

(** How a decoded JSON document is read as a contract; [None] when its
    shape makes [parse_endpoints] raise. *)
Class ContractReader : Type := {
  read_contract : pyval -> option OpenApiDoc
}.

(** All or nothing *)
Fixpoint sequence_opt {A} (l : list (option A)) : option (list A) :=
  match l with
  | [] => Some []
  | None :: _ => None
  | Some a :: rest =>
      match sequence_opt rest with
      | Some t => Some (a :: t)
      | None => None
      end
  end.

(** One entry of [urls]: its name (which the log line joins, so it has to
    be text) and its url. *)
Definition group_of_item (item : pyval) : option (string * pyval) :=
  match item with
  | PDict d =>
      match or_default (PStr "unknown") (dict_get "name" d) with
      | PStr n => Some (n, or_default (PStr EmptyString) (dict_get "url" d))
      | _ => None
      end
  | _ => None
  end.

(** Lines 67-75; every shape that makes the loop raise yields no group,
    as the [except] clause of line 79 does. *)
Definition groups_of (data : pyval) : list (string * pyval) :=
  match data with
  | PDict d =>
      match or_default (PList []) (dict_get "urls" d) with
      | PList items => or_default [] (sequence_opt (map group_of_item items))
      | _ => []
      end
  | _ => []
  end.

Definition plain_get (u : string) (timeout : Z) : Request :=
  {| q_verb := GET; q_url := u; q_headers := None; q_json := None;
     q_timeout := timeout |}.

Definition with_service (svc_name : pyval) (svc_url : string) (e : Endpoint)
  : Endpoint :=
  {| e_group := e_group e; e_path := e_path e; e_method := e_method e;
     e_tags := e_tags e; e_summary := e_summary e;
     e_operation_id := e_operation_id e; e_params := e_params e;
     e_request_body_schema := e_request_body_schema e;
     e_response_schemas := e_response_schemas e;
     e_service_name := Some svc_name; e_base_url := Some svc_url |}.

(** [svc.get("name", "Unknown")] and [svc.get("url", "").rstrip("/")] *)
Definition service_entry (svc : pyval) : Result (pyval * string) :=
  match svc with
  | PDict d =>
      let svc_name := or_default (PStr "Unknown") (dict_get "name" d) in
      match or_default (PStr EmptyString) (dict_get "url" d) with
      | PStr u => Ok (svc_name, rstrip_slash u)
      | v => Raise (AttributeError ("'" ++ type_name v
                                    ++ "' object has no attribute 'rstrip'"))
      end
  | v => Raise (AttributeError ("'" ++ type_name v
                                ++ "' object has no attribute 'get'"))
  end.

(** [{"name": "Default", "url": base_url}] *)
Definition default_service (base_url : string) : pyval :=
  PDict [("name", PStr "Default"); ("url", PStr base_url)].

Section Discovery.
Context `{PyRuntime} `{Network} `{ContractReader}.

(** Lines 60-81. *)
Definition fetch_swagger_config (base_url : string) (timeout : Z)
  : M (list (string * pyval)) :=
  try_except
    (resp <- requests_call
               (plain_get (rstrip_slash base_url ++ "/v3/api-docs/swagger-config")
                          timeout) ;;
     if (r_status_code resp =? 200)%Z then
       match r_json resp with
       | JsonValue data => ret (groups_of data)
       | _ => ret []
       end
     else ret [])
    (fun _ => Some (ret [])).

(** Lines 84-97. *)
Definition fetch_openapi_spec (base_url spec_path : string) (timeout : Z)
  : M (option pyval) :=
  try_except
    (resp <- requests_call (plain_get (rstrip_slash base_url ++ spec_path) timeout) ;;
     if (r_status_code resp =? 200)%Z then
       match r_json resp with
       | JsonValue data => ret (Some data)
       | _ => ret None
       end
     else ret None)
    (fun _ => Some (ret None)).

(** Lines 1551-1559: the groups of one service; a document the parser
    cannot read ends the service, keeping what was found before. *)
Fixpoint fetch_groups (svc_name : pyval) (svc_url : string) (timeout : Z)
         (groups : list (string * pyval)) (all_endpoints : list Endpoint)
  : M (list Endpoint) :=
  match groups with
  | [] => ret all_endpoints
  | (group_name, group_url) :: rest =>
      spec <- fetch_openapi_spec svc_url (pystr group_url) timeout ;;
      match spec with
      | Some s =>
          if truthy s then
            match read_contract s with
            | Some doc =>
                fetch_groups svc_name svc_url timeout rest
                  (all_endpoints
                   ++ map (with_service svc_name svc_url)
                          (parse_endpoints doc group_name))%list
            | None => ret all_endpoints
            end
          else fetch_groups svc_name svc_url timeout rest all_endpoints
      | None => fetch_groups svc_name svc_url timeout rest all_endpoints
      end
  end.

(** Lines 1544-1546: the loop over the services reads name and url
    before its [try]; an entry that is no dict, or a url that is no text,
    raises AttributeError there. *)
Fixpoint fetch_services (timeout : Z) (svcs : list pyval)
         (all_endpoints : list Endpoint) : M (list Endpoint) :=
  match svcs with
  | [] => ret all_endpoints
  | svc :: rest =>
      '(svc_name, svc_url) <- liftR (service_entry svc) ;;
      if svc_url =? EmptyString then fetch_services timeout rest all_endpoints
      else
        groups <- fetch_swagger_config svc_url timeout ;;
        found <- fetch_groups svc_name svc_url timeout groups all_endpoints ;;
        fetch_services timeout rest found
  end.

(** Lines 1530-1563. *)
Definition fetch_all_endpoints (config : Config) : M (list Endpoint) :=
  let timeout := or_default 10%Z (timeout_seconds config) in
  match services config with
  | [] =>
      if nonempty (swagger_base_url config)
      then fetch_services timeout
             [default_service (or_default EmptyString (swagger_base_url config))] []
      else ret []
  | svcs => fetch_services timeout svcs []
  end.
End Discovery.

(* ================================================================== *)
(** * The HTTP handler: [run_test] of [app.py] *)
(* ================================================================== *)

(** The JSON body of a [POST /api/run-test]; a field is [None] when the
    key is missing. *)
Record RunTestData := {
  d_index : option Z;
  d_auth_token : option string;
  d_auth_mode : option string;
  d_username : option string;
  d_password : option string;
  d_params : option pydict;
  d_random_params : option pydict;
  d_custom_params : option pydict;
  d_run_ai : option bool;
  d_combinatorial_mode : option string;
  d_comb_offset : option Z;
  d_comb_limit : option Z;
  d_multi_params : option (list string);
  d_include_params : option (list string);
  d_isolated_params : option (list string)
}.

(** What the handler answers: a status and a JSON body. *)
Inductive Reply :=
| ReplyResult (r : TestRunRecord)
| ReplyError (code : Z) (message : string).

(** ** [repr] of a text, which is [str] of a KeyError

    Code points below 256: a backslash and the enclosing quote are
    escaped, newline, carriage return and tab have their letter, every
    other code point that is not printable is written in hexadecimal. *)
Definition hex_digit (n : nat) : string :=
  String (nth n ["0"; "1"; "2"; "3"; "4"; "5"; "6"; "7"; "8"; "9";
                 "a"; "b"; "c"; "d"; "e"; "f"]%char "0"%char) EmptyString.

Definition repr_char (quote c : ascii) : string :=
  let n := nat_of_ascii c in
  if Ascii.eqb c "\"%char then "\\"
  else if Ascii.eqb c quote then String "\"%char (String c EmptyString)
  else if (n =? 10)%nat then "\n"
  else if (n =? 13)%nat then "\r"
  else if (n =? 9)%nat then "\t"
  else if (n <? 32)%nat || (n =? 127)%nat
          || ((128 <=? n)%nat && (n <=? 160)%nat) || (n =? 173)%nat
  then "\x" ++ hex_digit (n / 16) ++ hex_digit (n mod 16)
  else String c EmptyString.

Fixpoint repr_body (quote : ascii) (s : string) : string :=
  match s with
  | EmptyString => EmptyString
  | String c s' => repr_char quote c ++ repr_body quote s'
  end.

(** [repr(s)]: double quotes when the text has an apostrophe and no
    double quote, apostrophes otherwise. *)
Definition py_repr (s : string) : string :=
  let apostrophe := "'"%char in
  let double := ascii_of_nat 34 in
  let quote :=
    if has_char apostrophe s && negb (has_char double s) then double
    else apostrophe in
  String quote (repr_body quote s) ++ String quote EmptyString.

(** [str(e)] *)
Definition exn_str (e : PyExn) : string :=
  match e with
  | RequestsExn x => exn_detail x
  | KeyError key => py_repr key
  | TypeError what | ValueError what | RecursionError what
  | AttributeError what => what
  end.

Section Handler.
Context `{PyRuntime} `{Network} `{ContractReader}.

(** Lines 63-69 of [app.py]: fill the endpoint cache when it is empty. *)
Definition ensure_cache (config : Config) (cached_endpoints : list Endpoint)
  : M (list Endpoint) :=
  match cached_endpoints with
  | [] => fetch_all_endpoints config
  | _ :: _ => ret cached_endpoints
  end.

(** [0 <= endpoint_index < len(CACHED_ENDPOINTS)] *)
Definition index_in_range (i : Z) (cached_endpoints : list Endpoint) : bool :=
  (0 <=? i)%Z && (i <? Z.of_nat (List.length cached_endpoints))%Z.

(** Lines 42-99 of [app.py].  The handler returns its reply and the
    new value of the global [CACHED_ENDPOINTS]. *)
Definition run_test (config : Config) (cached_endpoints : list Endpoint)
           (data : RunTestData) : Trace -> (Reply * list Endpoint) * Trace :=
  fun tr =>
    match ensure_cache config cached_endpoints tr with
    | (Raise x, tr1) =>
        (ReplyError 500 ("Failed to populate endpoints: " ++ exn_str x),
         cached_endpoints, tr1)
    | (Ok cache, tr1) =>
        match d_index data with
        | None => (ReplyError 400 "Invalid endpoint index", cache, tr1)
        | Some i =>
            if negb (index_in_range i cache)
            then (ReplyError 400 "Invalid endpoint index", cache, tr1)
            else
              match nth_error cache (Z.to_nat i) with
              | None => (ReplyError 400 "Invalid endpoint index", cache, tr1)
              | Some endpoint =>
                  let auth_mode := or_default "token" (d_auth_mode data) in
                  match
                    test_single_endpoint endpoint config
                      (if auth_mode =? "token" then d_auth_token data else None)
                      (if auth_mode =? "creds" then d_username data else None)
                      (if auth_mode =? "creds" then d_password data else None)
                      (Some (or_default [] (d_params data)))
                      (Some (or_default [] (d_random_params data)))
                      (Some (or_default [] (d_custom_params data)))
                      (or_default false (d_run_ai data))
                      (or_default "minimal" (d_combinatorial_mode data))
                      (or_default 0%Z (d_comb_offset data))
                      (or_default 64%Z (d_comb_limit data))
                      (Some (or_default [] (d_multi_params data)))
                      (d_include_params data)
                      (Some (or_default [] (d_isolated_params data)))
                      tr1
                  with
                  | (Ok result, tr2) => (ReplyResult result, cache, tr2)
                  | (Raise x, tr2) => (ReplyError 500 (exn_str x), cache, tr2)
                  end
              end
        end
    end.
End Handler.


(* ================================================================== *)
(** * A runtime and two peers for closed examples *)
(* ================================================================== *)

(** Text goes through unescaped and containers print as a fixed mark;
    the examples below do not depend on either. *)
Definition plain_runtime : PyRuntime :=
  {| str_container := fun _ => "[...]";
     urlencode := fun q =>
       join "&" (map (fun kv : string * pyval =>
                        fst kv ++ "="
                        ++ match snd kv with
                           | PStr s => s
                           | PInt z => string_of_Z z
                           | _ => "-"
                           end) q);
     json_dumps := fun _ => "{}";
     dumps_overflow := fun _ => None;
     b64encode := fun s => s |}.

Definition reply_with (code : Z) (rq : Request) : Response :=
  {| r_status_code := code; r_elapsed := 1250; r_headers := [];
     r_text := "{}"; r_json := JsonValue (PDict []);
     r_request_headers := or_default [] (q_headers rq);
     r_request_url := q_url rq; r_request_method := "GET";
     r_request_body := None |}.

(** A peer that answers every request with the given status. *)
Definition constant_peer (code : Z) : Network :=
  {| http_exchange := fun _ rq => inr (reply_with code rq);
     gemini_reply := fun _ _ => "ok" |}.


(** A peer that cannot be reached. *)
Definition unreachable_peer : Network :=
  {| http_exchange := fun _ _ => inl (ConnectionError "Max retries exceeded");
     gemini_reply := fun _ _ => "ok" |}.

Definition no_reader : ContractReader := {| read_contract := fun _ => None |}.

(** ** Sample data *)

Definition sample_param (name loc : string) (required : bool) (ex : pyval)
           (ty : string) : ParamInfo :=
  {| p_name := name; p_in := loc; p_required := required;
     p_description := EmptyString; p_example := ex; p_default := PNone;
     p_type := ty; p_enum := None |}.

(** [GET /items/{id}?category=&tags=&limit=] *)
Definition items_endpoint : Endpoint :=
  {| e_group := "shop"; e_path := "/items/{id}"; e_method := "GET";
     e_tags := ["items"]; e_summary := "List items"; e_operation_id := "listItems";
     e_params :=
       [sample_param "id" "path" true (PStr "7") "string";
        sample_param "category" "query" true (PStr "shoes") "string";
        sample_param "tags" "query" false (PStr "x") "string";
        sample_param "limit" "query" false (PStr "10") "integer"];
     e_request_body_schema := None;
     e_response_schemas := [];
     e_service_name := Some (PStr "Default");
     e_base_url := Some "http://shop.test" |}.

Definition sample_config : Config :=
  {| timeout_seconds := Some 10%Z; response_time_limit_ms := Some 2000%Z;
     swagger_base_url := Some "http://shop.test";
     auth_type := None; auth_header := None;
     gemini_api_key := Some "k"; services := [] |}.


(** An operation whose JSON body has a property with an enum and neither
    example nor default. *)
Definition order_operation : RawOperation :=
  {| op_tags := None; op_summary := None; op_operationId := None;
     op_parameters :=
       Some [{| rp_name := Some "id"; rp_in := Some "path";
                rp_required := Some true; rp_description := None;
                rp_example := None;
                rp_schema := Some {| sc_type := Some "string"; sc_default := PNone;
                                     sc_enum := Some [PStr "first"; PStr "second"];
                                     sc_example := None |} |}];
     op_responses := None;
     op_requestBody :=
       Some {| rb_content :=
                 Some [("application/json",
                        {| md_schema :=
                             Some {| bs_properties :=
                                       Some [("state",
                                              {| bp_description := None;
                                                 bp_type := Some "string";
                                                 bp_example := PNone;
                                                 bp_default := PNone;
                                                 bp_enum := Some [PStr "open"; PStr "closed"] |});
                                             ("id",
                                              {| bp_description := None;
                                                 bp_type := Some "integer";
                                                 bp_example := PNone;
                                                 bp_default := PNone;
                                                 bp_enum := None |})];
                                     bs_required := Some ["state"];
                                     bs_other_keys := ["type"] |} |})] |} |}.

(* ================================================================== *)
(** * Vocabulary of the further properties *)
(* ================================================================== *)

(** The keys of a dict, in order. *)
Definition keys {V : Type} (d : list (string * V)) : list string := map fst d.

(** A run that ends in an exception. *)
Definition raises {A : Type} (r : Result A * Trace) : Prop :=
  exists x tr, r = (Raise x, tr).

(** A peer that answers no request: every exchange fails in transport. *)
Definition unreachable `{Network} : Prop :=
  forall tr rq, exists x, http_exchange tr rq = inl x.

(** A path parameter that is not skipped and whose override is not text:
    the one thing [str.replace] cannot take. *)
Definition bad_path_override (overrides : option pydict)
           (skip : option (list string)) (p : ParamInfo) : bool :=
  negb (opt_mem (p_name p) skip)
  && (p_in p =? "path")
  && match truthy_lookup (p_name p) overrides with
     | Some (PStr _) => false
     | Some _ => true
     | None => false
     end.

(** The path of a build, or the exception that ended it. *)
Definition path_of (r : Result (string * pydict)) : Result string :=
  match r with
  | Ok (path, _) => Ok path
  | Raise x => Raise x
  end.

(** The URL that lines 256-258 make of a path and a query. *)
Definition url_of `{PyRuntime} (base_url path : string) (query : pydict) : string :=
  match query with
  | [] => rstrip_slash base_url ++ path
  | _ => (rstrip_slash base_url ++ path) ++ "?" ++ urlencode query
  end.

(** A query parameter of the given name. *)
Definition query_param_named (params : list ParamInfo) (name : string) : Prop :=
  exists p, In p params /\ p_name p = name /\ p_in p = "query".

(** The parameters that phases 3 and 4 audit under an inclusion filter. *)
Definition audited_params (e : Endpoint) (include_params : option (list string))
  : list (string * bool) :=
  filter (fun nr => negb (filtered_out (fst nr) include_params)) (auditable_params e).

(** The path parameters of an endpoint, each with every fuzz value. *)
Definition fuzz_cases (e : Endpoint) : list (string * string) :=
  flat_map (fun p => map (fun val => (p_name p, val)) fuzz_values)
           (filter (fun p => p_in p =? "path") (e_params e)).

(** The verdict of lines 542-544 on a status. *)
Definition fuzz_verdict (status : option Z) : string :=
  if status_in status [200%Z] then "WARN (200 OK?)"
  else if status_in status [404; 400; 422]%Z then "PASS"
  else "FAIL".

(** The name [requests] gives to a verb. *)
Definition verb_name (v : Verb) : string :=
  match v with
  | GET => "GET" | POST => "POST" | PUT => "PUT"
  | DELETE => "DELETE" | PATCH => "PATCH"
  end.

(** The verbs whose call carries a JSON body (lines 318-325). *)
Definition carries_body (v : Verb) : bool :=
  match v with
  | POST | PUT | PATCH => true
  | GET | DELETE => false
  end.

(** Lines 1811-1819 of [main]: the first endpoint of every
    [method:path] key. *)
Definition endpoint_key (e : Endpoint) : string := e_method e ++ ":" ++ e_path e.

Fixpoint unique_from (seen : list string) (all_endpoints : list Endpoint)
  : list Endpoint :=
  match all_endpoints with
  | [] => []
  | ep :: rest =>
      let key := endpoint_key ep in
      if mem key seen then unique_from seen rest
      else ep :: unique_from (key :: seen) rest
  end.

Definition unique_endpoints (all_endpoints : list Endpoint) : list Endpoint :=
  unique_from [] all_endpoints.

(** The services that discovery visits (lines 1532-1538): those of the
    configuration, or the single base URL under the name Default. *)
Definition configured_services (config : Config) : list pyval :=
  match services config with
  | [] => if nonempty (swagger_base_url config)
          then [default_service (or_default EmptyString (swagger_base_url config))]
          else []
  | svcs => svcs
  end.

(** The timeout of the discovery requests (line 1541). *)
Definition discovery_timeout (config : Config) : Z :=
  or_default 10%Z (timeout_seconds config).

(** The entry has an address: line 1546 skips the others. *)
Definition has_address (svc : pyval) : bool :=
  match service_entry svc with
  | Ok (_, svc_url) => negb (svc_url =? EmptyString)
  | Raise _ => false
  end.

(** What discovery adds to the endpoints of one service. *)
Definition of_service (svc_name : pyval) (svc_url : string) (e : Endpoint) : Prop :=
  e_service_name e = Some svc_name /\ e_base_url e = Some svc_url
  /\ In (e_method e) ["GET"; "POST"; "PUT"; "DELETE"; "PATCH"].

(** The parameters with a non-empty enum, which phase 8 probes. *)
Definition enum_params (e : Endpoint) : list ParamInfo :=
  filter (fun p => match p_enum p with Some (_ :: _) => true | _ => false end)
         (e_params e).

(** Lines 1650-1651: the endpoint takes its credentials as parameters. *)
Definition takes_credentials (e : Endpoint) : bool :=
  mem "username" (map p_name (e_params e)) || mem "password" (map p_name (e_params e)).

(** Whether lines 242-254 put a query parameter into the query string:
    with overrides, when its override is not None or, having none, when
    it is required; without overrides, when it has an example or a
    default. *)
Definition sends (overrides : option pydict) (p : ParamInfo) : bool :=
  match overrides with
  | Some d =>
      match dict_get (p_name p) d with
      | Some v => not_none v
      | None => p_required p
      end
  | None => not_none (p_example p) || not_none (p_default p)
  end.

(** The exception is a TypeError, whatever its text. *)
Definition is_TypeError (x : PyExn) : bool :=
  match x with
  | TypeError _ => true
  | _ => false
  end.

(** The combination gives a path parameter no value, or a list. *)
Definition unusable_in_path (e : Endpoint) (c : Combination) : Prop :=
  exists p, In p (e_params e) /\ p_in p = "path"
            /\ (dict_get (p_name p) c = Some Absent
                \/ exists l, dict_get (p_name p) c = Some (Multi l)).

(** Every path parameter has a text value in the combination, or none
    recorded at all. *)
Definition path_values_are_text (e : Endpoint) (c : Combination) : bool :=
  forallb (fun p => negb (p_in p =? "path")
                    || match dict_get (p_name p) c with
                       | Some Absent => false
                       | Some (Multi _) => false
                       | _ => true
                       end)
          (e_params e).

(** A value at any depth of a JSON document: the document itself, an
    item of a list, a value of a dict (keys are not values). *)
Inductive occurs_in : pyval -> pyval -> Prop :=
| occurs_here (v : pyval) : occurs_in v v
| occurs_item (sub x : pyval) (l : list pyval) :
    In x l -> occurs_in sub x -> occurs_in sub (PList l)
| occurs_value (sub : pyval) (k : string) (x : pyval) (d : list (string * pyval)) :
    In (k, x) d -> occurs_in sub x -> occurs_in sub (PDict d).

(** The sent values that the echo check looks at (line 803). *)
Definition checked_by_echo `{PyRuntime} (kv : string * pyval) : bool :=
  not_none (snd kv) && (1 <? String.length (pystr (snd kv)))%nat.

(** What lines 786-789 collect as sent. *)
Definition sent_data (overrides : option pydict) (json_body_ : pydict) : pydict :=
  dict_update (copy_or_empty overrides) json_body_.

(* ================================================================== *)
(** * The listing handler: [get_endpoints] of [app.py] *)
(* ================================================================== *)



Section ListingHandler.
Context `{PyRuntime} `{Network} `{ContractReader}.


End ListingHandler.

(* ================================================================== *)
(** * Vocabulary of the conditions under which a probe returns *)
(* ================================================================== *)

(** The codec can process the body of a response: [resp.json()] returns
    or raises JSONDecodeError, and [json.dumps] can write what it
    returned. *)
Definition body_readable `{PyRuntime} (resp : Response) : bool :=
  match r_json resp with
  | JsonTooDeep _ => false
  | JsonValue j =>
      match dumps_overflow j with
      | Some _ => false
      | None => true
      end
  | JsonInvalid => true
  end.



Definition is_AttributeError (x : PyExn) : bool :=
  match x with AttributeError _ => true | _ => false end.

(** A peer none of whose answers has a body the codec cannot process. *)
Definition readable_peer `{PyRuntime} `{Network} : Prop :=
  forall tr rq resp, http_exchange tr rq = inr resp -> body_readable resp = true.

(** A peer that answers every request, with a body the codec can
    process. *)
Definition answering_peer `{PyRuntime} `{Network} : Prop :=
  forall tr rq, exists resp,
    http_exchange tr rq = inr resp /\ body_readable resp = true.

(** A service entry the discovery loop can read: a dict whose [url], when
    present, is text. *)
Definition describes_service (svc : pyval) : bool :=
  match svc with
  | PDict d =>
      match dict_get "url" d with
      | Some (PStr _) => true
      | Some _ => false
      | None => true
      end
  | _ => false
  end.

(** The configuration has the key [timeout_seconds], with a positive
    number. *)
Definition positive_timeout (config : Config) : Prop :=
  exists t, timeout_seconds config = Some t /\ (0 < t)%Z.

(* ================================================================== *)
(** * Properties of the HTTP probe *)
(* ================================================================== *)

Section ProbeProperties.
Context `{PyRuntime} `{Network}.

Lemma call_endpoint_refused u m hd jb t tr :
  (t <= 0)%Z ->
  call_endpoint u m hd jb t tr = (Raise (timeout_refused t), tr).
Proof.
  intros L. unfold call_endpoint, try_except, bind, requests_call.
  assert (Q : q_timeout (dispatch u m hd jb t) = t).
  { unfold dispatch. repeat match goal with
                            | |- context [if ?c then _ else _] => destruct c
                            end; reflexivity. }
  rewrite Q. apply Z.leb_le in L. rewrite L. reflexivity.
Qed.

Lemma requests_call_sent rq tr :
  (0 < q_timeout rq)%Z ->
  requests_call rq tr
  = match http_exchange tr rq with
    | inl e => (Raise (RequestsExn e), (tr ++ [EvHttp rq])%list)
    | inr r => (Ok r, (tr ++ [EvHttp rq])%list)
    end.
Proof.
  intros L. unfold requests_call.
  destruct (q_timeout rq <=? 0)%Z eqn:E; [apply Z.leb_le in E; lia | reflexivity].
Qed.

Lemma dispatch_timeout u m hd jb t : q_timeout (dispatch u m hd jb t) = t.
Proof.
  unfold dispatch. repeat match goal with
                          | |- context [if ?c then _ else _] => destruct c
                          end; reflexivity.
Qed.

Lemma call_endpoint_on_response u m hd jb t tr resp :
  (0 < t)%Z ->
  http_exchange tr (dispatch u m hd jb t) = inr resp ->
  body_readable resp = true ->
  call_endpoint u m hd jb t tr
  = (Ok (fill_result u m resp), (tr ++ [EvHttp (dispatch u m hd jb t)])%list).
Proof.
  intros L E B. unfold call_endpoint, try_except, bind.
  rewrite requests_call_sent by (rewrite dispatch_timeout; exact L).
  rewrite E. unfold body_readable in B.
  destruct (r_json resp) as [j| |w]; [|reflexivity|discriminate].
  destruct (dumps_overflow j); [discriminate | reflexivity].
Qed.

Lemma call_endpoint_on_overflow u m hd jb t tr resp :
  (0 < t)%Z ->
  http_exchange tr (dispatch u m hd jb t) = inr resp ->
  body_readable resp = false ->
  exists what,
    call_endpoint u m hd jb t tr
    = (Raise (RecursionError what), (tr ++ [EvHttp (dispatch u m hd jb t)])%list).
Proof.
  intros L E B. unfold call_endpoint, try_except, bind.
  rewrite requests_call_sent by (rewrite dispatch_timeout; exact L).
  rewrite E. unfold body_readable in B.
  destruct (r_json resp) as [j| |w]; [|discriminate|eexists; reflexivity].
  destruct (dumps_overflow j); [eexists; reflexivity | discriminate].
Qed.

Lemma call_endpoint_on_failure u m hd jb t tr e :
  (0 < t)%Z ->
  http_exchange tr (dispatch u m hd jb t) = inl e ->
  call_endpoint u m hd jb t tr
  = (Ok (with_error (initial_result u m) (transport_error t e)),
     (tr ++ [EvHttp (dispatch u m hd jb t)])%list).
Proof.
  intros L E. unfold call_endpoint, try_except, bind.
  rewrite requests_call_sent by (rewrite dispatch_timeout; exact L).
  rewrite E. cbn. unfold transport_error.
  destruct (is_ConnectionError e); [reflexivity|].
  destruct (is_Timeout e); reflexivity.
Qed.

Lemma fill_result_status u m resp :
  status_code (fill_result u m resp) = Some (r_status_code resp)
  /\ error (fill_result u m resp) = None.
Proof. unfold fill_result. destruct (r_json resp); split; reflexivity. Qed.

(** The four ways a probe can end. *)
Lemma call_endpoint_cases u m hd jb t tr :
  let rq := dispatch u m hd jb t in
  ((t <= 0)%Z /\ call_endpoint u m hd jb t tr = (Raise (timeout_refused t), tr))
  \/ ((0 < t)%Z
      /\ exists e,
           http_exchange tr rq = inl e
           /\ call_endpoint u m hd jb t tr
              = (Ok (with_error (initial_result u m) (transport_error t e)),
                 (tr ++ [EvHttp rq])%list))
  \/ ((0 < t)%Z
      /\ exists resp,
           http_exchange tr rq = inr resp /\ body_readable resp = true
           /\ call_endpoint u m hd jb t tr
              = (Ok (fill_result u m resp), (tr ++ [EvHttp rq])%list))
  \/ ((0 < t)%Z
      /\ exists resp what,
           http_exchange tr rq = inr resp /\ body_readable resp = false
           /\ call_endpoint u m hd jb t tr
              = (Raise (RecursionError what), (tr ++ [EvHttp rq])%list)).
Proof.
  intros rq. destruct (Z_le_gt_dec t 0) as [L | G].
  - left. split; [exact L | now apply call_endpoint_refused].
  - assert (P : (0 < t)%Z) by lia. right.
    destruct (http_exchange tr rq) as [e | resp] eqn:E.
    + left. split; [exact P|]. exists e. split; [reflexivity|].
      now apply call_endpoint_on_failure.
    + right. destruct (body_readable resp) eqn:B.
      * left. split; [exact P|]. exists resp. split; [reflexivity|].
        split; [exact B|]. now apply call_endpoint_on_response.
      * right. split; [exact P|].
        destruct (call_endpoint_on_overflow u m hd jb t tr resp P E B) as [w R].
        exists resp, w. auto.
Qed.

(** A probe that returns has made exactly one exchange, with a positive
    timeout, and its result has a status or an error, not both. *)
Lemma call_endpoint_returned u m hd jb t tr r tr1 :
  call_endpoint u m hd jb t tr = (Ok r, tr1) ->
  (0 < t)%Z
  /\ tr1 = (tr ++ [EvHttp (dispatch u m hd jb t)])%list
  /\ ((exists e, http_exchange tr (dispatch u m hd jb t) = inl e
                 /\ r = with_error (initial_result u m) (transport_error t e))
      \/ (exists resp, http_exchange tr (dispatch u m hd jb t) = inr resp
                       /\ body_readable resp = true
                       /\ r = fill_result u m resp)).
Proof.
  intros R.
  destruct (call_endpoint_cases u m hd jb t tr)
    as [[_ E] | [[P (e & X & E)] | [[P (resp & X & B & E)] | [_ (resp & w & _ & _ & E)]]]];
    rewrite E in R; try discriminate R; injection R as <- <-.
  - split; [exact P|]. split; [reflexivity|]. left. eauto.
  - split; [exact P|]. split; [reflexivity|]. right. eauto.
Qed.


Lemma call_endpoint_one_exchange u m hd jb t tr :
  (0 < t)%Z ->
  (forall resp, http_exchange tr (dispatch u m hd jb t) = inr resp ->
                body_readable resp = true) ->
  exists r,
    call_endpoint u m hd jb t tr
    = (Ok r, (tr ++ [EvHttp (dispatch u m hd jb t)])%list).
Proof.
  intros P B.
  destruct (http_exchange tr (dispatch u m hd jb t)) as [e | resp] eqn:E.
  - exists (with_error (initial_result u m) (transport_error t e)).
    apply call_endpoint_on_failure; assumption.
  - exists (fill_result u m resp).
    apply call_endpoint_on_response; [assumption | assumption | now apply B].
Qed.

Lemma probe_with_timeout config t u m hd jb tr :
  timeout_seconds config = Some t ->
  probe config u m hd jb tr = call_endpoint u m hd jb t tr.
Proof. intros T. unfold probe, config_item. rewrite T. reflexivity. Qed.

Lemma probe_without_timeout config u m hd jb tr :
  timeout_seconds config = None ->
  probe config u m hd jb tr = (Raise (KeyError "timeout_seconds"), tr).
Proof. intros T. unfold probe, config_item. rewrite T. reflexivity. Qed.

(** A probe made through the configuration that returns. *)
Lemma probe_returned config u m hd jb tr r tr1 :
  probe config u m hd jb tr = (Ok r, tr1) ->
  exists t,
    timeout_seconds config = Some t /\ (0 < t)%Z
    /\ call_endpoint u m hd jb t tr = (Ok r, tr1)
    /\ tr1 = (tr ++ [EvHttp (dispatch u m hd jb t)])%list.
Proof.
  destruct (timeout_seconds config) as [t|] eqn:T.
  - rewrite (probe_with_timeout config t) by exact T. intros R.
    destruct (call_endpoint_returned _ _ _ _ _ _ _ _ R) as (P & E & _).
    exists t. auto.
  - rewrite probe_without_timeout by exact T. discriminate.
Qed.





End ProbeProperties.

(* ================================================================== *)
(** * Properties of the contract parser *)
(* ================================================================== *)

Lemma lookup_default_type_defaults t :
  lookup_default type_defaults t = spec_type_fallback t.
Proof.
  unfold lookup_default, type_defaults, spec_type_fallback, dict_get, or_default.
  rewrite !(String.eqb_sym _ t).
  destruct (t =? "string"); [reflexivity|].
  destruct (t =? "integer"); [reflexivity|].
  destruct (t =? "number"); [reflexivity|].
  destruct (t =? "boolean"); [reflexivity|].
  destruct (t =? "array"); reflexivity.
Qed.

Lemma parse_param_example p : p_example (parse_param p) = spec_example p.
Proof.
  unfold parse_param, spec_example; cbn.
  destruct (rp_example p); [reflexivity|].
  destruct (sc_example _); [reflexivity|].
  destruct (not_none _); [reflexivity|].
  destruct (first_enum _); [reflexivity|].
  now rewrite lookup_default_type_defaults.
Qed.

Lemma name_taken_app n ps qs :
  name_taken n (ps ++ qs) = name_taken n ps || name_taken n qs.
Proof. unfold name_taken. apply existsb_app. Qed.

Lemma name_taken_In n ps : name_taken n ps = true <-> In n (map p_name ps).
Proof.
  unfold name_taken. rewrite existsb_exists, in_map_iff. split.
  - intros [q [Hq E]]. apply String.eqb_eq in E. eauto.
  - intros [q [E Hq]]. exists q. split; [assumption|]. now apply String.eqb_eq.
Qed.

Lemma flatten_props_shape required_fields props :
  forall params,
  exists body,
    flatten_props required_fields props params = (params ++ body)%list
    /\ Forall (from_property required_fields props) body
    /\ (forall n, In n (map p_name body)
                  <-> In n (map fst props) /\ name_taken n params = false)
    /\ NoDup (map p_name body).
Proof.
  induction props as [| [n d] rest IH]; intros params.
  - exists []. cbn. rewrite app_nil_r.
    repeat split; try constructor; try tauto.
  - cbn [flatten_props]. destruct (name_taken n params) eqn:T.
    + destruct (IH params) as (body & E & F & N & D).
      exists body. split; [exact E|]. split; [|split; [|exact D]].
      * eapply Forall_impl; [|exact F].
        intros q (Hin & d' & Hd & Hq). split; [exact Hin|].
        exists d'. split; [right; exact Hd | exact Hq].
      * intros x. rewrite N. cbn [map fst In]. split.
        -- intros [Hx Tx]. tauto.
        -- intros [[<- | Hx] Tx]; [congruence | tauto].
    + set (q := parse_body_prop required_fields n d).
      destruct (IH (params ++ [q])%list) as (body & E & F & N & D).
      exists (q :: body). split; [rewrite E, <- app_assoc; reflexivity|].
      assert (Tq : forall x, name_taken x (params ++ [q])
                             = name_taken x params || (n =? x)).
      { intros x. rewrite name_taken_app. unfold name_taken at 2. cbn.
        now rewrite orb_false_r. }
      split; [|split].
      * constructor.
        -- split; [reflexivity|]. exists d. split; [left; reflexivity|reflexivity].
        -- eapply Forall_impl; [|exact F].
           intros q' (Hin & d' & Hd & Hq). split; [exact Hin|].
           exists d'. split; [right; exact Hd | exact Hq].
      * intros x. cbn [map fst In p_name q parse_body_prop]. rewrite N, Tq.
        rewrite orb_false_iff, String.eqb_neq. split.
        -- intros [<- | (Hx & Tx & _)]; tauto.
        -- intros [[<- | Hx] Tx]; [tauto|].
           destruct (string_dec n x); [tauto | right; tauto].
      * cbn [map]. constructor; [|exact D].
        change (p_name q) with n. rewrite N, Tq, String.eqb_refl, orb_true_r.
        intros [_ ?]; discriminate.
Qed.

(** The placeholder of a body parameter: the example of its property,
    else its default (the first that is truthy), else the fallback of its
    type; the enum of the property plays no part. *)
Lemma parse_body_prop_example required_fields name d :
  p_example (parse_body_prop required_fields name d)
  = if truthy (bp_example d) then bp_example d
    else if truthy (bp_default d) then bp_default d
    else PStr (spec_type_fallback (or_default "string" (bp_type d))).
Proof.
  unfold parse_body_prop, py_or; cbn.
  destruct (truthy (bp_example d)) eqn:E1; [now rewrite E1|].
  destruct (truthy (bp_default d)) eqn:E2; [reflexivity|].
  f_equal. generalize (or_default "string" (bp_type d)) as t. intros t.
  unfold lookup_default, body_type_defaults, spec_type_fallback, dict_get, or_default.
  rewrite !(String.eqb_sym _ t).
  destruct (t =? "string"); [reflexivity|].
  destruct (t =? "integer"); [reflexivity|].
  destruct (t =? "number"); [reflexivity|].
  destruct (t =? "boolean"); [reflexivity|].
  destruct (t =? "array"); reflexivity.
Qed.

(** C6 (amended). Every parameter of the [parameters] list of an
    operation gets its example in the order declared example, schema-level
    example, default, first enum value, type-keyed fallback.  The
    properties of an application/json request body follow the declared
    parameters in the same sequence with location [body], each name once
    and none that is already taken. *)
Theorem parse_params_examples_and_flattening :
  forall op,
    let declared := or_default [] (op_parameters op) in
    exists body,
      parse_params op = (map parse_param declared ++ body)%list
      /\ (forall p, In p declared -> p_example (parse_param p) = spec_example p)
      /\ Forall (from_property (body_required op) (body_properties op)) body
      /\ (forall n, In n (map p_name body)
                    <-> In n (map fst (body_properties op))
                        /\ ~ In n (map p_name (map parse_param declared)))
      /\ NoDup (map p_name body).
Proof.
  intros op declared.
  assert (Empty : forall props : list (string * RawProp),
             props = [] ->
             exists body : list ParamInfo,
               map parse_param declared = (map parse_param declared ++ body)%list
               /\ (forall p, In p declared ->
                             p_example (parse_param p) = spec_example p)
               /\ Forall (from_property (body_required op) props) body
               /\ (forall n, In n (map p_name body)
                             <-> In n (map fst props)
                                 /\ ~ In n (map p_name (map parse_param declared)))
               /\ NoDup (map p_name body)).
  { intros props ->. exists []. rewrite app_nil_r.
    split; [reflexivity|]. split; [intros; apply parse_param_example|].
    split; [constructor|]. split; [cbn; tauto | constructor]. }
  unfold parse_params, body_required, body_properties. fold declared.
  destruct (json_body_schema op) as [schema|] eqn:J.
  - unfold properties_of. destruct (bs_properties schema) as [[|kv more]|].
    + specialize (Empty [] eq_refl). unfold body_required in Empty.
      rewrite J in Empty. exact Empty.
    + destruct (flatten_props_shape (required_of schema) (kv :: more)
                                    (map parse_param declared))
        as (body & E & F & N & D).
      exists body. split; [exact E|].
      split; [intros; apply parse_param_example|].
      split; [exact F|]. split; [|exact D].
      intros n. rewrite N, <- name_taken_In.
      destruct (name_taken n (map parse_param declared)); intuition congruence.
    + specialize (Empty [] eq_refl). unfold body_required in Empty.
      rewrite J in Empty. exact Empty.
  - specialize (Empty [] eq_refl). unfold body_required in Empty.
    rewrite J in Empty. exact Empty.
Qed.

(* ================================================================== *)
(** * Properties of the request builder *)
(* ================================================================== *)

Section BuilderProperties.
Context `{PyRuntime}.

Lemma same_names_opt_mem s1 s2 n :
  same_names s1 s2 -> opt_mem n s1 = opt_mem n s2.
Proof. destruct s1, s2; cbn; intros E; try tauto; apply E. Qed.

Lemma same_names_filtered_out s1 s2 n :
  same_names s1 s2 -> filtered_out n s1 = filtered_out n s2.
Proof. destruct s1, s2; cbn; intros E; try tauto. now rewrite E. Qed.

Lemma same_mapping_truthy_lookup o1 o2 n :
  same_mapping o1 o2 -> truthy_lookup n o1 = truthy_lookup n o2.
Proof. destruct o1, o2; cbn; intros E; try tauto; apply E. Qed.

Lemma build_step_equal o1 o2 s1 s2 m1 m2 i1 i2 st p :
  same_mapping o1 o2 -> same_names s1 s2 -> same_names m1 m2 ->
  same_names i1 i2 ->
  build_step o1 s1 m1 i1 st p = build_step o2 s2 m2 i2 st p.
Proof.
  intros Ho Hs Hm Hi. unfold build_step. destruct st as [path query].
  rewrite (same_names_opt_mem _ _ _ Hs), (same_names_filtered_out _ _ _ Hi),
          (same_mapping_truthy_lookup _ _ _ Ho), (same_names_opt_mem _ _ _ Hm).
  destruct o1 as [d1|], o2 as [d2|]; cbn in Ho; try tauto.
  now rewrite (Ho (p_name p)).
Qed.

Lemma build_params_equal o1 o2 s1 s2 m1 m2 i1 i2 params :
  same_mapping o1 o2 -> same_names s1 s2 -> same_names m1 m2 ->
  same_names i1 i2 ->
  forall st, build_params o1 s1 m1 i1 params st = build_params o2 s2 m2 i2 params st.
Proof.
  intros Ho Hs Hm Hi. induction params as [|p rest IH]; intros st; cbn.
  - reflexivity.
  - rewrite (build_step_equal o1 o2 s1 s2 m1 m2 i1 i2 st p Ho Hs Hm Hi).
    destruct (build_step o2 s2 m2 i2 st p); [apply IH | reflexivity].
Qed.

Lemma body_step_equal o1 o2 i1 i2 req body np :
  same_mapping o1 o2 -> same_names i1 i2 ->
  body_step o1 i1 req body np = body_step o2 i2 req body np.
Proof.
  intros Ho Hi. unfold body_step. destruct np as [name prop].
  rewrite (same_names_filtered_out _ _ _ Hi).
  destruct o1 as [d1|], o2 as [d2|]; cbn in Ho; try tauto.
  now rewrite (Ho name).
Qed.

Lemma build_body_equal e o1 o2 i1 i2 :
  same_mapping o1 o2 -> same_names i1 i2 ->
  build_body e o1 i1 = build_body e o2 i2.
Proof.
  intros Ho Hi. unfold build_body.
  destruct (e_request_body_schema e) as [schema|]; [|reflexivity].
  destruct (schema_truthy schema); [|reflexivity].
  generalize (@nil (string * pyval)).
  induction (properties_of schema) as [|np rest IH]; intros acc; cbn.
  - reflexivity.
  - rewrite (body_step_equal o1 o2 i1 i2 _ acc np Ho Hi). apply IH.
Qed.

(** C5. The request builder is a function of the values of its inputs:
    two calls with the same base URL and endpoint, override mappings that
    are equal as mappings, and skip, empty and inclusion collections with
    the same members produce the same URL and the same JSON body (or the
    same error). *)
Theorem build_test_url_deterministic :
  forall base e o1 o2 s1 s2 m1 m2 i1 i2,
    same_mapping o1 o2 -> same_names s1 s2 -> same_names m1 m2 ->
    same_names i1 i2 ->
    build_test_url base e o1 s1 m1 i1 = build_test_url base e o2 s2 m2 i2.
Proof.
  intros base e o1 o2 s1 s2 m1 m2 i1 i2 Ho Hs Hm Hi. unfold build_test_url.
  rewrite (build_params_equal o1 o2 s1 s2 m1 m2 i1 i2 _ Ho Hs Hm Hi).
  now rewrite (build_body_equal e o1 o2 i1 i2 Ho Hi).
Qed.

End BuilderProperties.

(* ================================================================== *)
(** * Properties of the value pools *)
(* ================================================================== *)

Lemma pv_eqb_eq a b : pv_eqb a b = true <-> a = b.
Proof. unfold pv_eqb. destruct (PoolValue_eq_dec a b); split; congruence. Qed.

Lemma pv_eqb_neq a b : pv_eqb a b = false <-> a <> b.
Proof. unfold pv_eqb. destruct (PoolValue_eq_dec a b); split; congruence. Qed.

Lemma seen_In c seen : existsb (pv_eqb c) seen = true <-> In c seen.
Proof.
  rewrite existsb_exists. split.
  - intros [x [Hx E]]. apply pv_eqb_eq in E. now subst.
  - intros Hc. exists c. split; [assumption | now apply pv_eqb_eq].
Qed.

Lemma seen_not_In c seen : existsb (pv_eqb c) seen = false <-> ~ In c seen.
Proof.
  rewrite <- seen_In. destruct (existsb (pv_eqb c) seen); split; congruence.
Qed.

Lemma subseq_refl {A} (l : list A) : subseq l l.
Proof. induction l; constructor; assumption. Qed.

Lemma subseq_app_l {A} (pre l s : list A) : subseq l s -> subseq (pre ++ l) (pre ++ s).
Proof. intros S. induction pre; cbn; [assumption | now constructor]. Qed.

Lemma subseq_length {A} (l s : list A) : subseq l s -> List.length l <= List.length s.
Proof. induction 1; cbn; lia. Qed.

Lemma subseq_In {A} (l s : list A) x : subseq l s -> In x l -> In x s.
Proof. induction 1; cbn; intuition. Qed.

Lemma subseq_trans {A} (a b c : list A) : subseq a b -> subseq b c -> subseq a c.
Proof.
  intros Hab Hbc. revert a Hab.
  induction Hbc as [s | x l s Hls IH | x l s Hls IH]; intros a Hab.
  - inversion Hab; subst. constructor.
  - inversion Hab; subst; [constructor | constructor; auto | apply subseq_skip; auto].
  - apply subseq_skip; auto.
Qed.

(** The loop that removes duplicates keeps [seen] in front, keeps the
    order of what it adds, and adds each new value once. *)
Lemma dedup_into_spec candidates :
  forall seen,
  exists added,
    dedup_into seen candidates = (seen ++ added)%list
    /\ subseq added candidates
    /\ (forall x, In x added <-> In x candidates /\ ~ In x seen)
    /\ NoDup added.
Proof.
  induction candidates as [|c rest IH]; intros seen; cbn [dedup_into].
  - exists []. rewrite app_nil_r. repeat split; try constructor; cbn; tauto.
  - destruct (existsb (pv_eqb c) seen) eqn:E.
    + apply seen_In in E. destruct (IH seen) as (added & Eq & S & M & D).
      exists added. split; [exact Eq|]. split; [now apply subseq_skip|].
      split; [|exact D].
      intros x. rewrite M. cbn. split; [tauto|].
      intros [[<- | Hx] Nx]; tauto.
    + apply seen_not_In in E. destruct (IH (seen ++ [c])%list) as (added & Eq & S & M & D).
      exists (c :: added). split; [rewrite Eq, <- app_assoc; reflexivity|].
      split; [now constructor|]. split.
      * intros x. cbn. rewrite M, in_app_iff. cbn. split.
        -- intros [<- | (Hx & Nx)]; tauto.
        -- intros [[<- | Hx] Nx]; [tauto|].
           destruct (PoolValue_eq_dec c x); [tauto | right; tauto].
      * constructor; [|exact D]. rewrite M, in_app_iff. cbn. tauto.
Qed.

Lemma dedup_spec candidates :
  subseq (dedup candidates) candidates
  /\ (forall x, In x (dedup candidates) <-> In x candidates)
  /\ NoDup (dedup candidates).
Proof.
  unfold dedup. destruct (dedup_into_spec candidates []) as (added & Eq & S & M & D).
  cbn in Eq. rewrite Eq. split; [exact S|]. split; [|exact D].
  intros x. rewrite M. cbn. tauto.
Qed.

Lemma dedup_head c rest : exists more, dedup (c :: rest) = c :: more.
Proof.
  unfold dedup. cbn. destruct (dedup_into_spec rest [c]) as (added & Eq & _).
  exists added. exact Eq.
Qed.

Lemma dedup_nil_inv candidates : dedup candidates = [] -> candidates = [].
Proof.
  destruct candidates as [|c rest]; [reflexivity|].
  destruct (dedup_head c rest) as [more E]. rewrite E. discriminate.
Qed.

(** ** Subsets *)

Lemma combinations_nil_r {A} (l : list A) : combinations l 0 = [[]].
Proof. destruct l; reflexivity. Qed.

Lemma combinations_In {A} (s : list A) :
  forall k l, In l (combinations s k) <-> subseq l s /\ List.length l = k.
Proof.
  induction s as [|x t IH]; intros k l.
  - destruct k; cbn.
    + split.
      * intros [<- | []]. split; [constructor | reflexivity].
      * intros [_ L]. destruct l; [now left | discriminate].
    + split; [intros [] |]. intros [S L]. inversion S; subst. discriminate.
  - destruct k.
    + cbn. split.
      * intros [<- | []]. split; [constructor | reflexivity].
      * intros [_ L]. destruct l; [now left | discriminate].
    + cbn [combinations]. rewrite in_app_iff, in_map_iff. split.
      * intros [[l' [<- Hl']] | Hl].
        -- apply IH in Hl' as [S L]. split; [now constructor | cbn; lia].
        -- apply IH in Hl as [S L]. split; [now apply subseq_skip | exact L].
      * intros [S L]. inversion S; subst.
        -- discriminate.
        -- left. exists l0. split; [reflexivity|]. apply IH. cbn in L. split; [assumption | lia].
        -- right. apply IH. split; assumption.
Qed.

Lemma power_candidates_In (s : list string) v :
  In v (power_candidates s) <-> exists l, v = Multi l /\ l <> [] /\ subseq l s.
Proof.
  unfold power_candidates. rewrite in_flat_map. split.
  - intros [i [Hi Hv]]. apply in_seq in Hi. apply in_map_iff in Hv as [l [<- Hl]].
    apply combinations_In in Hl as [S L]. exists l. split; [reflexivity|].
    split; [|exact S]. intros ->. cbn in L. lia.
  - intros [l [-> [N S]]]. exists (List.length l). split.
    + apply in_seq. pose proof (subseq_length _ _ S). destruct l; [congruence | cbn in *; lia].
    + apply in_map. apply combinations_In. split; [exact S | reflexivity].
Qed.

Lemma StronglySorted_app {A} (R : A -> A -> Prop) (l1 l2 : list A) :
  StronglySorted R l1 -> StronglySorted R l2 ->
  (forall a b, In a l1 -> In b l2 -> R a b) ->
  StronglySorted R (l1 ++ l2).
Proof.
  intros S1 S2 Hab. induction S1 as [|a l S1 IH Fa]; cbn; [assumption|].
  constructor.
  - apply IH. intros; apply Hab; cbn; auto.
  - apply Forall_app. split; [assumption|].
    apply Forall_forall. intros b Hb. apply Hab; cbn; auto.
Qed.

Lemma StronglySorted_subseq {A} (R : A -> A -> Prop) (l s : list A) :
  subseq l s -> StronglySorted R s -> StronglySorted R l.
Proof.
  induction 1 as [s | x l s Hls IH | x l s Hls IH]; intros Hs.
  - constructor.
  - inversion Hs; subst. constructor; [auto|].
    apply Forall_forall. intros y Hy.
    rewrite Forall_forall in H2. apply H2. eapply subseq_In; eauto.
  - inversion Hs; subst. auto.
Qed.

Lemma chunks_sorted (s : list string) :
  forall n a,
    StronglySorted size_le
      (flat_map (fun i => map Multi (combinations s i)) (seq a n)).
Proof.
  induction n as [|n IH]; intros a; cbn; [constructor|].
  apply StronglySorted_app.
  - assert (F : Forall (fun v => pv_size v = a) (map Multi (combinations s a))).
    { apply Forall_forall. intros v Hv. apply in_map_iff in Hv as [l [<- Hl]].
      apply combinations_In in Hl as [_ L]. exact L. }
    induction F as [|v vs Hv F IHF]; constructor; [assumption|].
    apply Forall_forall. intros w Hw. rewrite Forall_forall in F.
    unfold size_le. rewrite Hv, (F w Hw). lia.
  - apply IH.
  - intros v w Hv Hw. apply in_map_iff in Hv as [l [<- Hl]].
    apply combinations_In in Hl as [_ L].
    apply in_flat_map in Hw as [i [Hi Hw]]. apply in_seq in Hi.
    apply in_map_iff in Hw as [l' [<- Hl']].
    apply combinations_In in Hl' as [_ L']. unfold size_le. cbn. lia.
Qed.

Lemma power_candidates_sorted (s : list string) :
  StronglySorted size_le (power_candidates s).
Proof. apply chunks_sorted. Qed.

(** ** Input order *)

Lemma combinations_map {A B} (f : A -> B) (l : list A) :
  forall k, combinations (map f l) k = map (map f) (combinations l k).
Proof.
  induction l as [|x t IH]; intros k; destruct k; cbn; try reflexivity.
  rewrite map_app, !map_map, !IH, map_map. reflexivity.
Qed.

Lemma pick_all (s : list string) : pick s (seq 0 (List.length s)) = s.
Proof.
  unfold pick. induction s as [|x t IH]; cbn; [reflexivity|].
  f_equal. rewrite <- seq_shift, map_map. exact IH.
Qed.

Lemma StronglySorted_map_cons (a : nat) (ls : list (list nat)) :
  StronglySorted lex_lt ls -> StronglySorted lex_lt (map (cons a) ls).
Proof.
  induction 1 as [|l ls S IH F]; cbn; constructor; [assumption|].
  apply Forall_forall. intros x Hx. apply in_map_iff in Hx as [y [<- Hy]].
  rewrite Forall_forall in F. cbn. right. split; [reflexivity | auto].
Qed.

Lemma positions_sorted :
  forall n a k, StronglySorted lex_lt (combinations (seq a n) k).
Proof.
  induction n as [|n IH]; intros a k.
  - destruct k; cbn; repeat constructor.
  - destruct k; [cbn; repeat constructor|].
    cbn [seq combinations]. apply StronglySorted_app.
    + apply StronglySorted_map_cons, IH.
    + apply IH.
    + intros x y Hx Hy. apply in_map_iff in Hx as [x' [<- _]].
      apply combinations_In in Hy as [Sub L].
      destruct y as [|i y']; [discriminate|].
      assert (Hi : In i (seq (S a) n)) by (eapply subseq_In; [exact Sub | now left]).
      apply in_seq in Hi. cbn. left. lia.
Qed.

Lemma position_subsets_sorted :
  forall m n a,
    StronglySorted size_then_position
      (flat_map (fun i => combinations (seq 0 m) i) (seq a n)).
Proof.
  intros m. induction n as [|n IH]; intros a; cbn; [constructor|].
  apply StronglySorted_app.
  - pose proof (positions_sorted m 0 a) as S.
    assert (F : Forall (fun l => List.length l = a) (combinations (seq 0 m) a)).
    { apply Forall_forall. intros l Hl. now apply combinations_In in Hl. }
    induction S as [|l ls S IHS Fl]; constructor.
    + apply IHS. now inversion F.
    + inversion F; subst. apply Forall_forall. intros y Hy.
      rewrite Forall_forall in Fl, H2. right. split; [|auto].
      now rewrite (H2 y Hy).
  - apply IH.
  - intros x y Hx Hy. apply combinations_In in Hx as [_ Lx].
    apply in_flat_map in Hy as [i [Hi Hy]]. apply in_seq in Hi.
    apply combinations_In in Hy as [_ Ly]. left. lia.
Qed.

Lemma power_candidates_positions (s : list string) :
  power_candidates s
  = map (fun ps => Multi (pick s ps))
        (flat_map (fun i => combinations (seq 0 (List.length s)) i)
                  (seq 1 (List.length s))).
Proof.
  unfold power_candidates.
  generalize (seq 1 (List.length s)) as sizes.
  induction sizes as [|i sizes IH]; cbn; [reflexivity|].
  rewrite map_app, <- IH. f_equal.
  rewrite <- (pick_all s) at 1. unfold pick at 1.
  rewrite combinations_map, map_map. reflexivity.
Qed.

(** ** Dictionaries *)

Lemma dict_get_set {V} (k : string) (v : V) d q :
  dict_get q (dict_set k v d) = if k =? q then Some v else dict_get q d.
Proof.
  induction d as [|[k' v'] d IH]; cbn; [reflexivity|].
  destruct (k' =? k) eqn:E; cbn.
  - apply String.eqb_eq in E. subst k'. destruct (k =? q); reflexivity.
  - rewrite IH. destruct (k' =? q) eqn:E'; [|reflexivity].
    apply String.eqb_eq in E'. subst k'.
    rewrite String.eqb_sym, E. reflexivity.
Qed.

Lemma dict_set_same {V} (k : string) (v : V) d :
  dict_get k d = Some v -> dict_set k v d = d.
Proof.
  induction d as [|[k' v'] d IH]; cbn; [discriminate|].
  destruct (k' =? k) eqn:E.
  - intros [= ->]. reflexivity.
  - intros G. now rewrite IH.
Qed.

Lemma mem_In x l : mem x l = true <-> In x l.
Proof.
  unfold mem. rewrite existsb_exists. split.
  - intros [y [Hy E]]. apply String.eqb_eq in E. now subst.
  - intros Hx. exists x. split; [assumption | apply String.eqb_refl].
Qed.

Section PoolProperties.
Context `{PyRuntime}.

Lemma candidates_no_absent name multi samples :
  ~ In Absent (candidates_of name multi samples).
Proof.
  unfold candidates_of. destruct (mem name multi).
  - rewrite power_candidates_In. intros [l [E _]]. discriminate.
  - rewrite in_map_iff. intros [s [E _]]. discriminate.
Qed.

Lemma candidates_nil name multi samples :
  candidates_of name multi samples = [] <-> samples = [].
Proof.
  unfold candidates_of. split.
  - destruct samples as [|x t]; [reflexivity|]. intros E. exfalso.
    destruct (mem name multi); [|discriminate].
    assert (I : In (Multi [x]) (power_candidates (x :: t))).
    { apply power_candidates_In. exists [x]. split; [reflexivity|].
      split; [discriminate|]. constructor. constructor. }
    rewrite E in I. destruct I.
  - intros ->. destruct (mem name multi); reflexivity.
Qed.

Lemma seen_nil p bo ro multi :
  seen_candidates p bo ro multi = [] <-> collect_samples p bo ro = [].
Proof.
  unfold seen_candidates. rewrite <- candidates_nil. split.
  - apply dedup_nil_inv.
  - intros ->. reflexivity.
Qed.

Lemma seen_no_absent p bo ro multi : ~ In Absent (seen_candidates p bo ro multi).
Proof.
  unfold seen_candidates. intros I.
  destruct (dedup_spec (candidates_of (p_name p) multi (collect_samples p bo ro)))
    as (_ & M & _).
  apply M in I. revert I. apply candidates_no_absent.
Qed.

Lemma final_pool_with_samples p seen :
  seen <> [] -> ~ In Absent seen ->
  final_pool p seen = (seen ++ (if p_required p then [] else [Absent]))%list.
Proof.
  intros N A. unfold final_pool. destruct seen as [|v vs]; [congruence|].
  apply seen_not_In in A. rewrite A.
  destruct (p_required p); cbn; [now rewrite app_nil_r | reflexivity].
Qed.

Lemma pool_of_NoDup p bo ro multi include : NoDup (pool_of p bo ro multi include).
Proof.
  unfold pool_of. destruct (negb (mem (p_name p) include)).
  - destruct (p_required p); repeat constructor; cbn; tauto.
  - destruct (seen_candidates p bo ro multi) as [|v vs] eqn:E.
    + cbn. destruct (p_required p); repeat constructor; cbn; intuition discriminate.
    + rewrite final_pool_with_samples; [| discriminate | rewrite <- E; apply seen_no_absent].
      assert (D : NoDup (v :: vs)) by (rewrite <- E; apply dedup_spec).
      destruct (p_required p); [now rewrite app_nil_r|].
      apply NoDup_app; [exact D | repeat constructor; cbn; tauto |].
      intros x Hx [<- | []]. rewrite <- E in Hx. revert Hx. apply seen_no_absent.
Qed.

Lemma pool_of_nonempty p bo ro multi include : pool_of p bo ro multi include <> [].
Proof.
  unfold pool_of. destruct (negb (mem (p_name p) include)).
  - destruct (p_required p); discriminate.
  - unfold final_pool. destruct (seen_candidates p bo ro multi).
    + destruct (p_required p); discriminate.
    + destruct (_ && _); [destruct l|]; discriminate.
Qed.

Lemma build_pools_from params bo ro multi include :
  forall done acc,
    pools_agree done bo ro multi include acc ->
    pools_agree (done ++ params) bo ro multi include
      (fold_left
         (fun (acc : list (string * list PoolValue) * list (string * PoolValue)) p =>
            let pool := pool_of p bo ro multi include in
            (dict_set (p_name p) pool (fst acc),
             dict_set (p_name p) (pool_head pool) (snd acc)))
         params acc).
Proof.
  induction params as [|p rest IH]; intros done acc Inv; cbn [fold_left].
  - now rewrite app_nil_r.
  - replace (done ++ p :: rest)%list with ((done ++ [p]) ++ rest)%list
      by (rewrite <- app_assoc; reflexivity).
    apply IH. destruct Inv as [I1 I2]. split; cbn [fst snd].
    + intros name pl. rewrite !dict_get_set.
      destruct (p_name p =? name) eqn:E.
      * intros [= <-]. apply String.eqb_eq in E. split; [|reflexivity].
        exists p. rewrite in_app_iff. cbn. tauto.
      * intros G. destruct (I1 name pl G) as [(q & Hq & Nq & Pq) B].
        split; [|exact B]. exists q. rewrite in_app_iff. tauto.
    + intros q Hq. rewrite dict_get_set.
      destruct (p_name p =? p_name q) eqn:E; [discriminate|].
      apply in_app_iff in Hq as [Hq | [<- | []]]; [now apply I2|].
      rewrite String.eqb_refl in E. discriminate.
Qed.

Lemma build_pools_agree params bo ro multi include :
  pools_agree params bo ro multi include (build_pools params bo ro multi include).
Proof.
  unfold build_pools.
  apply (build_pools_from params bo ro multi include [] ([], [])).
  split; cbn; [discriminate | tauto].
Qed.

Lemma build_pools_keep bo ro multi include name params :
  (forall q, In q params -> p_name q <> name) ->
  forall acc,
    let acc' :=
      fold_left
        (fun (acc : list (string * list PoolValue) * list (string * PoolValue)) p =>
           let pool := pool_of p bo ro multi include in
           (dict_set (p_name p) pool (fst acc),
            dict_set (p_name p) (pool_head pool) (snd acc)))
        params acc in
    dict_get name (fst acc') = dict_get name (fst acc)
    /\ dict_get name (snd acc') = dict_get name (snd acc).
Proof.
  induction params as [|p rest IH]; intros N acc; cbn [fold_left]; [split; reflexivity|].
  destruct (IH (fun q Hq => N q (or_intror Hq))
               (dict_set (p_name p) (pool_of p bo ro multi include) (fst acc),
                dict_set (p_name p) (pool_head (pool_of p bo ro multi include)) (snd acc)))
    as [E1 E2].
  cbn zeta in *. rewrite E1, E2. cbn [fst snd]. rewrite !dict_get_set.
  assert (D : (p_name p =? name) = false).
  { apply String.eqb_neq. apply N. now left. }
  rewrite D. split; reflexivity.
Qed.

(** The entry stored under a name is the pool of the last parameter of
    that name. *)
Lemma build_pools_last before p after bo ro multi include :
  (forall q, In q after -> p_name q <> p_name p) ->
  let acc := build_pools (before ++ p :: after) bo ro multi include in
  dict_get (p_name p) (fst acc) = Some (pool_of p bo ro multi include)
  /\ dict_get (p_name p) (snd acc)
     = Some (pool_head (pool_of p bo ro multi include)).
Proof.
  intros N. unfold build_pools. rewrite fold_left_app. cbn [fold_left].
  destruct (build_pools_keep bo ro multi include (p_name p) after N
              (let acc0 :=
                 fold_left
                   (fun (acc : list (string * list PoolValue) * list (string * PoolValue)) p =>
                      let pool := pool_of p bo ro multi include in
                      (dict_set (p_name p) pool (fst acc),
                       dict_set (p_name p) (pool_head pool) (snd acc)))
                   before ([], []) in
               (dict_set (p_name p) (pool_of p bo ro multi include) (fst acc0),
                dict_set (p_name p) (pool_head (pool_of p bo ro multi include)) (snd acc0))))
    as [E1 E2].
  cbn zeta in *. rewrite E1, E2. cbn [fst snd]. rewrite !dict_get_set.
  rewrite String.eqb_refl. split; reflexivity.
Qed.

Lemma pool_of_sentinel p bo ro multi include :
  p_required p = true ->
  (In Absent (pool_of p bo ro multi include)
   <-> mem (p_name p) include = true /\ collect_samples p bo ro = []).
Proof.
  intros R. unfold pool_of. rewrite R.
  destruct (mem (p_name p) include); cbn [negb].
  - destruct (seen_candidates p bo ro multi) as [|v vs] eqn:E.
    + apply seen_nil in E. cbn. rewrite R. cbn. tauto.
    + rewrite final_pool_with_samples;
        [| discriminate | rewrite <- E; apply seen_no_absent].
      rewrite R, app_nil_r. split.
      * intros I. exfalso. rewrite <- E in I. revert I. apply seen_no_absent.
      * intros [_ N]. apply (proj2 (seen_nil p bo ro multi)) in N. congruence.
  - cbn. split; [intros [? | []]; discriminate | intros [? _]; discriminate].
Qed.

Lemma pool_of_without_samples p bo ro multi include :
  mem (p_name p) include = true -> collect_samples p bo ro = [] ->
  pool_of p bo ro multi include
  = if p_required p then [Single (example_or_default p); Absent] else [Absent].
Proof.
  intros I N. unfold pool_of. rewrite I. cbn [negb].
  apply (proj2 (seen_nil p bo ro multi)) in N. rewrite N. reflexivity.
Qed.

End PoolProperties.

Section PoolClaims.
Context `{PyRuntime}.

(** C7. For an included parameter flagged for multi-value testing, the
    candidates are exactly the non-empty subsets of the collected samples,
    each once: they are generated by increasing size and, at equal size,
    in input order, and removing repeated values keeps that order.  The
    absence sentinel, if any, is appended after them.  With samples a, b
    the candidates are [a], [b], [a, b]. *)
Theorem multi_value_pool_is_power_set :
  forall p bo ro multi include,
    mem (p_name p) include = true ->
    mem (p_name p) multi = true ->
    let samples := collect_samples p bo ro in
    let seen := seen_candidates p bo ro multi in
    (forall v, In v seen <-> exists l, v = Multi l /\ l <> [] /\ subseq l samples)
    /\ NoDup seen
    /\ (exists positions,
          power_candidates samples = map (fun ps => Multi (pick samples ps)) positions
          /\ StronglySorted size_then_position positions
          /\ subseq seen (power_candidates samples))
    /\ StronglySorted size_le seen
    /\ (samples <> [] ->
        pool_of p bo ro multi include
        = (seen ++ (if p_required p then [] else [Absent]))%list)
    /\ (samples = ["a"; "b"] ->
        seen = [Multi ["a"]; Multi ["b"]; Multi ["a"; "b"]]).
Proof.
  intros p bo ro multi include Hin Hmulti samples seen.
  assert (Eseen : seen = dedup (power_candidates samples)).
  { unfold seen, seen_candidates, candidates_of. now rewrite Hmulti. }
  destruct (dedup_spec (power_candidates samples)) as (Sub & M & D).
  split; [|split; [|split; [|split; [|split]]]].
  - intros v. rewrite Eseen, M. apply power_candidates_In.
  - now rewrite Eseen.
  - exists (flat_map (fun i => combinations (seq 0 (List.length samples)) i)
                     (seq 1 (List.length samples))).
    split; [apply power_candidates_positions|].
    split; [apply position_subsets_sorted | now rewrite Eseen].
  - rewrite Eseen. eapply StronglySorted_subseq; [exact Sub|].
    apply power_candidates_sorted.
  - intros N. unfold pool_of. rewrite Hin. cbn [negb].
    apply final_pool_with_samples.
    + intros E. apply seen_nil in E. contradiction.
    + apply seen_no_absent.
  - intros E. rewrite Eseen, E. reflexivity.
Qed.

(** C8 (amended). For every parameter of an endpoint that is the last of
    its name in the parameter list (every parameter, when the names are
    distinct), the pool recorded under its name is the pool built for it:
    when the parameter is required the pool holds the absence sentinel
    only in the synthetic pool built when the parameter is included and
    no sample was collected; without samples an included required
    parameter gets the two-element pool made of its declared example or
    default and the sentinel, an included optional one the pool made of
    the sentinel alone.  The baseline recorded under a name is the
    element at index 0 of the pool recorded under that name, for every
    recorded pool, and it is the baseline the enumeration returns. *)
Theorem value_pool_sentinel_and_baseline :
  forall e bo ro multi include before p after,
    e_params e = (before ++ p :: after)%list ->
    (forall q, In q after -> p_name q <> p_name p) ->
    let names := effective_include e include in
    let acc := build_pools (e_params e) bo (or_default [] ro)
                           (or_default [] multi) names in
    let samples := collect_samples p bo (or_default [] ro) in
    (exists pool,
        dict_get (p_name p) (fst acc) = Some pool
        /\ (p_required p = true ->
            (In Absent pool <-> mem (p_name p) names = true /\ samples = []))
        /\ (mem (p_name p) names = true -> samples = [] ->
            pool = if p_required p then [Single (example_or_default p); Absent]
                   else [Absent])
        /\ (mem (p_name p) names = false ->
            pool = if p_required p then [Single (example_or_default p)]
                   else [Absent]))
    /\ (forall name pl,
          dict_get name (fst acc) = Some pl ->
          exists base rest,
            pl = base :: rest /\ dict_get name (snd acc) = Some base)
    /\ (forall isolated all baseline,
          enumerate e bo multi include ro isolated = Ok (all, baseline) ->
          baseline = snd acc).
Proof.
  intros e bo ro multi include before p after Ep Last names acc samples.
  split; [|split].
  - exists (pool_of p bo (or_default [] ro) (or_default [] multi) names).
    split; [|split; [|split]].
    + unfold acc. rewrite Ep. now apply build_pools_last.
    + apply pool_of_sentinel.
    + apply pool_of_without_samples.
    + intros N. unfold pool_of. rewrite N. reflexivity.
  - intros name pl G.
    destruct (build_pools_agree (e_params e) bo (or_default [] ro)
                                (or_default [] multi) names) as [I1 _].
    destruct (I1 name pl G) as [(q & _ & _ & Pq) B].
    destruct pl as [|base rest].
    + exfalso. symmetry in Pq. revert Pq. apply pool_of_nonempty.
    + exists base, rest. split; [reflexivity | exact B].
  - intros isolated all baseline. unfold enumerate. fold names. fold acc.
    destruct acc as [pools bl]. destruct (all_combos _ _ _ _); [|discriminate].
    now intros [= _ <-].
Qed.

End PoolClaims.

(* ================================================================== *)
(** * Properties of the combination generator *)
(* ================================================================== *)

Lemma flat_map_same_length {A B} (f : A -> list B) (l : list A) (n : nat) :
  (forall x, In x l -> List.length (f x) = n) ->
  List.length (flat_map f l) = List.length l * n.
Proof.
  induction l as [|x t IH]; intros Hf; cbn; [reflexivity|].
  rewrite length_app, (Hf x), IH; [lia | | now left].
  intros y Hy. apply Hf. now right.
Qed.

Lemma product_length {A} (pools : list (list A)) :
  List.length (product pools) = fold_right Nat.mul 1 (map (@List.length A) pools).
Proof.
  induction pools as [|p rest IH]; cbn; [reflexivity|].
  rewrite (flat_map_same_length _ _ (List.length (product rest))).
  - now rewrite IH.
  - intros x _. apply length_map.
Qed.

Lemma product_first (pools : list (list PoolValue)) :
  Forall (fun p => p <> []) pools ->
  exists more, product pools = map pool_head pools :: more.
Proof.
  induction 1 as [|p rest Hp F IH]; cbn; [now exists []|].
  destruct IH as [more E]. destruct p as [|v vs]; [congruence|].
  cbn. rewrite E. cbn. eauto.
Qed.

Lemma lookup_pools_known pools names :
  (forall n, In n names -> dict_get n pools <> None) ->
  lookup_pools pools names = Ok (map (pool_at pools) names).
Proof.
  induction names as [|n rest IH]; intros K; cbn; [reflexivity|].
  unfold pool_at at 1. destruct (dict_get n pools) eqn:E.
  - rewrite IH by (intros; apply K; cbn; auto). reflexivity.
  - exfalso. apply (K n); cbn; auto.
Qed.

Lemma assign_baseline (baseline : Combination) names values :
  Forall2 (fun n v => dict_get n baseline = Some v) names values ->
  assign baseline names values = baseline.
Proof.
  unfold assign. induction 1 as [|n v ns vs Hnv F IH]; cbn; [reflexivity|].
  rewrite (dict_set_same n v baseline Hnv). exact IH.
Qed.

Lemma filter_out_head (h : PoolValue) (t : list PoolValue) :
  NoDup (h :: t) ->
  filter (fun val => negb (pv_eqb val h)) (h :: t) = t.
Proof.
  intros D. inversion D as [|? ? Nh Dt]; subst. cbn.
  replace (pv_eqb h h) with true by (symmetry; now apply pv_eqb_eq). cbn.
  clear D Dt. induction t as [|x t IH]; cbn; [reflexivity|].
  destruct (pv_eqb x h) eqn:E.
  - apply pv_eqb_eq in E. subst. exfalso. apply Nh. now left.
  - cbn. f_equal. apply IH. intros I. apply Nh. now right.
Qed.

Lemma py_slice_window {A} (l : list A) (a len : Z) :
  (0 <= a)%Z -> (0 <= len)%Z ->
  py_slice l a (a + len) = firstn (Z.to_nat len) (skipn (Z.to_nat a) l).
Proof.
  intros Ha Hl. unfold py_slice, clamp_index.
  set (n := Z.of_nat (List.length l)).
  destruct (a <? 0)%Z eqn:E1; [apply Z.ltb_lt in E1; lia|].
  destruct (a + len <? 0)%Z eqn:E2; [apply Z.ltb_lt in E2; lia|].
  destruct (Z_lt_ge_dec a n) as [Lt | Ge].
  - rewrite (Z.min_l a n) by lia.
    set (rest := skipn (Z.to_nat a) l).
    assert (Lr : List.length rest = Z.to_nat (n - a)).
    { unfold rest. rewrite length_skipn. unfold n. lia. }
    destruct (Z_le_gt_dec (a + len) n) as [Le | Gt].
    + rewrite Z.min_l by lia. f_equal. lia.
    + rewrite Z.min_r by lia.
      rewrite (firstn_all2 (n := Z.to_nat len)) by lia.
      apply firstn_all2. lia.
  - rewrite !Z.min_r by lia. rewrite Z.sub_diag. cbn [Z.to_nat firstn].
    rewrite skipn_all2 by (unfold n in Ge; lia). now rewrite firstn_nil.
Qed.

Lemma windows_cover {A} (L : nat) :
  0 < L ->
  forall n (l : list A),
    List.length l <= n * L ->
    concat (map (fun k => firstn L (skipn (k * L) l)) (seq 0 n)) = l.
Proof.
  intros HL. induction n as [|n IH]; intros l Hl.
  - destruct l; [reflexivity | cbn in Hl; lia].
  - cbn [seq map concat]. rewrite <- seq_shift, map_map.
    transitivity (firstn L l ++ skipn L l)%list; [|apply firstn_skipn].
    f_equal.
    transitivity (concat (map (fun k => firstn L (skipn (k * L) (skipn L l)))
                              (seq 0 n))).
    + f_equal. apply map_ext. intros k. f_equal.
      rewrite skipn_skipn. f_equal. lia.
    + apply IH. rewrite length_skipn. lia.
Qed.

Lemma concat_map_filter {A B} (f : A -> list B) (keep : A -> bool) (l : list A) :
  (forall x, In x l -> keep x = false -> f x = []) ->
  concat (map f (filter keep l)) = concat (map f l).
Proof.
  induction l as [|x t IH]; intros E; cbn; [reflexivity|].
  destruct (keep x) eqn:K; cbn.
  - f_equal. apply IH. intros; apply E; cbn; auto.
  - rewrite (E x) by (cbn; auto). cbn. apply IH. intros; apply E; cbn; auto.
Qed.

Section GeneratorProperties.
Context `{PyRuntime}.

Lemma isolated_sweep_length params bo ro multi include name :
  let acc := build_pools params bo ro multi include in
  List.length (isolated_sweep (fst acc) (snd acc) name)
  = List.length (pool_at (fst acc) name) - 1.
Proof.
  intros acc. unfold isolated_sweep, pool_at.
  destruct (dict_get name (fst acc)) as [pl|] eqn:G; [|reflexivity].
  destruct (build_pools_agree params bo ro multi include) as [I1 _].
  destruct (I1 name pl G) as [(q & _ & _ & Pq) B]. fold acc in B.
  rewrite B. cbn [or_default]. rewrite length_map.
  destruct pl as [|h t].
  - exfalso. symmetry in Pq. revert Pq. apply pool_of_nonempty.
  - cbn [pool_head]. rewrite filter_out_head; [cbn; lia|].
    rewrite Pq. apply pool_of_NoDup.
Qed.

Lemma main_pools_first params bo ro multi include names :
  let acc := build_pools params bo ro multi include in
  (forall n, In n names -> dict_get n (fst acc) <> None) ->
  exists more,
    map (assign (snd acc) names) (product (map (pool_at (fst acc)) names))
    = snd acc :: more.
Proof.
  intros acc K.
  destruct (build_pools_agree params bo ro multi include) as [I1 _]. fold acc in I1.
  assert (F : Forall (fun p => p <> []) (map (pool_at (fst acc)) names)).
  { apply Forall_forall. intros pl Hpl. apply in_map_iff in Hpl as [n [<- Hn]].
    unfold pool_at. destruct (dict_get n (fst acc)) as [pl|] eqn:G.
    - destruct (I1 n pl G) as [(q & _ & _ & Pq) _]. cbn. rewrite Pq.
      apply pool_of_nonempty.
    - exfalso. now apply (K n). }
  destruct (product_first _ F) as [more E]. rewrite E. cbn [map].
  exists (map (assign (snd acc) names) more). f_equal.
  apply assign_baseline. clear E F more.
  induction names as [|n rest IH]; cbn; constructor.
  - unfold pool_at. destruct (dict_get n (fst acc)) as [pl|] eqn:G.
    + apply (I1 n pl G).
    + exfalso. apply (K n); cbn; auto.
  - apply IH. intros; apply K; cbn; auto.
Qed.

End GeneratorProperties.

Lemma firstn_subset {A} (n : nat) (l : list A) x : In x (firstn n l) -> In x l.
Proof.
  revert l. induction n as [|n IH]; intros [|y l]; cbn; try tauto.
  intros [-> | I]; [now left | right; now apply IH].
Qed.

Lemma skipn_subset {A} (n : nat) (l : list A) x : In x (skipn n l) -> In x l.
Proof.
  revert l. induction n as [|n IH]; intros [|y l]; cbn; try tauto.
  intros I. right. now apply IH.
Qed.

Lemma bind_ok {A B} (m : M A) (k : A -> M B) tr y tr1 :
  bind m k tr = (Ok y, tr1) ->
  exists x tr0, m tr = (Ok x, tr0) /\ k x tr0 = (Ok y, tr1).
Proof.
  unfold bind. destruct (m tr) as [[x|e] tr0]; [|discriminate].
  intros K. eauto.
Qed.

Lemma Forall2_map_eq {A B C} (f : A -> C) (g : B -> C) l ys :
  Forall2 (fun x y => g y = f x) l ys -> map g ys = map f l.
Proof.
  induction 1 as [|x y l ys E F IH]; cbn; [reflexivity | now rewrite E, IH].
Qed.

Lemma lookup_pools_found pools names :
  forall ps,
    lookup_pools pools names = Ok ps ->
    Forall2 (fun n pool => dict_get n pools = Some pool) names ps.
Proof.
  induction names as [|n rest IH]; intros ps; cbn.
  - intros [= <-]. constructor.
  - destruct (dict_get n pools) as [pool|] eqn:G; [|discriminate].
    destruct (lookup_pools pools rest) as [qs|x]; [|discriminate].
    intros [= <-]. constructor; [exact G | now apply IH].
Qed.

Lemma to_overrides_get (c : Combination) name :
  dict_get name (to_overrides c) = option_map pv_to_py (dict_get name c).
Proof.
  unfold to_overrides. induction c as [|[k v] c IH]; cbn; [reflexivity|].
  destruct (k =? name); [reflexivity | exact IH].
Qed.

Section BuilderOutcome.
Context `{PyRuntime}.

Lemma build_step_bad o s m i st p :
  bad_path_override o s p = true ->
  exists x, is_TypeError x = true /\ build_step o s m i st p = Raise x.
Proof.
  unfold bad_path_override, build_step. destruct st as [path query].
  destruct (opt_mem (p_name p) s); [discriminate|].
  destruct (p_in p =? "path"); [|discriminate].
  rewrite andb_false_r. cbn [negb andb].
  destruct (truthy_lookup (p_name p) o) as [[| | | | |]|]; try discriminate;
    intros _; eexists; (split; [|reflexivity]); reflexivity.
Qed.

Lemma build_step_good o s m i st p :
  bad_path_override o s p = false ->
  exists st', build_step o s m i st p = Ok st'.
Proof.
  unfold bad_path_override, build_step. destruct st as [path query].
  destruct (opt_mem (p_name p) s); [eauto|].
  destruct (p_in p =? "path") eqn:P.
  - rewrite andb_false_r. cbn [negb andb].
    destruct (truthy_lookup (p_name p) o) as [[| | | | |]|]; try discriminate; eauto.
  - intros _. destruct (filtered_out (p_name p) i && negb false); [eauto|].
    destruct (p_in p =? "query"); [|eauto].
    destruct (opt_mem (p_name p) m); [eauto|].
    destruct o as [d|].
    + destruct (dict_get (p_name p) d) as [v|].
      * destruct (not_none v); eauto.
      * destruct (p_required p); eauto.
    + destruct (not_none (p_example p)); [eauto|].
      destruct (not_none (p_default p)); eauto.
Qed.

Lemma build_params_outcome o s m i params :
  forall st,
    (existsb (bad_path_override o s) params = true ->
     exists x, is_TypeError x = true /\ build_params o s m i params st = Raise x)
    /\ (existsb (bad_path_override o s) params = false ->
        exists st', build_params o s m i params st = Ok st').
Proof.
  induction params as [|p rest IH]; intros st; cbn.
  - split; [discriminate | eauto].
  - destruct (bad_path_override o s p) eqn:B; cbn.
    + destruct (build_step_bad o s m i st p B) as (x & T & ->).
      split; [eauto | discriminate].
    + destruct (build_step_good o s m i st p B) as [st' ->]. apply IH.
Qed.

(** The builder fails exactly on a path override that is not text, and
    then with TypeError. *)
Lemma build_test_url_outcome base e o s m i :
  (existsb (bad_path_override o s) (e_params e) = true
   /\ exists x, is_TypeError x = true /\ build_test_url base e o s m i = Raise x)
  \/ (existsb (bad_path_override o s) (e_params e) = false
      /\ exists r, build_test_url base e o s m i = Ok r).
Proof.
  unfold build_test_url.
  destruct (build_params_outcome o s m i (e_params e) (e_path e, [])) as [B G].
  destruct (existsb (bad_path_override o s) (e_params e)).
  - left. split; [reflexivity|]. destruct (B eq_refl) as (x & T & ->). eauto.
  - right. split; [reflexivity|]. destruct (G eq_refl) as [[path query] ->]. eauto.
Qed.

Lemma build_raises_TypeError base e o s m i x :
  build_test_url base e o s m i = Raise x -> is_TypeError x = true.
Proof.
  destruct (build_test_url_outcome base e o s m i)
    as [[_ (y & T & ->)] | [_ (r & ->)]]; [|discriminate].
  now intros [= <-].
Qed.

Lemma unusable_combination_is_not_built e base_url c :
  unusable_in_path e c ->
  exists x, build_test_url base_url e (Some (to_overrides c)) None None None = Raise x.
Proof.
  intros (p & I & P & V).
  destruct (build_test_url_outcome base_url e (Some (to_overrides c)) None None None)
    as [[_ (y & _ & ->)] | [B _]]; [eauto|].
  exfalso. apply not_true_iff_false in B. apply B.
  apply existsb_exists. exists p. split; [exact I|].
  unfold bad_path_override, truthy_lookup. cbn [opt_mem negb andb].
  rewrite P. cbn [String.eqb Ascii.eqb Bool.eqb andb].
  rewrite to_overrides_get.
  destruct V as [-> | [l ->]]; reflexivity.
Qed.

Lemma usable_combination_is_built e base_url c :
  ~ unusable_in_path e c ->
  exists r, build_test_url base_url e (Some (to_overrides c)) None None None = Ok r.
Proof.
  intros U.
  destruct (build_test_url_outcome base_url e (Some (to_overrides c)) None None None)
    as [[B _] | [_ R]]; [|exact R].
  exfalso. apply U. apply existsb_exists in B as (p & I & B).
  exists p. split; [exact I|].
  unfold bad_path_override, truthy_lookup in B. cbn [opt_mem negb andb] in B.
  destruct (p_in p =? "path") eqn:P; [|discriminate]. cbn [andb] in B.
  apply String.eqb_eq in P. split; [exact P|].
  rewrite to_overrides_get in B.
  destruct (dict_get (p_name p) c) as [[| s | l]|]; cbn in B;
    [now left | discriminate | right; eauto | discriminate].
Qed.

Lemma path_values_checked e (l : list Combination) :
  forallb (path_values_are_text e) l = true ->
  forall c, In c l -> ~ unusable_in_path e c.
Proof.
  intros F c I (p & Hp & P & V).
  rewrite forallb_forall in F. specialize (F c I).
  unfold path_values_are_text in F. rewrite forallb_forall in F.
  specialize (F p Hp). rewrite P in F. cbn [String.eqb Ascii.eqb Bool.eqb negb orb] in F.
  destruct V as [V | [vs V]]; rewrite V in F; discriminate.
Qed.

End BuilderOutcome.

Section GeneratorClaims.
Context `{PyRuntime} `{Network}.

Lemma enumerate_known e bo multi include ro isolated :
  (forall n, In n (effective_include e include) -> In n (map p_name (e_params e))) ->
  let names := effective_include e include in
  let iso := or_default [] isolated in
  let acc := build_pools (e_params e) bo (or_default [] ro) (or_default [] multi) names in
  let main := filter (fun n => negb (mem n iso)) names in
  enumerate e bo multi include ro isolated
  = Ok ((map (assign (snd acc) main) (product (map (pool_at (fst acc)) main))
         ++ flat_map (isolated_sweep (fst acc) (snd acc)) iso)%list,
        snd acc)
  /\ forall n, In n main -> dict_get n (fst acc) <> None.
Proof.
  intros K names iso acc main.
  assert (Km : forall n, In n main -> dict_get n (fst acc) <> None).
  { intros n Hn. apply filter_In in Hn as [Hn _]. apply K in Hn.
    apply in_map_iff in Hn as [p [<- Hp]].
    now apply (build_pools_agree (e_params e) bo (or_default [] ro)
                                 (or_default [] multi) names). }
  split; [|exact Km].
  unfold enumerate. fold names. fold acc. destruct acc as [pools baseline] eqn:Eacc.
  unfold all_combos. fold iso. fold main. cbn [fst snd] in *.
  now rewrite (lookup_pools_known pools main Km).
Qed.

(** What the enumeration returns, when it returns: the product of the
    main pools, then the sweeps. *)
Lemma enumerate_returned e bo multi include ro isolated all baseline :
  enumerate e bo multi include ro isolated = Ok (all, baseline) ->
  let names := effective_include e include in
  let iso := or_default [] isolated in
  let acc := build_pools (e_params e) bo (or_default [] ro) (or_default [] multi) names in
  let main := filter (fun n => negb (mem n iso)) names in
  baseline = snd acc
  /\ all = (map (assign (snd acc) main) (product (map (pool_at (fst acc)) main))
            ++ flat_map (isolated_sweep (fst acc) (snd acc)) iso)%list
  /\ forall n, In n main -> dict_get n (fst acc) <> None.
Proof.
  intros E names iso acc main. revert E.
  unfold enumerate. fold names. fold acc. destruct acc as [pools bl].
  unfold all_combos. fold iso. fold main. cbn [fst snd].
  destruct (lookup_pools pools main) as [ps|x] eqn:L; [|discriminate].
  intros [= <- <-]. apply lookup_pools_found in L.
  assert (P : ps = map (pool_at pools) main /\
              forall n, In n main -> dict_get n pools <> None).
  { clear - L. induction L as [|n pool ns ps G L [IH1 IH2]]; [split; [reflexivity | intros ? []]|].
    split.
    - cbn. unfold pool_at at 1. rewrite G. cbn. now rewrite IH1.
    - intros k [<- | Hk]; [congruence | now apply IH2]. }
  destruct P as [-> Km]. split; [reflexivity|]. split; [reflexivity | exact Km].
Qed.

Lemma enumeration_length e bo multi include ro isolated :
  let names := effective_include e include in
  let iso := or_default [] isolated in
  let acc := build_pools (e_params e) bo (or_default [] ro) (or_default [] multi) names in
  let main := filter (fun n => negb (mem n iso)) names in
  List.length (map (assign (snd acc) main) (product (map (pool_at (fst acc)) main))
               ++ flat_map (isolated_sweep (fst acc) (snd acc)) iso)%list
  = List.length (product (map (pool_at (fst acc)) main))
    + list_sum (map (fun n => List.length (pool_at (fst acc) n) - 1) iso).
Proof.
  intros names iso acc main.
  rewrite length_app, length_map. f_equal.
  clear. induction iso as [|n rest IH]; cbn; [reflexivity|].
  rewrite length_app, IH. f_equal.
  apply (isolated_sweep_length (e_params e) bo (or_default [] ro)
                               (or_default [] multi) names n).
Qed.

(** One turn of the loop that returns has built the request of its
    combination and made one exchange. *)
Lemma run_combination_returned e base_url headers config include baseline c tr r tr' :
  run_combination e base_url headers config include baseline c tr = (Ok r, tr') ->
  cr_params_used r = c
  /\ build_test_url base_url e (Some (to_overrides c)) None None None
     = Ok (cr_request_url r, cr_request_body r)
  /\ exists rq, tr' = (tr ++ [EvHttp rq])%list.
Proof.
  unfold run_combination. intros R.
  apply bind_ok in R as ([u b] & tr0 & B & R).
  unfold liftR in B.
  destruct (build_test_url base_url e (Some (to_overrides c)) None None None)
    as [ub|x]; [|discriminate].
  injection B as -> <-.
  apply bind_ok in R as (res & tr1 & P & R).
  apply probe_returned in P as (t & _ & _ & _ & ->).
  destruct (status_code res); [|discriminate].
  injection R as <- <-. cbn. split; [reflexivity|]. split; [reflexivity | eauto].
Qed.

Lemma run_combination_succeeds e base_url headers config include baseline c tr :
  positive_timeout config -> answering_peer ->
  ~ unusable_in_path e c ->
  exists r tr1,
    run_combination e base_url headers config include baseline c tr = (Ok r, tr1).
Proof.
  intros (t & T & P) A U.
  destruct (usable_combination_is_built e base_url c U) as [[u b] B].
  unfold run_combination, bind at 1, liftR. rewrite B.
  unfold bind. rewrite (probe_with_timeout config t) by exact T.
  destruct (A tr (dispatch u (e_method e) (Some headers) (Some b) t))
    as (resp & X & Rd).
  rewrite (call_endpoint_on_response _ _ _ _ _ _ _ P X Rd).
  destruct (fill_result_status u (e_method e) resp) as [-> _].
  eexists. eexists. reflexivity.
Qed.

(** [mapM] over the window keeps one result per combination, in order,
    and makes one exchange for each. *)
Lemma run_window_returned e base_url headers config include baseline subset :
  forall tr rs tr',
    mapM (run_combination e base_url headers config include baseline) subset tr
    = (Ok rs, tr') ->
    map cr_params_used rs = subset
    /\ Forall2 (fun c r =>
                  build_test_url base_url e (Some (to_overrides c)) None None None
                  = Ok (cr_request_url r, cr_request_body r)) subset rs
    /\ List.length tr' = List.length tr + List.length subset.
Proof.
  induction subset as [|c rest IH]; intros tr rs tr'; cbn [mapM].
  - intros [= <- <-]. cbn. split; [reflexivity|]. split; [constructor | lia].
  - intros R. apply bind_ok in R as (r & tr0 & E & R).
    apply bind_ok in R as (rs' & tr2 & E2 & R). injection R as <- <-.
    apply run_combination_returned in E as (Pc & Bc & rq & ->).
    apply IH in E2 as (Pr & Br & Lr).
    cbn. split; [now rewrite Pc, Pr|]. split; [now constructor|].
    rewrite Lr, length_app. cbn. lia.
Qed.

Lemma run_window_succeeds e base_url headers config include baseline subset :
  positive_timeout config -> answering_peer ->
  (forall c, In c subset -> ~ unusable_in_path e c) ->
  forall tr, exists rs tr1,
    mapM (run_combination e base_url headers config include baseline) subset tr
    = (Ok rs, tr1).
Proof.
  intros P A. induction subset as [|c rest IH]; intros U tr; cbn [mapM].
  - eexists. eexists. reflexivity.
  - destruct (run_combination_succeeds e base_url headers config include baseline c tr
                P A (U c (or_introl eq_refl))) as (r & tr0 & E).
    destruct (IH (fun c' I => U c' (or_intror I)) tr0) as (rs & tr1 & E2).
    unfold bind. rewrite E, E2. eexists. eexists. reflexivity.
Qed.

(** The window of a call, as the combinations it is to test. *)
Lemma select_window_of e bo multi include ro isolated all baseline mode offset limit :
  enumerate e bo multi include ro isolated = Ok (all, baseline) ->
  (0 <= offset)%Z -> (0 <= limit)%Z ->
  select_window mode offset limit all
  = if mode =? "minimal" then [baseline]
    else firstn (Z.to_nat limit) (skipn (Z.to_nat offset) all).
Proof.
  intros E Ho Hl. unfold select_window. destruct (mode =? "minimal").
  - destruct (enumerate_returned _ _ _ _ _ _ _ _ E) as (Eb & Ea & Km).
    destruct (main_pools_first (e_params e) bo (or_default [] ro) (or_default [] multi)
                (effective_include e include) _ Km) as [more Em].
    rewrite Ea, Em, Eb. reflexivity.
  - now apply py_slice_window.
Qed.

(** A call of the phase that returns reports the length of the
    enumeration and has tested its window, one exchange for each
    combination. *)
Lemma run_returned e base_url headers config bo mode offset limit
      multi include ro isolated tr r tr1 :
  e_params e <> [] ->
  run_combinatorial_tests e base_url headers config bo mode offset limit
                          multi include ro isolated tr = (Ok r, tr1) ->
  exists all baseline,
    enumerate e bo multi include ro isolated = Ok (all, baseline)
    /\ co_total_count r = Z.of_nat (List.length all)
    /\ co_offset r = offset /\ co_limit r = limit
    /\ map cr_params_used (co_results r) = select_window mode offset limit all
    /\ Forall2 (fun c r =>
                  build_test_url base_url e (Some (to_overrides c)) None None None
                  = Ok (cr_request_url r, cr_request_body r))
               (select_window mode offset limit all) (co_results r)
    /\ List.length tr1
       = List.length tr + List.length (select_window mode offset limit all).
Proof.
  intros Hp. unfold run_combinatorial_tests.
  destruct (e_params e) as [|p0 ps]; [congruence|].
  intros R. apply bind_ok in R as ([all baseline] & tr0 & E & R).
  unfold liftR in E.
  destruct (enumerate e bo multi include ro isolated) as [ab|x]; [|discriminate].
  injection E as -> <-.
  apply bind_ok in R as (rs & tr2 & W & R). injection R as <- <-.
  apply run_window_returned in W as (Pw & Bw & Lw).
  exists all, baseline. cbn. repeat split; assumption.
Qed.

Lemma run_succeeds e base_url headers config bo mode offset limit
      multi include ro isolated all baseline tr :
  enumerate e bo multi include ro isolated = Ok (all, baseline) ->
  positive_timeout config -> answering_peer ->
  (forall c, In c (select_window mode offset limit all) -> ~ unusable_in_path e c) ->
  exists r tr1,
    run_combinatorial_tests e base_url headers config bo mode offset limit
                            multi include ro isolated tr = (Ok r, tr1).
Proof.
  intros E P A U. unfold run_combinatorial_tests.
  destruct (e_params e) as [|p0 ps]; [eexists; eexists; reflexivity|].
  unfold bind at 1, liftR. rewrite E.
  destruct (run_window_succeeds e base_url headers config
              (effective_include e include) baseline
              (select_window mode offset limit all) P A U tr) as (rs & tr1 & W).
  unfold bind. rewrite W. eexists. eexists. reflexivity.
Qed.

(** C3. For an endpoint with parameters, a call of the combinatorial
    phase enumerates the Cartesian product of the main pools followed by
    the sweeps of the isolated parameters.  The total count it reports is
    the length of that enumeration: the size of the product plus, for
    each isolated parameter, the size of its pool minus one.  In minimal
    mode the combinations it tests are the first one alone, which is the
    baseline; in full mode they are the slice of the enumeration that
    starts at [offset] and holds at most [limit] combinations; one
    exchange is made for each.  The call returns when the included names
    are parameters of the endpoint, the configuration has a positive
    timeout, the target answers and no combination of the window leaves
    a path parameter without a text value. *)
Theorem combination_count_and_window :
  forall e base_url headers config bo multi include ro isolated offset limit,
    e_params e <> [] ->
    (0 <= offset)%Z -> (0 <= limit)%Z ->
    let names := effective_include e include in
    let iso := or_default [] isolated in
    let acc := build_pools (e_params e) bo (or_default [] ro) (or_default [] multi) names in
    let pools := fst acc in
    let baseline := snd acc in
    let main := filter (fun n => negb (mem n iso)) names in
    let all := (map (assign baseline main) (product (map (pool_at pools) main))
                ++ flat_map (isolated_sweep pools baseline) iso)%list in
    let selected (mode : string) :=
      if mode =? "minimal" then [baseline]
      else firstn (Z.to_nat limit) (skipn (Z.to_nat offset) all) in
    List.length all
    = List.length (product (map (pool_at pools) main))
      + list_sum (map (fun n => List.length (pool_at pools n) - 1) iso)
    /\ List.length (product (map (pool_at pools) main))
       = fold_right Nat.mul 1 (map (fun n => List.length (pool_at pools n)) main)
    /\ (forall mode tr r tr1,
          run_combinatorial_tests e base_url headers config bo mode offset limit
                                  multi include ro isolated tr = (Ok r, tr1) ->
          co_total_count r = Z.of_nat (List.length all)
          /\ co_offset r = offset /\ co_limit r = limit
          /\ map cr_params_used (co_results r) = selected mode
          /\ List.length tr1 = List.length tr + List.length (selected mode))
    /\ (forall mode tr,
          (forall n, In n names -> In n (map p_name (e_params e))) ->
          positive_timeout config -> answering_peer ->
          (forall c, In c (selected mode) -> ~ unusable_in_path e c) ->
          exists r tr1,
            run_combinatorial_tests e base_url headers config bo mode offset limit
                                    multi include ro isolated tr = (Ok r, tr1)).
Proof.
  intros e base_url headers config bo multi include ro isolated offset limit Hp Ho Hl
         names iso acc pools baseline main all selected.
  split; [|split; [|split]].
  - apply enumeration_length.
  - rewrite product_length, map_map. reflexivity.
  - intros mode tr r tr1 R.
    apply run_returned in R as (all' & bl & E & T & O & L & W & _ & Tr); [|exact Hp].
    rewrite (select_window_of _ _ _ _ _ _ _ _ mode offset limit E Ho Hl) in W, Tr.
    destruct (enumerate_returned _ _ _ _ _ _ _ _ E) as (Eb & Ea & _).
    fold names iso acc main in Eb, Ea. fold pools baseline in Eb, Ea.
    fold all in Ea. subst all' bl.
    repeat split; assumption.
  - intros mode tr K P A U.
    destruct (enumerate_known e bo multi include ro isolated K) as [E _].
    fold names iso acc main in E. fold pools baseline in E. fold all in E.
    apply (run_succeeds _ _ _ _ _ mode offset limit _ _ _ _ all baseline tr E P A).
    now rewrite (select_window_of _ _ _ _ _ _ _ _ mode offset limit E Ho Hl).
Qed.

(** C4. For an endpoint with parameters, the total count reported by a
    call of the combinatorial phase does not depend on the mode, the
    offset, the limit or what happened before the call; two calls with
    the same arguments test the same combinations with the same requests,
    whatever happened before each; and the calls in full mode at the
    offsets 0, [limit], 2 [limit], ... below the total count have tested,
    put end to end, the whole enumeration: Cartesian product first,
    isolated sweeps after, every position once.  Each of these calls
    returns when the included names are parameters of the endpoint, the
    configuration has a positive timeout, the target answers and no
    combination leaves a path parameter without a text value. *)
Theorem pagination_is_idempotent_and_total_preserving :
  forall e base_url headers config bo multi include ro isolated,
    e_params e <> [] ->
    let names := effective_include e include in
    let iso := or_default [] isolated in
    let acc := build_pools (e_params e) bo (or_default [] ro) (or_default [] multi) names in
    let pools := fst acc in
    let baseline := snd acc in
    let main := filter (fun n => negb (mem n iso)) names in
    let all := (map (assign baseline main) (product (map (pool_at pools) main))
                ++ flat_map (isolated_sweep pools baseline) iso)%list in
    let run := run_combinatorial_tests e base_url headers config bo in
    (forall mode offset limit tr r tr1,
        run mode offset limit multi include ro isolated tr = (Ok r, tr1) ->
        co_total_count r = Z.of_nat (List.length all))
    /\ (forall mode offset limit tr1 tr2 r1 r2 tr1' tr2',
          run mode offset limit multi include ro isolated tr1 = (Ok r1, tr1') ->
          run mode offset limit multi include ro isolated tr2 = (Ok r2, tr2') ->
          co_total_count r1 = co_total_count r2
          /\ map cr_params_used (co_results r1) = map cr_params_used (co_results r2)
          /\ map cr_request_url (co_results r1) = map cr_request_url (co_results r2)
          /\ map cr_request_body (co_results r1)
             = map cr_request_body (co_results r2))
    /\ (forall limit rs,
          (0 < limit)%Z ->
          Forall2 (fun off r =>
                     exists tr tr1,
                       run "full" off limit multi include ro isolated tr = (Ok r, tr1))
                  (window_offsets (Z.of_nat (List.length all)) limit) rs ->
          concat (map (fun r => map cr_params_used (co_results r)) rs) = all)
    /\ (forall mode offset limit tr,
          (forall n, In n names -> In n (map p_name (e_params e))) ->
          positive_timeout config -> answering_peer ->
          (forall c, In c all -> ~ unusable_in_path e c) ->
          exists r tr1,
            run mode offset limit multi include ro isolated tr = (Ok r, tr1)).
Proof.
  intros e base_url headers config bo multi include ro isolated Hp
         names iso acc pools baseline main all run.
  assert (Known : forall all' bl,
             enumerate e bo multi include ro isolated = Ok (all', bl) ->
             all' = all /\ bl = baseline).
  { intros all' bl E. destruct (enumerate_returned _ _ _ _ _ _ _ _ E) as (Eb & Ea & _).
    split; assumption. }
  split; [|split; [|split]].
  - intros mode offset limit tr r tr1 R.
    apply run_returned in R as (all' & bl & E & T & _); [|exact Hp].
    destruct (Known _ _ E) as [-> _]. exact T.
  - intros mode offset limit tr1 tr2 r1 r2 tr1' tr2' R1 R2.
    apply run_returned in R1 as (a1 & b1 & E1 & T1 & _ & _ & W1 & B1 & _); [|exact Hp].
    apply run_returned in R2 as (a2 & b2 & E2 & T2 & _ & _ & W2 & B2 & _); [|exact Hp].
    rewrite E1 in E2. injection E2 as <- <-.
    split; [congruence|]. split; [congruence|].
    revert B1 B2. generalize (co_results r1) (co_results r2)
                             (select_window mode offset limit a1).
    clear. intros l1 l2 w B1. revert l2.
    induction B1 as [|c r w l1 E F IH]; intros l2 B2; inversion B2 as [|? r' ? l2' E' F']; subst.
    + split; reflexivity.
    + destruct (IH _ F') as [I1 I2]. rewrite E in E'. injection E' as U B.
      cbn. split; congruence.
  - intros limit rs Hl F.
    assert (W : map (fun r => map cr_params_used (co_results r)) rs
                = map (fun off => firstn (Z.to_nat limit) (skipn (Z.to_nat off) all))
                      (window_offsets (Z.of_nat (List.length all)) limit)).
    { apply Forall2_map_eq.
      assert (Nonneg : Forall (fun off => (0 <= off)%Z)
                              (window_offsets (Z.of_nat (List.length all)) limit)).
      { apply Forall_forall. intros off I. unfold window_offsets in I.
        apply filter_In in I as [I _]. apply in_map_iff in I as (k & <- & _). lia. }
      revert Nonneg. induction F as [|off r offs rs (tr & tr1 & R) F IH];
        intros Nonneg; constructor.
      - inversion Nonneg as [|? ? Hoff _]; subst.
        apply run_returned in R as (all' & bl & E & _ & _ & _ & W & _); [|exact Hp].
        destruct (Known _ _ E) as [-> _]. rewrite W.
        unfold select_window. cbn [String.eqb Ascii.eqb Bool.eqb].
        apply py_slice_window; lia.
      - apply IH. now inversion Nonneg. }
    rewrite W. unfold window_offsets. rewrite Nat2Z.id.
    rewrite (concat_map_filter
               (fun off => firstn (Z.to_nat limit) (skipn (Z.to_nat off) all))).
    + rewrite map_map.
      rewrite <- (windows_cover (Z.to_nat limit)) with (n := List.length all) (l := all) at 2;
        [| lia | nia].
      f_equal. apply map_ext. intros k. do 2 f_equal. lia.
    + intros off Hoff Hge. apply in_map_iff in Hoff as [k [<- _]].
      apply Z.ltb_ge in Hge. rewrite skipn_all2 by lia. apply firstn_nil.
  - intros mode offset limit tr K P A U.
    destruct (enumerate_known e bo multi include ro isolated K) as [E _].
    fold names iso acc main in E. fold pools baseline in E. fold all in E.
    apply (run_succeeds _ _ _ _ _ mode offset limit _ _ _ _ all baseline tr E P A).
    intros c I. apply U. unfold select_window in I.
    destruct (mode =? "minimal").
    + now apply (firstn_subset 1 all).
    + unfold py_slice in I. apply firstn_subset in I. now apply skipn_subset in I.
Qed.

End GeneratorClaims.

(* ================================================================== *)
(** * Properties of the pipeline and of the handler *)
(* ================================================================== *)


Section PipelineClaims.
Context `{PyRuntime} `{Network}.

Lemma run_baseline_trace u m headers config body e tr b tr1 :
  run_baseline u m headers config body e tr = (Ok b, tr1) ->
  exists t,
    timeout_seconds config = Some t /\ (0 < t)%Z
    /\ tr1 = (tr ++ [EvHttp (dispatch u m (Some headers) body t)])%list.
Proof.
  unfold run_baseline. intros R.
  apply bind_ok in R as (r & tr0 & P & R).
  apply probe_returned in P as (t & T & Pos & _ & ->).
  apply bind_ok in R as (limit & tr2 & L & R).
  unfold config_item in L.
  destruct (response_time_limit_ms config); [|discriminate].
  injection L as _ <-. injection R as _ <-.
  exists t. auto.
Qed.

(** C1 (amended). When the Baseline probe answers 401 the pipeline stops
    there: the Baseline request is the only exchange of the run, and the
    record holds the Baseline result, empty enum, fuzz, logic and auth
    lists and an empty combinatorial result; its analysis field is unset
    when no analysis was asked for, and otherwise holds the fixed notice
    that authentication failed, the analysis service not being called. *)
Theorem baseline_401_halts :
  forall e config tok user pw po ro co run_ai mode off lim multi include iso
         tr test_url body baseline tr1,
    build_test_url (resolve_base_url e config) e (merge_custom po co)
                   None None include = Ok (test_url, body) ->
    run_baseline test_url (e_method e) (make_auth_headers config tok user pw)
                 config (Some body) e tr = (Ok baseline, tr1) ->
    status_code baseline = Some 401%Z ->
    test_single_endpoint e config tok user pw po ro co run_ai mode off lim
                         multi include iso tr
    = (Ok (Halted
             {| h_baseline := baseline;
                h_enum_results := [];
                h_combinatorial_result :=
                  {| co_results := []; co_total_count := 0;
                     co_offset := off; co_limit := lim |};
                h_logic_findings := [];
                h_granular_fuzz := [];
                h_auth_findings := [];
                h_ai_analysis := if run_ai then Some halted_notice else None |}),
       tr1)
    /\ exists t,
         timeout_seconds config = Some t /\ (0 < t)%Z
         /\ tr1 = (tr ++ [EvHttp (dispatch test_url (e_method e)
                                    (Some (make_auth_headers config tok user pw))
                                    (Some body) t)])%list.
Proof.
  intros e config tok user pw po ro co run_ai mode off lim multi include iso
         tr test_url body baseline tr1 B R S.
  split; [|eapply run_baseline_trace; eassumption].
  unfold test_single_endpoint, bind at 1, liftR. rewrite B.
  unfold bind at 1. rewrite R, S. reflexivity.
Qed.


End PipelineClaims.

(* ================================================================== *)
(** * When discovery returns *)
(* ================================================================== *)

Section DiscoveryProperties.
Context `{PyRuntime} `{Network} `{ContractReader}.

Lemma fetch_swagger_config_returns base_url timeout tr :
  exists groups tr1, fetch_swagger_config base_url timeout tr = (Ok groups, tr1).
Proof.
  unfold fetch_swagger_config, try_except, bind, requests_call.
  destruct (_ <=? 0)%Z; [cbn; unfold ret; eauto|].
  destruct (http_exchange tr _) as [x | resp].
  - cbn. unfold ret. eauto.
  - destruct (r_status_code resp =? 200)%Z; [|unfold ret; eauto].
    destruct (r_json resp); unfold ret; eauto.
Qed.

Lemma fetch_openapi_spec_returns base_url spec_path timeout tr :
  exists spec tr1,
    fetch_openapi_spec base_url spec_path timeout tr = (Ok spec, tr1).
Proof.
  unfold fetch_openapi_spec, try_except, bind, requests_call.
  destruct (_ <=? 0)%Z; [cbn; unfold ret; eauto|].
  destruct (http_exchange tr _) as [x | resp].
  - cbn. unfold ret. eauto.
  - destruct (r_status_code resp =? 200)%Z; [|unfold ret; eauto].
    destruct (r_json resp); unfold ret; eauto.
Qed.

Lemma fetch_groups_returns svc_name svc_url timeout groups :
  forall found tr,
  exists all tr1,
    fetch_groups svc_name svc_url timeout groups found tr = (Ok all, tr1).
Proof.
  induction groups as [|[group_name group_url] rest IH]; intros found tr; cbn.
  - unfold ret. eauto.
  - unfold bind.
    destruct (fetch_openapi_spec_returns svc_url (pystr group_url) timeout tr)
      as (spec & tr1 & E).
    rewrite E. destruct spec as [s|]; [|apply IH].
    destruct (truthy s); [|apply IH].
    destruct (read_contract s); [apply IH | unfold ret; eauto].
Qed.

(** The entries the loop can read are the dicts whose url is text or
    missing; any other entry raises AttributeError. *)
Lemma service_entry_outcome svc :
  (describes_service svc = true /\ exists r, service_entry svc = Ok r)
  \/ (describes_service svc = false
      /\ exists x, is_AttributeError x = true /\ service_entry svc = Raise x).
Proof.
  unfold describes_service, service_entry.
  destruct svc as [|b|z|s|l|d];
    try (right; split; [reflexivity|]; eexists; (split; [|reflexivity]); reflexivity).
  destruct (dict_get "url" d) as [[|b|z|s|l|d']|]; cbn;
    try (right; split; [reflexivity|]; eexists; (split; [|reflexivity]); reflexivity);
    left; split; eauto.
Qed.

Lemma fetch_services_returns timeout svcs :
  forallb describes_service svcs = true ->
  forall found tr,
  exists all tr1, fetch_services timeout svcs found tr = (Ok all, tr1).
Proof.
  induction svcs as [|svc rest IH]; intros D found tr; cbn [fetch_services].
  - unfold ret. eauto.
  - cbn in D. apply andb_true_iff in D as [Ds Dr].
    destruct (service_entry_outcome svc) as [[_ ([name u] & E)] | [N _]];
      [|congruence].
    unfold bind at 1, liftR. rewrite E.
    destruct (u =? EmptyString); [now apply IH|].
    unfold bind.
    destruct (fetch_swagger_config_returns u timeout tr) as (groups & tr1 & E1).
    rewrite E1.
    destruct (fetch_groups_returns name u timeout groups found tr1)
      as (all & tr2 & E2).
    rewrite E2. now apply IH.
Qed.

(** An entry the loop cannot read ends the discovery: nothing that was
    found is returned. *)
Lemma fetch_services_fails timeout svcs :
  forallb describes_service svcs = false ->
  forall found tr,
  exists x tr1,
    is_AttributeError x = true
    /\ fetch_services timeout svcs found tr = (Raise x, tr1).
Proof.
  induction svcs as [|svc rest IH]; intros D found tr; cbn [fetch_services].
  - discriminate.
  - cbn in D.
    destruct (service_entry_outcome svc) as [[Ds ([name u] & E)] | [_ (x & A & E)]].
    + rewrite Ds in D. cbn in D.
      unfold bind at 1, liftR. rewrite E.
      destruct (u =? EmptyString); [now apply IH|].
      unfold bind.
      destruct (fetch_swagger_config_returns u timeout tr) as (groups & tr1 & E1).
      rewrite E1.
      destruct (fetch_groups_returns name u timeout groups found tr1)
        as (all & tr2 & E2).
      rewrite E2. now apply IH.
    + unfold bind, liftR. rewrite E. eauto.
Qed.

(** Filling the cache yields a list of endpoints, possibly empty, when
    every configured service can be read: every failure of the discovery
    itself is caught on the way. *)
Lemma ensure_cache_returns config cached tr :
  forallb describes_service (services config) = true ->
  exists cache tr1, ensure_cache config cached tr = (Ok cache, tr1).
Proof.
  intros D.
  unfold ensure_cache. destruct cached as [|e0 rest]; [|unfold ret; eauto].
  unfold fetch_all_endpoints.
  destruct (services config) as [|svc more].
  - destruct (nonempty (swagger_base_url config)); [|unfold ret; eauto].
    now apply fetch_services_returns.
  - now apply fetch_services_returns.
Qed.

End DiscoveryProperties.

(* ================================================================== *)
(** * The properties at concrete inputs *)
(* ================================================================== *)







(** A body property with an enum and neither example nor default gets the
    fallback of its type, not its first enum value; the declared parameter
    next to it gets its first enum value. *)
Lemma body_property_ignores_enum :
  exists q,
    In q (parse_params order_operation)
    /\ p_name q = "state"
    /\ p_in q = "body"
    /\ p_default q = PNone
    /\ p_enum q = Some [PStr "open"; PStr "closed"]
    /\ p_example q = PStr "test"
    /\ p_example q <> PStr "open".
Proof.
  exists (parse_body_prop ["state"] "state"
            {| bp_description := None; bp_type := Some "string";
               bp_example := PNone; bp_default := PNone;
               bp_enum := Some [PStr "open"; PStr "closed"] |}).
  split; [cbn; right; left; reflexivity|].
  repeat split. cbn. discriminate.
Qed.

Lemma parse_params_witness :
  exists body,
    parse_params order_operation
    = (map parse_param (or_default [] (op_parameters order_operation)) ++ body)%list
    /\ map (fun q => (p_name q, p_in q, p_example q)) body
       = [("state", "body", PStr "test")]
    /\ map (fun q => (p_name q, p_in q, p_example q))
           (map parse_param (or_default [] (op_parameters order_operation)))
       = [("id", "path", PStr "first")].
Proof.
  destruct (parse_params_examples_and_flattening order_operation)
    as (body & E & _).
  exists body. split; [exact E|]. split; [|reflexivity].
  vm_compute in E. injection E as <-. reflexivity.
Defined.

Lemma build_test_url_witness :
  let o1 := Some [("category", PStr "boots"); ("limit", PStr "5")] in
  let o2 := Some [("limit", PStr "5"); ("category", PStr "boots")] in
  let i1 := Some ["category"; "limit"] in
  let i2 := Some ["limit"; "category"; "limit"] in
  same_mapping o1 o2 /\ same_names i1 i2
  /\ @build_test_url plain_runtime "http://shop.test/" items_endpoint o1 None None i1
     = @build_test_url plain_runtime "http://shop.test/" items_endpoint o2 None None i2
  /\ @build_test_url plain_runtime "http://shop.test/" items_endpoint o1 None None i1
     = Ok ("http://shop.test/items/7?category=boots&limit=5", []).
Proof.
  intros o1 o2 i1 i2.
  assert (M : same_mapping o1 o2).
  { intros k. cbv [dict_get].
    destruct ("category" =? k) eqn:E1; destruct ("limit" =? k) eqn:E2;
      try reflexivity.
    apply String.eqb_eq in E1. apply String.eqb_eq in E2.
    rewrite <- E1 in E2. discriminate E2. }
  assert (N : same_names i1 i2).
  { intros x. cbv [mem existsb].
    destruct (x =? "category"); destruct (x =? "limit"); reflexivity. }
  split; [exact M|]. split; [exact N|]. split.
  - exact (@build_test_url_deterministic plain_runtime "http://shop.test/"
             items_endpoint o1 o2 None None None None i1 i2 M I I N).
  - reflexivity.
Defined.

Lemma multi_value_pool_witness :
  let tags := sample_param "tags" "query" false (PStr "x") "string" in
  let bo := Some [("tags", PStr "a,b")] in
  @seen_candidates plain_runtime tags bo [] ["tags"]
  = [Multi ["a"]; Multi ["b"]; Multi ["a"; "b"]]
  /\ @pool_of plain_runtime tags bo [] ["tags"] ["tags"]
     = [Multi ["a"]; Multi ["b"]; Multi ["a"; "b"]; Absent].
Proof.
  intros tags bo.
  destruct (@multi_value_pool_is_power_set plain_runtime tags bo [] ["tags"] ["tags"]
              eq_refl eq_refl)
    as (_ & _ & _ & _ & P & S).
  split.
  - apply S. reflexivity.
  - rewrite P; [reflexivity | discriminate].
Defined.

Lemma value_pool_witness :
  let acc := @build_pools plain_runtime (e_params items_endpoint) None [] []
                          ["category"; "limit"] in
  dict_get "category" (fst acc) = Some [Single "shoes"; Absent]
  /\ dict_get "category" (snd acc) = Some (Single "shoes").
Proof.
  intros acc.
  destruct (@value_pool_sentinel_and_baseline plain_runtime items_endpoint
              None None None (Some ["category"; "limit"])
              [sample_param "id" "path" true (PStr "7") "string"]
              (sample_param "category" "query" true (PStr "shoes") "string")
              [sample_param "tags" "query" false (PStr "x") "string";
               sample_param "limit" "query" false (PStr "10") "integer"]
              eq_refl
              ltac:(intros q [<- | [<- | []]]; discriminate))
    as ((pool & G & _ & S & _) & B & _).
  rewrite (S eq_refl eq_refl) in G. split; [exact G|].
  destruct (B _ _ G) as (base & rest & E & Gb). injection E as <- _. exact Gb.
Defined.

(** Two parameters of one name: the pool recorded for the name is the
    pool of the later, optional one, so the required path parameter is
    given the sentinel although a sample was collected for it. *)
Lemma later_parameter_replaces_pool :
  let p := sample_param "id" "path" true (PStr "7") "string" in
  let q := sample_param "id" "query" false (PStr "7") "string" in
  let bo := Some [("id", PStr "x")] in
  let acc := @build_pools plain_runtime [p; q] bo [] [] ["id"] in
  p_required p = true
  /\ @collect_samples plain_runtime p bo [] <> []
  /\ @pool_of plain_runtime p bo [] [] ["id"] = [Single "x"]
  /\ dict_get (p_name p) (fst acc) = Some [Single "x"; Absent]
  /\ In Absent (pool_at (fst acc) (p_name p)).
Proof.
  intros p q bo acc. split; [reflexivity|]. split; [discriminate|].
  split; [reflexivity|]. split; [reflexivity|]. cbn. auto.
Qed.


(** The sample endpoint with [tags] expanded and [limit] isolated, the
    path parameter left out of the inclusion filter: 2 * 4 combinations
    from the main pools and one from the sweep; the window at offset 6 is
    tested with three exchanges. *)
Lemma combination_count_witness :
  let bo := Some [("tags", PStr "a,b"); ("limit", PStr "5")] in
  let inc := Some ["category"; "tags"; "limit"] in
  exists r tr1,
    @run_combinatorial_tests plain_runtime (constant_peer 200) items_endpoint
      "http://shop.test" [] sample_config bo "full" 6 3 (Some ["tags"]) inc None
      (Some ["limit"]) []
    = (Ok r, tr1)
    /\ co_total_count r = 9%Z
    /\ map cr_params_used (co_results r)
       = [[("id", Single "7"); ("category", Absent);
           ("tags", Multi ["a"; "b"]); ("limit", Single "5")];
          [("id", Single "7"); ("category", Absent);
           ("tags", Absent); ("limit", Single "5")];
          [("id", Single "7"); ("category", Single "shoes");
           ("tags", Multi ["a"]); ("limit", Absent)]]
    /\ List.length tr1 = 3.
Proof.
  intros bo inc.
  destruct (@combination_count_and_window plain_runtime (constant_peer 200)
              items_endpoint "http://shop.test" [] sample_config bo
              (Some ["tags"]) inc None (Some ["limit"]) 6 3
              ltac:(discriminate) ltac:(lia) ltac:(lia))
    as (_ & _ & Ret & Succ).
  destruct (Succ "full" []) as (r & tr1 & E).
  - intros n Hn. cbn in Hn |- *. tauto.
  - exists 10%Z. split; [reflexivity | lia].
  - intros tr rq. eexists. split; reflexivity.
  - apply path_values_checked. vm_compute. reflexivity.
  - exists r, tr1. split; [exact E|].
    destruct (Ret "full" [] r tr1 E) as (T & _ & _ & W & Tr).
    split; [rewrite T; reflexivity|]. split; [rewrite W; reflexivity|].
    rewrite Tr. reflexivity.
Defined.


(** The nine combinations of the same call, read in three windows of
    three; the window at offset 3 is read twice, the second time after
    the first window was tested. *)
Lemma pagination_witness :
  let bo := Some [("tags", PStr "a,b"); ("limit", PStr "5")] in
  let inc := Some ["category"; "tags"; "limit"] in
  let run := @run_combinatorial_tests plain_runtime (constant_peer 200) items_endpoint
               "http://shop.test" [] sample_config bo "full" in
  window_offsets 9 3 = [0; 3; 6]%Z
  /\ exists r0 r3 r3' r6 tr0 tr3 tr3' tr6 all baseline,
      run 0%Z 3%Z (Some ["tags"]) inc None (Some ["limit"]) [] = (Ok r0, tr0)
      /\ run 3%Z 3%Z (Some ["tags"]) inc None (Some ["limit"]) [] = (Ok r3, tr3)
      /\ run 3%Z 3%Z (Some ["tags"]) inc None (Some ["limit"]) tr0 = (Ok r3', tr3')
      /\ run 6%Z 3%Z (Some ["tags"]) inc None (Some ["limit"]) [] = (Ok r6, tr6)
      /\ co_total_count r0 = 9%Z /\ co_total_count r3 = 9%Z
      /\ co_total_count r6 = 9%Z
      /\ map cr_params_used (co_results r3) = map cr_params_used (co_results r3')
      /\ @enumerate plain_runtime items_endpoint bo (Some ["tags"]) inc None
                    (Some ["limit"]) = Ok (all, baseline)
      /\ (map cr_params_used (co_results r0) ++ map cr_params_used (co_results r3)
          ++ map cr_params_used (co_results r6))%list = all.
Proof.
  intros bo inc run. split; [reflexivity|].
  destruct (@pagination_is_idempotent_and_total_preserving plain_runtime
              (constant_peer 200) items_endpoint "http://shop.test" [] sample_config
              bo (Some ["tags"]) inc None (Some ["limit"]) ltac:(discriminate))
    as (Tot & Same & Cover & Succ).
  assert (K : forall n, In n (effective_include items_endpoint inc) ->
                        In n (map p_name (e_params items_endpoint))).
  { intros n Hn. cbn in Hn |- *. tauto. }
  assert (P : positive_timeout sample_config).
  { exists 10%Z. split; [reflexivity | lia]. }
  assert (A : @answering_peer plain_runtime (constant_peer 200)).
  { intros tr rq. eexists. split; reflexivity. }
  pose proof (fun off tr =>
                Succ "full" off 3%Z tr K P A
                     ltac:(apply path_values_checked; vm_compute; reflexivity)) as Run.
  destruct (Run 0%Z []) as (r0 & tr0 & E0).
  destruct (Run 3%Z []) as (r3 & tr3 & E3).
  destruct (Run 3%Z tr0) as (r3' & tr3' & E3').
  destruct (Run 6%Z []) as (r6 & tr6 & E6).
  exists r0, r3, r3', r6, tr0, tr3, tr3', tr6.
  eexists. eexists.
  split; [exact E0|]. split; [exact E3|]. split; [exact E3'|]. split; [exact E6|].
  split; [rewrite (Tot _ _ _ _ _ _ E0); reflexivity|].
  split; [rewrite (Tot _ _ _ _ _ _ E3); reflexivity|].
  split; [rewrite (Tot _ _ _ _ _ _ E6); reflexivity|].
  split; [apply (Same _ _ _ _ _ _ _ _ _ E3 E3')|].
  split; [reflexivity|].
  pose proof (Cover 3%Z [r0; r3; r6] ltac:(lia)) as C.
  cbn [map concat] in C. rewrite app_nil_r in C. apply C.
  repeat constructor; eexists; eexists; eassumption.
Defined.


(** With analysis requested, the record of a run halted by a 401 holds
    the notice in its analysis field. *)
Lemma halted_record_carries_notice :
  exists h tr1,
    @test_single_endpoint plain_runtime (constant_peer 401) items_endpoint
      sample_config (Some "secret") None None None None None true "minimal"
      0 64 None None None []
    = (Ok (Halted h), tr1)
    /\ status_code (h_baseline h) = Some 401%Z
    /\ h_ai_analysis h = Some halted_notice
    /\ h_ai_analysis h <> None.
Proof.
  eexists. eexists. split; [vm_compute; reflexivity|].
  split; [reflexivity|]. split; [reflexivity | discriminate].
Qed.

Lemma baseline_401_witness :
  exists baseline,
    status_code baseline = Some 401%Z
    /\ @test_single_endpoint plain_runtime (constant_peer 401) items_endpoint
         sample_config (Some "secret") None None None None None false "full"
         3 9 None None None []
       = (Ok (Halted
                {| h_baseline := baseline;
                   h_enum_results := [];
                   h_combinatorial_result :=
                     {| co_results := []; co_total_count := 0;
                        co_offset := 3; co_limit := 9 |};
                   h_logic_findings := [];
                   h_granular_fuzz := [];
                   h_auth_findings := [];
                   h_ai_analysis := None |}),
          [EvHttp
             {| q_verb := GET;
                q_url := "http://shop.test/items/7?category=shoes&tags=x&limit=10";
                q_headers := Some [("Authorization", "Bearer secret")];
                q_json := None; q_timeout := 10 |}]).
Proof.
  destruct (@run_baseline plain_runtime (constant_peer 401)
              "http://shop.test/items/7?category=shoes&tags=x&limit=10" "GET"
              [("Authorization", "Bearer secret")] sample_config (Some [])
              items_endpoint []) as [[baseline | x] tr1] eqn:R;
    [|discriminate R].
  assert (S : status_code baseline = Some 401%Z).
  { revert R. vm_compute. intros [= <- _]. reflexivity. }
  exists baseline. split; [exact S|].
  destruct (@baseline_401_halts plain_runtime (constant_peer 401) items_endpoint
              sample_config (Some "secret") None None None None None false "full"
              3%Z 9%Z None None None []
              "http://shop.test/items/7?category=shoes&tags=x&limit=10" []
              baseline tr1 eq_refl R S) as [T (t & Et & _ & Tr)].
  injection Et as <-. rewrite T, Tr. reflexivity.
Defined.



(** With an empty cache the discovery request goes out before the index
    is looked at: the rejection comes after one exchange. *)
Lemma rejection_follows_discovery :
  let data :=
    {| d_index := Some 0%Z; d_auth_token := None; d_auth_mode := None;
       d_username := None; d_password := None; d_params := None;
       d_random_params := None; d_custom_params := None; d_run_ai := None;
       d_combinatorial_mode := None; d_comb_offset := None;
       d_comb_limit := None; d_multi_params := None;
       d_include_params := None; d_isolated_params := None |} in
  @run_test plain_runtime (constant_peer 200) no_reader sample_config [] data []
  = (ReplyError 400 "Invalid endpoint index", [],
     [EvHttp (plain_get "http://shop.test/v3/api-docs/swagger-config" 10)]).
Proof. reflexivity. Qed.

(** An included name that is no parameter of the endpoint makes the
    generator fail on the lookup of its pool. *)
Lemma unknown_included_name_raises :
  @run_combinatorial_tests plain_runtime (constant_peer 200) items_endpoint
    "http://shop.test" [] sample_config None "full" 0 10 None (Some ["colour"])
    None None []
  = (Raise (KeyError "colour"), []).
Proof. reflexivity. Qed.

(* ================================================================== *)
(** * Further properties of the value pools and of the enumeration *)
(* ================================================================== *)

Lemma dict_get_keys {V} (d : list (string * V)) k :
  dict_get k d <> None <-> In k (keys d).
Proof.
  unfold keys. induction d as [|[k' v] d IH]; cbn; [tauto|].
  destruct (k' =? k) eqn:E.
  - apply String.eqb_eq in E. split; [auto | discriminate].
  - apply String.eqb_neq in E. rewrite IH. tauto.
Qed.

Lemma keys_dict_set {V} (d : list (string * V)) k v :
  In k (keys d) -> keys (dict_set k v d) = keys d.
Proof.
  unfold keys. induction d as [|[k' v'] d IH]; cbn; [tauto|].
  destruct (k' =? k) eqn:E; [reflexivity|]. apply String.eqb_neq in E.
  intros [? | I]; [congruence|]. cbn. now rewrite IH.
Qed.

Lemma assign_from (names : list string) :
  forall (combo : list PoolValue) (d : Combination),
    (forall n, In n names -> In n (keys d)) ->
    keys (fold_left (fun acc nv => dict_set (fst nv) (snd nv) acc)
                    (combine names combo) d) = keys d
    /\ forall n, ~ In n names ->
         dict_get n (fold_left (fun acc nv => dict_set (fst nv) (snd nv) acc)
                               (combine names combo) d)
         = dict_get n d.
Proof.
  induction names as [|m rest IH]; intros combo d K; cbn [combine fold_left];
    [split; auto|].
  destruct combo as [|v vs]; cbn [combine fold_left fst snd]; [split; auto|].
  destruct (IH vs (dict_set m v d)) as [Kq Gq].
  { intros n Hn. rewrite keys_dict_set; apply K; cbn; auto. }
  split.
  - rewrite Kq. apply keys_dict_set. apply K. now left.
  - intros n Hn. rewrite Gq by (intros I; apply Hn; now right).
    rewrite dict_get_set.
    destruct (m =? n) eqn:E; [|reflexivity].
    apply String.eqb_eq in E. exfalso. apply Hn. now left.
Qed.

Section PoolInvariants.
Context `{PyRuntime}.

(** X1. Every value pool is non-empty and holds no value twice, for an
    included and for an excluded parameter alike; so does every pool kept
    in [parameter_pools]. *)
Theorem value_pools_nonempty_without_repeats :
  forall bo ro multi include,
    (forall p, pool_of p bo ro multi include <> []
               /\ NoDup (pool_of p bo ro multi include))
    /\ (forall params name pool,
          dict_get name (fst (build_pools params bo ro multi include)) = Some pool ->
          pool <> [] /\ NoDup pool).
Proof.
  intros bo ro multi include. split.
  - intros p. split; [apply pool_of_nonempty | apply pool_of_NoDup].
  - intros params name pool G.
    destruct (build_pools_agree params bo ro multi include) as [I1 _].
    destruct (I1 name pool G) as [(q & _ & _ & ->) _].
    split; [apply pool_of_nonempty | apply pool_of_NoDup].
Qed.

Lemma lower_samples_app (s : list string) x :
  map lower (s ++ [x]) = (map lower s ++ [lower x])%list.
Proof. now rewrite map_app. Qed.

(** X2. The samples collected for a parameter of type boolean always
    hold a spelling of "true" and a spelling of "false" (compared in lower
    case), whatever the user supplied; when the parameter is included and
    not flagged for multi-value testing both are in its pool. *)
Theorem boolean_parameters_cover_both_values :
  forall p bo ro multi include,
    p_type p = "boolean" ->
    let samples := collect_samples p bo ro in
    exists t f,
      In t samples /\ lower t = "true"
      /\ In f samples /\ lower f = "false"
      /\ (mem (p_name p) include = true -> mem (p_name p) multi = false ->
          In (Single t) (pool_of p bo ro multi include)
          /\ In (Single f) (pool_of p bo ro multi include)).
Proof.
  intros p bo ro multi include Ty samples.
  assert (S : exists t f, In t samples /\ lower t = "true"
                          /\ In f samples /\ lower f = "false").
  { unfold samples, collect_samples. rewrite Ty. cbn [String.eqb Ascii.eqb Bool.eqb].
    match goal with
    | |- context [if mem "true" (map lower ?s) then _ else _] => set (s2 := s)
    end.
    set (s3 := if mem "true" (map lower s2) then s2 else (s2 ++ ["true"])%list).
    assert (T : exists t, In t s3 /\ lower t = "true").
    { unfold s3. destruct (mem "true" (map lower s2)) eqn:M.
      - apply mem_In, in_map_iff in M as [t [E I]]. eauto.
      - exists "true". split; [apply in_or_app; right; now left | reflexivity]. }
    destruct T as [t [It Et]].
    destruct (mem "false" (map lower s3)) eqn:M.
    - apply mem_In, in_map_iff in M as [f [E I]]. exists t, f. auto.
    - exists t, "false". repeat split; auto.
      + apply in_or_app. now left.
      + apply in_or_app. right. now left. }
  destruct S as (t & f & It & Et & If & Ef).
  exists t, f.
  split; [exact It|]. split; [exact Et|]. split; [exact If|]. split; [exact Ef|].
  intros Inc Mu.
  assert (P : forall s, In s samples -> In (Single s) (pool_of p bo ro multi include)).
  { intros s Is. unfold pool_of. rewrite Inc. cbn [negb].
    assert (Sn : In (Single s) (seen_candidates p bo ro multi)).
    { unfold seen_candidates, candidates_of. rewrite Mu.
      apply dedup_spec. now apply in_map. }
    unfold final_pool. destruct (seen_candidates p bo ro multi); [destruct Sn|].
    destruct (_ && _); [apply in_or_app; now left | assumption]. }
  split; apply P; assumption.
Qed.

Lemma baseline_has_pool_keys params bo ro multi include name pool :
  dict_get name (fst (build_pools params bo ro multi include)) = Some pool ->
  In name (keys (snd (build_pools params bo ro multi include))).
Proof.
  intros G. destruct (build_pools_agree params bo ro multi include) as [I1 _].
  destruct (I1 name pool G) as [_ B]. apply dict_get_keys. congruence.
Qed.

(** X3. Every enumerated combination gives a value to exactly the
    parameters of the baseline, in the same order.  The enumeration is
    made of a main part, whose combinations keep the baseline value of
    every parameter outside the main pool (excluded or isolated), and of
    sweeps, each of whose combinations differs from the baseline in one
    isolated parameter and in no other. *)
Theorem combinations_are_complete_assignments :
  forall e bo multi include ro isolated all baseline,
    enumerate e bo multi include ro isolated = Ok (all, baseline) ->
    let main := filter (fun n => negb (mem n (or_default [] isolated)))
                       (effective_include e include) in
    exists main_part sweeps,
      all = (main_part ++ sweeps)%list
      /\ (forall c, In c main_part ->
            keys c = keys baseline
            /\ forall n, ~ In n main -> dict_get n c = dict_get n baseline)
      /\ (forall c, In c sweeps ->
            exists name v,
              In name (or_default [] isolated)
              /\ keys c = keys baseline
              /\ dict_get name c = Some v
              /\ dict_get name baseline <> Some v
              /\ forall n, n <> name -> dict_get n c = dict_get n baseline).
Proof.
  intros e bo multi include ro isolated all baseline E main.
  unfold enumerate in E.
  set (acc := build_pools (e_params e) bo (or_default [] ro) (or_default [] multi)
                          (effective_include e include)) in *.
  assert (Kb : forall name pool, dict_get name (fst acc) = Some pool ->
                                 In name (keys (snd acc))).
  { intros name pool. apply baseline_has_pool_keys. }
  assert (Hb : forall name pool, dict_get name (fst acc) = Some pool ->
                                 dict_get name (snd acc) = Some (pool_head pool)).
  { intros name pool G.
    destruct (build_pools_agree (e_params e) bo (or_default [] ro)
                (or_default [] multi) (effective_include e include)) as [I1 _].
    now destruct (I1 name pool G). }
  assert (Nd : forall name pool, dict_get name (fst acc) = Some pool ->
                                 pool <> [] /\ NoDup pool).
  { intros name pool G.
    destruct (build_pools_agree (e_params e) bo (or_default [] ro)
                (or_default [] multi) (effective_include e include)) as [I1 _].
    destruct (I1 name pool G) as [(q & _ & _ & ->) _].
    split; [apply pool_of_nonempty | apply pool_of_NoDup]. }
  destruct acc as [pools base] eqn:Eacc. cbn [fst snd] in *.
  unfold all_combos in E. fold main in E.
  destruct (lookup_pools pools main) as [main_pools|x] eqn:L; [|discriminate].
  injection E as <- <-.
  eexists. eexists. split; [reflexivity|]. split.
  - intros c Hc. apply in_map_iff in Hc as [combo [<- _]]. unfold assign.
    apply assign_from. intros n Hn.
    apply lookup_pools_found in L.
    assert (G : exists pool, dict_get n pools = Some pool).
    { clear - L Hn. induction L as [|m pool ms ps Hm L IH]; [destruct Hn|].
      destruct Hn as [<- | Hn]; eauto. }
    destruct G as [pool G]. eapply Kb; eassumption.
  - intros c Hc. apply in_flat_map in Hc as [name [Hname Hc]].
    unfold isolated_sweep in Hc.
    destruct (dict_get name pools) as [full_pool|] eqn:G; [|destruct Hc].
    apply in_map_iff in Hc as [v [<- Hv]]. apply filter_In in Hv as [_ Hv].
    rewrite (Hb name full_pool G) in Hv. cbn [or_default] in Hv.
    apply negb_true_iff, pv_eqb_neq in Hv.
    exists name, v. split; [exact Hname|].
    split; [apply keys_dict_set; eapply Kb; eassumption|].
    split; [rewrite dict_get_set, String.eqb_refl; reflexivity|].
    split; [rewrite (Hb name full_pool G); congruence|].
    intros n Hn. rewrite dict_get_set.
    destruct (name =? n) eqn:En; [|reflexivity].
    apply String.eqb_eq in En. congruence.
Qed.

End PoolInvariants.

(* ================================================================== *)
(** * Further properties of the request builder *)
(* ================================================================== *)

Lemma keys_dict_set_incl {V} (d : list (string * V)) k v x :
  In x (keys (dict_set k v d)) -> x = k \/ In x (keys d).
Proof.
  unfold keys. induction d as [|[k' v'] d IH]; cbn.
  - intros [<- | []]. now left.
  - destruct (k' =? k) eqn:E; cbn.
    + tauto.
    + intros [<- | I]; [tauto|]. apply IH in I. tauto.
Qed.

Lemma keys_dict_set_mono {V} (d : list (string * V)) k v x :
  In x (keys d) -> In x (keys (dict_set k v d)).
Proof.
  unfold keys. induction d as [|[k' v'] d IH]; cbn; [tauto|].
  destruct (k' =? k); cbn; tauto.
Qed.

Section BuilderFurther.
Context `{PyRuntime}.

(** X4. Building a request fails exactly when some path parameter that is
    not skipped is given an override that is not text (the absence
    sentinel, a number, a list): then, and only then, it raises
    TypeError.  Without an override mapping, or with an empty one, it
    never fails. *)
Theorem build_test_url_fails_on_non_text_path_override :
  forall base e o s m i,
    (existsb (bad_path_override o s) (e_params e) = true
     <-> exists x, build_test_url base e o s m i = Raise x)
    /\ (forall x, build_test_url base e o s m i = Raise x ->
                  is_TypeError x = true)
    /\ (exists r, build_test_url base e None s m i = Ok r)
    /\ (exists r, build_test_url base e (Some []) s m i = Ok r).
Proof.
  intros base e o s m i.
  assert (Free : forall o', (forall n, truthy_lookup n o' = None) ->
                            exists r, build_test_url base e o' s m i = Ok r).
  { intros o' N. unfold build_test_url.
    destruct (build_params_outcome o' s m i (e_params e) (e_path e, [])) as [_ G].
    destruct G as [[path query] ->]; [|eauto].
    apply not_true_is_false. intros B. apply existsb_exists in B as [p [_ B]].
    unfold bad_path_override in B. rewrite N in B.
    now rewrite andb_false_r in B. }
  split; [|split; [apply build_raises_TypeError | split; apply Free; reflexivity]].
  destruct (build_test_url_outcome base e o s m i)
    as [[B (x & _ & E)] | [B (r & E)]]; rewrite B, E.
  - split; eauto.
  - split; [discriminate | intros [x X]; discriminate].
Qed.

Lemma build_step_path o s m1 m2 i1 i2 path q1 q2 p :
  path_of (build_step o s m1 i1 (path, q1) p)
  = path_of (build_step o s m2 i2 (path, q2) p).
Proof.
  unfold build_step.
  destruct (opt_mem (p_name p) s); [reflexivity|].
  destruct (p_in p =? "path") eqn:P.
  - rewrite !andb_false_r.
    destruct (truthy_lookup (p_name p) o) as [[| | | | |]|]; reflexivity.
  - rewrite !andb_true_r.
    assert (Q : forall m i q,
               path_of (if filtered_out (p_name p) i then Ok (path, q)
                        else if p_in p =? "query"
                             then if opt_mem (p_name p) m
                                  then Ok (path, dict_set (p_name p) (PStr EmptyString) q)
                                  else match o with
                                       | Some d =>
                                           match dict_get (p_name p) d with
                                           | Some v =>
                                               if not_none v
                                               then Ok (path, dict_set (p_name p) v q)
                                               else Ok (path, q)
                                           | None =>
                                               if p_required p
                                               then Ok (path, dict_set (p_name p)
                                                                (PStr (example_or_default p)) q)
                                               else Ok (path, q)
                                           end
                                       | None =>
                                           if not_none (p_example p)
                                           then Ok (path, dict_set (p_name p)
                                                            (PStr (pystr (p_example p))) q)
                                           else if not_none (p_default p)
                                                then Ok (path, dict_set (p_name p)
                                                                 (PStr (pystr (p_default p))) q)
                                                else Ok (path, q)
                                       end
                             else Ok (path, q))
               = Ok path).
    { intros m i q. destruct (filtered_out (p_name p) i); [reflexivity|].
      destruct (p_in p =? "query"); [|reflexivity].
      destruct (opt_mem (p_name p) m); [reflexivity|].
      destruct o as [d|].
      - destruct (dict_get (p_name p) d) as [v|].
        + destruct (not_none v); reflexivity.
        + destruct (p_required p); reflexivity.
      - destruct (not_none (p_example p)); [reflexivity|].
        destruct (not_none (p_default p)); reflexivity. }
    now rewrite !Q.
Qed.

Lemma build_params_path o s m1 m2 i1 i2 params :
  forall path q1 q2,
    path_of (build_params o s m1 i1 params (path, q1))
    = path_of (build_params o s m2 i2 params (path, q2)).
Proof.
  induction params as [|p rest IH]; intros path q1 q2; cbn [build_params];
    [reflexivity|].
  pose proof (build_step_path o s m1 m2 i1 i2 path q1 q2 p) as E.
  destruct (build_step o s m1 i1 (path, q1) p) as [[pa qa]|xa];
    destruct (build_step o s m2 i2 (path, q2) p) as [[pb qb]|xb];
    cbn in E; try discriminate.
  - injection E as <-. apply IH.
  - exact E.
Qed.

Lemma build_params_nothing_included o s params :
  forall path q,
    match build_params o s None (Some []) params (path, q) with
    | Ok (_, q') => q' = q
    | Raise _ => True
    end.
Proof.
  induction params as [|p rest IH]; intros path q; cbn [build_params];
    [reflexivity|].
  assert (S : match build_step o s None (Some []) (path, q) p with
              | Ok (_, q') => q' = q
              | Raise _ => True
              end).
  { unfold build_step. destruct (opt_mem (p_name p) s); [reflexivity|].
    cbn [filtered_out mem existsb negb andb].
    destruct (p_in p =? "path"); cbn [negb].
    - destruct (truthy_lookup (p_name p) o) as [[| | | | |]|]; exact I || reflexivity.
    - reflexivity. }
  destruct (build_step o s None (Some []) (path, q) p) as [[p' q']|x]; [|exact I].
  subst q'. apply IH.
Qed.

(** X5. The path of the request does not depend on the inclusion filter
    nor on the empty-set: path parameters are substituted whatever the
    filter says, and a build fails under one filter exactly when it fails
    under another.  With an empty inclusion filter (and no empty-set) the
    request is the bare path: no query string and no body field. *)
Theorem path_parameters_ignore_the_filter :
  forall base e o s,
    (forall m1 m2 i1 i2,
        path_of (build_params o s m1 i1 (e_params e) (e_path e, []))
        = path_of (build_params o s m2 i2 (e_params e) (e_path e, [])))
    /\ (forall m i,
          build_test_url base e o s None (Some [])
          = match path_of (build_params o s m i (e_params e) (e_path e, [])) with
            | Ok path => Ok (rstrip_slash base ++ path, [])
            | Raise x => Raise x
            end).
Proof.
  intros base e o s. split.
  - intros. apply build_params_path.
  - intros m i. unfold build_test_url.
    pose proof (build_params_path o s m None i (Some []) (e_params e) (e_path e)
                                  [] []) as P.
    pose proof (build_params_nothing_included o s (e_params e) (e_path e) []) as Q.
    unfold pydict in *.
    destruct (build_params o s None (Some []) (e_params e) (e_path e, []))
      as [[path q]|x]; cbn [path_of] in P; rewrite P; [|reflexivity].
    subst q. f_equal. f_equal.
    unfold build_body. destruct (e_request_body_schema e) as [schema|]; [|reflexivity].
    destruct (schema_truthy schema); [|reflexivity].
    induction (properties_of schema) as [|[name prop] rest IH]; [reflexivity|].
    cbn [fold_left body_step filtered_out mem existsb negb]. exact IH.
Qed.

Lemma build_step_keys o s m i path q p path' q' :
  build_step o s m i (path, q) p = Ok (path', q') ->
  forall k, In k (keys q') ->
    In k (keys q)
    \/ (k = p_name p /\ p_in p = "query"
        /\ opt_mem k s = false /\ filtered_out k i = false).
Proof.
  unfold build_step.
  destruct (opt_mem (p_name p) s) eqn:Sk; [intros [= <- <-]; auto|].
  destruct (p_in p =? "path") eqn:P.
  - rewrite andb_false_r.
    destruct (truthy_lookup (p_name p) o) as [[| | | | |]|]; try discriminate;
      intros [= <- <-]; auto.
  - rewrite andb_true_r.
    destruct (filtered_out (p_name p) i) eqn:F; [intros [= <- <-]; auto|].
    destruct (p_in p =? "query") eqn:Q; [|intros [= <- <-]; auto].
    apply String.eqb_eq in Q.
    assert (Set_ : forall v k, In k (keys (dict_set (p_name p) v q)) ->
              In k (keys q)
              \/ (k = p_name p /\ p_in p = "query"
                  /\ opt_mem k s = false /\ filtered_out k i = false)).
    { intros v k Hk. apply keys_dict_set_incl in Hk as [-> | Hk]; auto. }
    destruct (opt_mem (p_name p) m); [intros [= <- <-]; apply Set_|].
    destruct o as [d|].
    + destruct (dict_get (p_name p) d) as [v|].
      * destruct (not_none v); intros [= <- <-]; [apply Set_ | auto].
      * destruct (p_required p); intros [= <- <-]; [apply Set_ | auto].
    + destruct (not_none (p_example p)); [intros [= <- <-]; apply Set_|].
      destruct (not_none (p_default p)); intros [= <- <-]; [apply Set_ | auto].
Qed.

Lemma build_params_keys o s m i params :
  forall path q path' q',
    build_params o s m i params (path, q) = Ok (path', q') ->
    forall k, In k (keys q') ->
      In k (keys q)
      \/ (query_param_named params k
          /\ opt_mem k s = false /\ filtered_out k i = false).
Proof.
  induction params as [|p rest IH]; intros path q path' q'; cbn [build_params].
  - intros [= <- <-]. auto.
  - destruct (build_step o s m i (path, q) p) as [[p1 q1]|x] eqn:E; [|discriminate].
    intros R k Hk. destruct (IH p1 q1 path' q' R k Hk) as [Hq | (N & S & F)].
    + destruct (build_step_keys o s m i path q p p1 q1 E k Hq)
        as [Hq0 | (-> & Q & S & F)]; [auto|].
      right. split; [|auto]. exists p. cbn. auto.
    + right. split; [|auto]. destruct N as (p' & I & N & Q).
      exists p'. cbn. auto.
Qed.

Lemma build_body_keys e o i k :
  In k (keys (build_body e o i)) ->
  filtered_out k i = false
  /\ exists schema, e_request_body_schema e = Some schema
                    /\ In k (keys (properties_of schema)).
Proof.
  unfold build_body. destruct (e_request_body_schema e) as [schema|]; [|intros []].
  destruct (schema_truthy schema); [|intros []].
  intros Hk.
  assert (G : forall props acc,
             In k (keys (fold_left (body_step o i (required_of schema)) props acc)) ->
             In k (keys acc)
             \/ (filtered_out k i = false /\ In k (keys props))).
  { induction props as [|[name prop] rest IH]; intros acc; cbn [fold_left];
      [auto|].
    intros I. apply IH in I as [I | [F I]]; [|right; split; [exact F | now right]].
    unfold body_step in I.
    destruct (filtered_out name i) eqn:F; [auto|].
    assert (Set_ : forall v, In k (keys (dict_set name v acc)) ->
              In k (keys acc)
              \/ (filtered_out k i = false /\ In k (keys ((name, prop) :: rest)))).
    { intros v Hv. apply keys_dict_set_incl in Hv as [-> | Hv]; [|auto].
      right. split; [exact F | now left]. }
    assert (Spec : In k (keys (body_from_spec name prop acc)) ->
              In k (keys acc)
              \/ (filtered_out k i = false /\ In k (keys ((name, prop) :: rest)))).
    { unfold body_from_spec. destruct (not_none _); [apply Set_|].
      repeat match goal with
             | |- context [match ?x with _ => _ end] => destruct x
             end; try apply Set_; auto. }
    destruct o as [d|]; [|apply Spec; exact I].
    destruct (dict_get name d) as [v|].
    - destruct (not_none v); [apply Set_ in I; exact I | auto].
    - destruct (mem name (required_of schema)); [apply Spec; exact I | auto]. }
  apply G in Hk as [[] | [F I]]. split; [exact F|]. eauto.
Qed.

(** X6. Only what passes the filters reaches the request: every key of
    the query string is the name of a query parameter that is neither in
    the skip-set nor left out by the inclusion filter, and every field of
    the JSON body is a property of the request-body schema that the
    inclusion filter lets through. *)
Theorem request_holds_only_filtered_parameters :
  forall base e o s m i url body,
    build_test_url base e o s m i = Ok (url, body) ->
    (exists path query,
        build_params o s m i (e_params e) (e_path e, []) = Ok (path, query)
        /\ url = url_of base path query
        /\ forall k, In k (keys query) ->
             query_param_named (e_params e) k
             /\ opt_mem k s = false /\ filtered_out k i = false)
    /\ (forall k, In k (keys body) ->
          filtered_out k i = false
          /\ exists schema, e_request_body_schema e = Some schema
                            /\ In k (keys (properties_of schema))).
Proof.
  intros base e o s m i url body. unfold build_test_url.
  destruct (build_params o s m i (e_params e) (e_path e, [])) as [[path query]|x] eqn:E;
    [|discriminate].
  intros [= <- <-]. split.
  - exists path, query. split; [reflexivity|]. split.
    + unfold url_of. destruct query; reflexivity.
    + intros k Hk.
      destruct (build_params_keys o s m i (e_params e) _ _ _ _ E k Hk) as [[] | R].
      exact R.
  - intros k. apply build_body_keys.
Qed.

Lemma build_step_untouched o name st p :
  (p_name p = name -> p_in p <> "path" /\ p_in p <> "query") ->
  forall i,
    build_step o (Some [name]) None i st p = build_step o None None i st p
    /\ build_step o None (Some [name]) i st p = build_step o None None i st p.
Proof.
  intros Hn i. unfold build_step. destruct st as [path query].
  cbn [opt_mem mem existsb]. rewrite orb_false_r.
  destruct (p_name p =? name) eqn:E.
  - apply String.eqb_eq in E. destruct (Hn E) as [Np Nq].
    apply String.eqb_neq in Np. apply String.eqb_neq in Nq.
    rewrite Np, Nq. destruct (filtered_out _ _ && _); split; reflexivity.
  - split; reflexivity.
Qed.

(** X7. Skipping or emptying a name that is neither a path nor a query
    parameter changes nothing in the request: for a field of the request
    body, the request built for the removal test and the one built for the
    empty-value test are the request built without either. *)
Theorem skipping_a_body_field_changes_nothing :
  forall base e o i name,
    (forall p, In p (e_params e) -> p_name p = name ->
               p_in p <> "path" /\ p_in p <> "query") ->
    build_test_url base e o (Some [name]) None i = build_test_url base e o None None i
    /\ build_test_url base e o None (Some [name]) i
       = build_test_url base e o None None i.
Proof.
  intros base e o i name Hn.
  assert (P : forall params st,
             (forall p, In p params -> p_name p = name ->
                        p_in p <> "path" /\ p_in p <> "query") ->
             build_params o (Some [name]) None i params st
             = build_params o None None i params st
             /\ build_params o None (Some [name]) i params st
                = build_params o None None i params st).
  { induction params as [|p rest IH]; intros st Hp; cbn [build_params];
      [split; reflexivity|].
    destruct (build_step_untouched o name st p (Hp p (or_introl eq_refl)) i)
      as [-> ->].
    destruct (build_step o None None i st p) as [st'|x]; [|split; reflexivity].
    apply IH. intros q Hq. apply Hp. now right. }
  unfold build_test_url.
  destruct (P (e_params e) (e_path e, []) Hn) as [-> ->]. split; reflexivity.
Qed.

Lemma build_step_override d name v st p :
  dict_get name d = Some v ->
  forall path q path' q',
    st = (path, q) ->
    build_step (Some d) None None None st p = Ok (path', q') ->
    (p_name p = name -> p_in p = "query" ->
     if not_none v then dict_get name q' = Some v else q' = q)
    /\ (~ (p_name p = name /\ p_in p = "query") -> v = PNone ->
        In name (keys q') -> In name (keys q))
    /\ (~ (p_name p = name /\ p_in p = "query") ->
        dict_get name q = Some v -> dict_get name q' = Some v).
Proof.
  intros G path q path' q' -> . unfold build_step.
  cbn [opt_mem filtered_out andb].
  destruct (p_in p =? "path") eqn:P.
  - apply String.eqb_eq in P.
    destruct (truthy_lookup (p_name p) (Some d)) as [[| | | | |]|]; try discriminate;
      intros [= <- <-]; (split; [intros _ Q; rewrite P in Q; discriminate|]; auto).
  - destruct (p_in p =? "query") eqn:Q.
    + apply String.eqb_eq in Q.
      destruct (string_dec (p_name p) name) as [N | N].
      * rewrite N, G. destruct (not_none v) eqn:Nv; intros [= <- <-].
        -- split; [intros _ _; rewrite dict_get_set, String.eqb_refl; reflexivity|].
           split; intros C; exfalso; apply C; auto.
        -- split; [reflexivity|]. split; auto.
      * assert (Other : forall w,
                  (~ (p_name p = name /\ p_in p = "query") -> v = PNone ->
                   In name (keys (dict_set (p_name p) w q)) -> In name (keys q))
                  /\ (~ (p_name p = name /\ p_in p = "query") ->
                      dict_get name q = Some v ->
                      dict_get name (dict_set (p_name p) w q) = Some v)).
        { intros w. split.
          - intros _ _ I. apply keys_dict_set_incl in I as [E | I]; congruence.
          - intros _ Gq. rewrite dict_get_set.
            destruct (p_name p =? name) eqn:E; [|exact Gq].
            apply String.eqb_eq in E. congruence. }
        destruct (dict_get (p_name p) d) as [w|].
        -- destruct (not_none w); intros [= <- <-];
             (split; [congruence|]); [apply Other | auto].
        -- destruct (p_required p); intros [= <- <-];
             (split; [congruence|]); [apply Other | auto].
    + intros [= <- <-]. apply String.eqb_neq in Q.
      split; [congruence | auto].
Qed.

Lemma build_params_absent d name params :
  dict_get name d = Some PNone ->
  forall path q path' q',
    build_params (Some d) None None None params (path, q) = Ok (path', q') ->
    In name (keys q') -> In name (keys q).
Proof.
  intros G. induction params as [|p rest IH]; intros path q path' q';
    cbn [build_params].
  - intros [= <- <-]. auto.
  - destruct (build_step (Some d) None None None (path, q) p) as [[p1 q1]|x] eqn:E;
      [|discriminate].
    intros R I. apply (IH _ _ _ _ R) in I.
    destruct (build_step_override d name PNone (path, q) p G path q p1 q1 eq_refl E)
      as (A & B & _).
    destruct (string_dec (p_name p) name) as [N | N].
    + destruct (string_dec (p_in p) "query") as [Q | Q].
      * cbn in A. now rewrite <- (A N Q).
      * apply B; [tauto | reflexivity | exact I].
    + apply B; [tauto | reflexivity | exact I].
Qed.

Lemma build_params_keeps d name v params :
  dict_get name d = Some v -> not_none v = true ->
  forall path q path' q',
    build_params (Some d) None None None params (path, q) = Ok (path', q') ->
    (dict_get name q = Some v \/ query_param_named params name) ->
    dict_get name q' = Some v.
Proof.
  intros G Nv. induction params as [|p rest IH]; intros path q path' q';
    cbn [build_params].
  - intros [= <- <-] [Gq | (p & [] & _)]. exact Gq.
  - destruct (build_step (Some d) None None None (path, q) p) as [[p1 q1]|x] eqn:E;
      [|discriminate].
    intros R Hyp. apply (IH _ _ _ _ R).
    destruct (build_step_override d name v (path, q) p G path q p1 q1 eq_refl E)
      as (A & _ & C).
    rewrite Nv in A.
    destruct (string_dec (p_name p) name) as [N | N];
      [destruct (string_dec (p_in p) "query") as [Q | Q]|].
    + left. now apply A.
    + destruct Hyp as [Gq | (p' & [<- | I] & N' & Q')].
      * left. apply C; [tauto | exact Gq].
      * congruence.
      * right. exists p'. auto.
    + destruct Hyp as [Gq | (p' & [<- | I] & N' & Q')].
      * left. apply C; [tauto | exact Gq].
      * congruence.
      * right. exists p'. auto.
Qed.

(** X8. What a combination says of a query parameter is what the request
    carries: a parameter whose value is the absence sentinel is left out
    of the query string, and a parameter with a sample, or a list of
    samples, is sent with exactly that value. *)
Theorem combination_values_reach_the_query :
  forall base e (c : Combination) url body,
    build_test_url base e (Some (to_overrides c)) None None None = Ok (url, body) ->
    exists path query,
      url = url_of base path query
      /\ (forall name, dict_get name c = Some Absent -> ~ In name (keys query))
      /\ (forall name v,
            dict_get name c = Some v -> v <> Absent ->
            query_param_named (e_params e) name ->
            dict_get name query = Some (pv_to_py v)).
Proof.
  intros base e c url body. unfold build_test_url.
  destruct (build_params (Some (to_overrides c)) None None None
                         (e_params e) (e_path e, [])) as [[path query]|x] eqn:E;
    [|discriminate].
  intros [= <- <-]. exists path, query. split; [|split].
  - unfold url_of. destruct query; reflexivity.
  - intros name G I.
    assert (Gd : dict_get name (to_overrides c) = Some PNone)
      by (rewrite to_overrides_get, G; reflexivity).
    apply (build_params_absent _ _ _ Gd _ _ _ _ E) in I. destruct I.
  - intros name v G Nv Q.
    assert (Gd : dict_get name (to_overrides c) = Some (pv_to_py v))
      by (rewrite to_overrides_get, G; reflexivity).
    assert (Nn : not_none (pv_to_py v) = true)
      by (destruct v; [congruence | reflexivity | reflexivity]).
    exact (build_params_keeps (to_overrides c) name (pv_to_py v) (e_params e)
             Gd Nn (e_path e) [] path query E (or_intror Q)).
Qed.

End BuilderFurther.

(* ================================================================== *)
(** * Further properties of the phases and of the pipeline *)
(* ================================================================== *)

Lemma raises_bind_l {A B} (m : M A) (k : A -> M B) tr :
  raises (m tr) -> raises (bind m k tr).
Proof. intros (x & tr1 & E). unfold bind. rewrite E. exists x, tr1. reflexivity. Qed.

Lemma raises_bind_r {A B} (m : M A) (k : A -> M B) tr :
  (forall a tr1, m tr = (Ok a, tr1) -> raises (k a tr1)) ->
  raises (bind m k tr).
Proof.
  intros K. unfold bind. destruct (m tr) as [[a|x] tr1] eqn:E.
  - now apply K.
  - exists x, tr1. reflexivity.
Qed.

Lemma product_nonempty (pools : list (list PoolValue)) :
  Forall (fun p => p <> []) pools -> product pools <> [].
Proof.
  intros F. destruct (product_first pools F) as [more E]. rewrite E. discriminate.
Qed.

Section PhasesFurther.
Context `{PyRuntime} `{Network}.

Lemma enumerate_nonempty e bo multi include ro isolated all baseline :
  enumerate e bo multi include ro isolated = Ok (all, baseline) -> all <> [].
Proof.
  unfold enumerate.
  set (acc := build_pools (e_params e) bo (or_default [] ro) (or_default [] multi)
                          (effective_include e include)).
  assert (Nd : forall name pool, dict_get name (fst acc) = Some pool -> pool <> []).
  { intros name pool G.
    destruct (build_pools_agree (e_params e) bo (or_default [] ro)
                (or_default [] multi) (effective_include e include)) as [I1 _].
    destruct (I1 name pool G) as [(q & _ & _ & ->) _]. apply pool_of_nonempty. }
  destruct acc as [pools base]. cbn [fst] in Nd. unfold all_combos.
  destruct (lookup_pools pools _) as [main_pools|x] eqn:L; [|discriminate].
  intros [= <- _]. apply lookup_pools_found in L.
  assert (F : Forall (fun p => p <> []) main_pools).
  { clear - L Nd. induction L as [|n pool ns ps G L IH]; constructor; eauto. }
  apply product_nonempty in F.
  destruct (product main_pools); [congruence | discriminate].
Qed.

Lemma call_endpoint_without_answer u m hd jb t tr r tr1 :
  unreachable ->
  call_endpoint u m hd jb t tr = (Ok r, tr1) -> status_code r = None.
Proof.
  intros U E. destruct (U tr (dispatch u m hd jb t)) as [x Hx].
  apply call_endpoint_returned in E
    as (_ & _ & [(e & _ & ->) | (resp & X & _)]); [reflexivity | congruence].
Qed.

Lemma probe_without_answer config u m hd jb tr r tr1 :
  unreachable ->
  probe config u m hd jb tr = (Ok r, tr1) -> status_code r = None.
Proof.
  intros U E. apply probe_returned in E as (t & _ & _ & E & _).
  eapply call_endpoint_without_answer; eassumption.
Qed.

Lemma run_combination_without_answer e base_url headers config include baseline c tr :
  unreachable ->
  raises (run_combination e base_url headers config include baseline c tr).
Proof.
  intros U. unfold run_combination. apply raises_bind_r. intros [u b] tr1 _.
  apply raises_bind_r. intros res tr2 E.
  rewrite (probe_without_answer _ _ _ _ _ _ _ _ U E).
  eexists. eexists. reflexivity.
Qed.

(** X9. When the probe of the first combination of the window gets no
    answer (a transport failure), the combinatorial phase does not record
    a failed result: it raises TypeError on the status comparison right
    after that one exchange, and no later combination is tried. *)
Theorem transport_failure_aborts_the_combinatorial_phase :
  forall e base_url headers config bo mode offset limit multi include ro isolated
         all baseline c rest u b t x tr,
    e_params e <> [] ->
    enumerate e bo multi include ro isolated = Ok (all, baseline) ->
    select_window mode offset limit all = c :: rest ->
    build_test_url base_url e (Some (to_overrides c)) None None None = Ok (u, b) ->
    timeout_seconds config = Some t -> (0 < t)%Z ->
    http_exchange tr (dispatch u (e_method e) (Some headers) (Some b) t) = inl x ->
    exists x',
      is_TypeError x' = true
      /\ run_combinatorial_tests e base_url headers config bo mode offset limit
                                 multi include ro isolated tr
         = (Raise x',
            (tr ++ [EvHttp (dispatch u (e_method e) (Some headers) (Some b) t)])%list).
Proof.
  intros e base_url headers config bo mode offset limit multi include ro isolated
         all baseline c rest u b t x tr Hp E W B T P X.
  assert (R : run_combination e base_url headers config
                (effective_include e include) baseline c tr
              = (Raise status_not_comparable,
                 (tr ++ [EvHttp (dispatch u (e_method e) (Some headers) (Some b) t)])%list)).
  { unfold run_combination, bind, liftR. rewrite B.
    rewrite (probe_with_timeout config t) by exact T.
    rewrite (call_endpoint_on_failure _ _ _ _ _ _ _ P X). reflexivity. }
  eexists. split; [|unfold run_combinatorial_tests;
                    destruct (e_params e); [congruence|];
                    unfold bind at 1, liftR; rewrite E, W; cbn [mapM];
                    unfold bind; rewrite R; reflexivity].
  reflexivity.
Qed.

Lemma run_baseline_without_answer u m headers config body e tr b tr1 :
  unreachable ->
  run_baseline u m headers config body e tr = (Ok b, tr1) ->
  status_code b = None.
Proof.
  intros U. unfold run_baseline. intros R.
  apply bind_ok in R as (r & tr0 & P & R).
  apply bind_ok in R as (limit & tr2 & _ & R). injection R as <- _.
  cbn. eapply probe_without_answer; eassumption.
Qed.

Lemma combinatorial_phase_without_answer e base_url headers config bo offset limit
      multi include ro isolated tr :
  unreachable -> e_params e <> [] ->
  raises (run_combinatorial_tests e base_url headers config bo "minimal" offset limit
                                  multi include ro isolated tr).
Proof.
  intros U Hp. unfold run_combinatorial_tests. destruct (e_params e); [congruence|].
  apply raises_bind_r. intros [all baseline] tr1 E.
  unfold liftR in E. injection E as E _.
  apply enumerate_nonempty in E. unfold select_window.
  cbn [String.eqb Ascii.eqb Bool.eqb]. destruct all as [|c rest]; [congruence|].
  cbn [firstn mapM]. apply raises_bind_l. apply raises_bind_l.
  now apply run_combination_without_answer.
Qed.

Lemma pipeline_without_answer e config tok user pw po ro co run_ai off lim
      multi include iso tr :
  unreachable -> e_params e <> [] ->
  raises (test_single_endpoint e config tok user pw po ro co run_ai "minimal"
                               off lim multi include iso tr).
Proof.
  intros U Hp. unfold test_single_endpoint.
  apply raises_bind_r. intros [test_url body] tr1 _.
  apply raises_bind_r. intros baseline tr2 B.
  rewrite (run_baseline_without_answer _ _ _ _ _ _ _ _ _ U B). cbn [status_in].
  apply raises_bind_r. intros neg tr3 _.
  apply raises_bind_r. intros pf tr4 _.
  apply raises_bind_r. intros en tr5 _.
  apply raises_bind_l. now apply combinatorial_phase_without_answer.
Qed.

End PhasesFurther.

Section HandlerFurther.
Context `{PyRuntime} `{Network} `{ContractReader}.

(** X10. Against a target that answers nothing, a run in minimal mode
    (the default) of an endpoint that has parameters returns no record:
    the pipeline ends in an exception raised by the combinatorial phase or
    before it, and the handler answers 500, keeping its cache. *)
Theorem unreachable_target_gives_no_record :
  unreachable ->
  (forall e config tok user pw po ro co run_ai off lim multi include iso tr,
      e_params e <> [] ->
      raises (test_single_endpoint e config tok user pw po ro co run_ai "minimal"
                                   off lim multi include iso tr))
  /\ (forall config cached data tr i endpoint,
        d_index data = Some i ->
        index_in_range i cached = true ->
        nth_error cached (Z.to_nat i) = Some endpoint ->
        e_params endpoint <> [] ->
        or_default "minimal" (d_combinatorial_mode data) = "minimal" ->
        exists message tr1,
          run_test config cached data tr = (ReplyError 500 message, cached, tr1)).
Proof.
  intros U. split.
  - intros. now apply pipeline_without_answer.
  - intros config cached data tr i endpoint Di Ir Nth Hp Mode.
    unfold run_test, ensure_cache.
    destruct cached as [|e0 more]; [destruct (Z.to_nat i); discriminate|].
    cbn [ret]. rewrite Di, Ir. cbn [negb]. rewrite Nth, Mode.
    match goal with
    | |- context [test_single_endpoint ?a ?b ?c ?d ?e ?f ?g ?h ?i ?j ?k ?l ?m ?n ?o ?p] =>
        destruct (pipeline_without_answer a b c d e f g h i k l m n o p U Hp)
          as (x & tr1 & ->)
    end.
    eauto.
Qed.

End HandlerFurther.

(* ================================================================== *)
(** * One probe per case *)
(* ================================================================== *)

Lemma mapM_shape {A B} (f : A -> M B) (P : A -> B -> Prop) :
  (forall x tr y tr1, f x tr = (Ok y, tr1) ->
                      List.length tr1 = S (List.length tr) /\ P x y) ->
  forall l tr ys tr1,
    mapM f l tr = (Ok ys, tr1) ->
    List.length tr1 = List.length tr + List.length l /\ Forall2 P l ys.
Proof.
  intros Step. induction l as [|x rest IH]; intros tr ys tr1; cbn [mapM].
  - intros [= <- <-]. split; [cbn; lia | constructor].
  - unfold bind at 1. destruct (f x tr) as [[y|e] tr0] eqn:E; [|discriminate].
    unfold bind at 1. destruct (mapM f rest tr0) as [[zs|e] tr2] eqn:E2; [|discriminate].
    cbn. intros [= <- <-].
    destruct (Step x tr y tr0 E) as [L Pxy].
    destruct (IH tr0 zs tr2 E2) as [L2 F].
    split; [cbn; lia | now constructor].
Qed.


Section ProbePerCase.
Context `{PyRuntime} `{Network}.

(** A probe result carries an error or a status, never both and never
    neither. *)
Lemma probe_always_one_of config u m hd b tr res tr1 :
  probe config u m hd b tr = (Ok res, tr1) ->
  (status_code res <> None /\ error res = None)
  \/ (status_code res = None /\ error res <> None).
Proof.
  intros R. apply probe_returned in R as (t & _ & _ & R & _).
  apply call_endpoint_returned in R
    as (_ & _ & [(x & _ & ->) | (resp & _ & _ & ->)]).
  - right. split; [reflexivity | discriminate].
  - left. destruct (fill_result_status u m resp) as [-> ->].
    split; [discriminate | reflexivity].
Qed.

(** A probe made with a positive timeout returns when the body of the
    answer, if any, can be processed. *)
Lemma probe_returns config u m hd b tr :
  positive_timeout config -> readable_peer ->
  exists res t,
    timeout_seconds config = Some t
    /\ probe config u m hd b tr
       = (Ok res, (tr ++ [EvHttp (dispatch u m hd b t)])%list).
Proof.
  intros (t & T & P) Rd.
  destruct (call_endpoint_one_exchange u m hd b t tr P
              (fun resp E => Rd tr _ resp E)) as [res E].
  exists res, t. split; [exact T|].
  now rewrite (probe_with_timeout config t) by exact T.
Qed.

(** What a build followed by one probe does. *)
Lemma build_then_probe {B} (built : Result (string * pydict)) (m : string)
      (hd : Headers) (config : Config)
      (mk : string -> pydict -> ProbeResult -> B) tr :
  (forall y tr1,
      bind (liftR built)
           (fun ub => match ub with
                      | (u, b) => bind (probe config u m (Some hd) (Some b))
                                       (fun res => ret (mk u b res))
                      end) tr = (Ok y, tr1) ->
      exists u b res,
        built = Ok (u, b)
        /\ probe config u m (Some hd) (Some b) tr = (Ok res, tr1)
        /\ y = mk u b res
        /\ List.length tr1 = S (List.length tr))
  /\ (positive_timeout config -> readable_peer ->
      forall u b, built = Ok (u, b) ->
        exists res tr1,
          bind (liftR built)
               (fun ub => match ub with
                          | (u, b) => bind (probe config u m (Some hd) (Some b))
                                           (fun res => ret (mk u b res))
                          end) tr = (Ok (mk u b res), tr1)).
Proof.
  split.
  - intros y tr1 R. apply bind_ok in R as ([u b] & tr0 & Bu & R).
    unfold liftR in Bu. injection Bu as -> <-.
    apply bind_ok in R as (res & tr2 & Pr & R). injection R as <- <-.
    exists u, b, res. split; [reflexivity|]. split; [exact Pr|].
    split; [reflexivity|].
    apply probe_returned in Pr as (t & _ & _ & _ & ->).
    rewrite length_app. cbn. lia.
  - intros P Rd u b ->. unfold bind at 1, liftR.
    destruct (probe_returns config u m (Some hd) (Some b) tr P Rd)
      as (res & t & _ & E).
    unfold bind. rewrite E. exists res. eexists. reflexivity.
Qed.



Lemma removal_shape e base_url headers config bo include tr rs tr1 :
  run_param_removal e base_url headers config bo include tr = (Ok rs, tr1) ->
  map (fun r => (prm_param r, prm_required_by_spec r)) rs = audited_params e include
  /\ List.length tr1 = List.length tr + List.length (audited_params e include)
  /\ Forall (fun r => prm_required_by_test r
                      = negb (status_in (prm_status_without r) [200%Z])) rs.
Proof.
  intros R. unfold run_param_removal in R.
  apply (mapM_shape _
           (fun nr r => (prm_param r, prm_required_by_spec r) = nr
                        /\ prm_required_by_test r
                           = negb (status_in (prm_status_without r) [200%Z])))
    in R.
  - destruct R as [L F]. fold (audited_params e include) in L, F.
    split; [|split; [exact L|]].
    + clear L. induction F as [|nr r l rs' [E _] F IH]; cbn; [reflexivity|].
      now rewrite E, IH.
    + clear L. induction F as [|nr r l rs' [_ E] F IH]; constructor; assumption.
  - intros [name flag] tr0 y tr2 S.
    apply (proj1 (build_then_probe _ _ _ _
                    (fun _ _ result =>
                       {| prm_param := name; prm_required_by_spec := flag;
                          prm_required_by_test :=
                            negb (status_in (status_code result) [200%Z])
                            || match error result with
                               | Some _ => true
                               | None => false
                               end;
                          prm_status_without := status_code result |}) tr0))
      in S.
    destruct S as (u & b & res & _ & C & -> & L). split; [exact L|].
    cbn. split; [reflexivity|].
    destruct (probe_always_one_of _ _ _ _ _ _ _ _ C) as [[_ Er] | [St _]].
    + rewrite Er. apply orb_false_r.
    + rewrite St. reflexivity.
Qed.

Lemma empty_values_shape e base_url headers config bo include tr rs tr1 :
  run_empty_values e base_url headers config bo include tr = (Ok rs, tr1) ->
  map emp_param rs = map fst (audited_params e include)
  /\ List.length tr1 = List.length tr + List.length (audited_params e include)
  /\ Forall (fun r => emp_graceful r
                      = status_in (emp_status_empty r) [200; 400; 422]%Z) rs.
Proof.
  intros R. unfold run_empty_values in R.
  apply (mapM_shape _
           (fun nr r => emp_param r = fst nr
                        /\ emp_graceful r
                           = status_in (emp_status_empty r) [200; 400; 422]%Z))
    in R.
  - destruct R as [L F]. fold (audited_params e include) in L, F.
    split; [|split; [exact L|]].
    + clear L. induction F as [|nr r l rs' [E _] F IH]; cbn; [reflexivity|].
      now rewrite E, IH.
    + clear L. induction F as [|nr r l rs' [_ E] F IH]; constructor; assumption.
  - intros [name flag] tr0 y tr2 S.
    apply (proj1 (build_then_probe _ _ _ _
                    (fun _ _ result =>
                       {| emp_param := name;
                          emp_status_empty := status_code result;
                          emp_graceful :=
                            status_in (status_code result) [200; 400; 422]%Z |})
                    tr0)) in S.
    destruct S as (u & b & res & _ & C & -> & L). split; [exact L|].
    cbn. split; reflexivity.
Qed.



End ProbePerCase.

Section FuzzPhases.
Context `{PyRuntime} `{Network}.

Lemma fuzz_cases_length (e : Endpoint) :
  List.length (fuzz_cases e)
  = 7 * List.length (filter (fun p => p_in p =? "path") (e_params e)).
Proof.
  unfold fuzz_cases.
  induction (filter (fun p => p_in p =? "path") (e_params e)) as [|p l IH];
    [reflexivity|].
  cbn [flat_map]. rewrite length_app, IH. cbn. lia.
Qed.

Lemma fuzz_cases_map (e : Endpoint) :
  map (fun pv : ParamInfo * string => (p_name (fst pv), snd pv))
      (flat_map (fun p => map (fun val => (p, val)) fuzz_values)
                (filter (fun p => p_in p =? "path") (e_params e)))
  = fuzz_cases e.
Proof.
  unfold fuzz_cases.
  induction (filter (fun p => p_in p =? "path") (e_params e)) as [|p l IH];
    [reflexivity|].
  cbn [flat_map]. rewrite map_app, IH. reflexivity.
Qed.


Lemma path_fuzzing_shape e base_url headers config bo tr rs tr1 :
  run_path_fuzzing e base_url headers config bo tr = (Ok rs, tr1) ->
  map (fun r => (pf_param r, pf_value r)) rs = fuzz_cases e
  /\ List.length tr1
     = List.length tr
       + 7 * List.length (filter (fun p => p_in p =? "path") (e_params e))
  /\ Forall (fun r => pf_result r = fuzz_verdict (pf_status_code r)) rs.
Proof.
  intros R. unfold run_path_fuzzing in R.
  apply (mapM_shape _
           (fun (pv : ParamInfo * string) r =>
              (pf_param r, pf_value r) = (p_name (fst pv), snd pv)
              /\ pf_result r = fuzz_verdict (pf_status_code r))) in R.
  - destruct R as [L F]. split; [|split].
    + rewrite <- fuzz_cases_map. clear L.
      induction F as [|pv r l rs' [E _] F IH]; cbn [map]; [reflexivity|].
      now rewrite E, IH.
    + rewrite L, <- fuzz_cases_length, <- fuzz_cases_map, length_map. reflexivity.
    + clear L. induction F as [|pv r l rs' [_ E] F IH]; constructor; assumption.
  - intros [p val] tr0 y tr2 S.
    apply (proj1 (build_then_probe _ _ _ _
                    (fun _ _ res =>
                       {| pf_param := p_name p; pf_value := val;
                          pf_status_code := status_code res;
                          pf_result :=
                            if status_in (status_code res) [200%Z]
                            then "WARN (200 OK?)"
                            else if status_in (status_code res) [404; 400; 422]%Z
                                 then "PASS" else "FAIL";
                          pf_response_preview := body_preview res |}) tr0)) in S.
    destruct S as (u & b & res & _ & _ & -> & L). split; [exact L|].
    cbn. split; reflexivity.
Qed.

Lemma enum_testing_shape e base_url headers config bo tr rs tr1 :
  let enum_params :=
    filter (fun p => match p_enum p with Some (_ :: _) => true | _ => false end)
           (e_params e) in
  run_enum_testing e base_url headers config bo tr = (Ok rs, tr1) ->
  map en_param rs = map p_name enum_params
  /\ List.length tr1 = List.length tr + List.length enum_params
  /\ Forall (fun r => en_value r = "INVALID_ENUM_VALUE"
                      /\ en_passed r = status_in (en_status_code r) [400; 422]%Z) rs.
Proof.
  intros enum_params R. unfold run_enum_testing in R.
  apply (mapM_shape _
           (fun (p : ParamInfo) r =>
              en_param r = p_name p
              /\ en_value r = "INVALID_ENUM_VALUE"
              /\ en_passed r = status_in (en_status_code r) [400; 422]%Z)) in R.
  - destruct R as [L F]. fold enum_params in L, F. split; [|split; [exact L|]].
    + clear L. induction F as [|p r l rs' [E _] F IH]; cbn [map]; [reflexivity|].
      now rewrite E, IH.
    + clear L. induction F as [|p r l rs' [_ E] F IH]; constructor; assumption.
  - intros p tr0 y tr2 S.
    apply (proj1 (build_then_probe _ _ _ _
                    (fun _ _ res =>
                       {| en_param := p_name p; en_value := "INVALID_ENUM_VALUE";
                          en_status_code := status_code res;
                          en_passed := status_in (status_code res) [400; 422]%Z;
                          en_response := body_preview res |}) tr0)) in S.
    destruct S as (u & b & res & _ & _ & -> & L). split; [exact L|].
    cbn. repeat split.
Qed.




End FuzzPhases.

(* ================================================================== *)
(** * Parsed endpoints and the verbs they are probed with *)
(* ================================================================== *)

Lemma upper_lower_ascii c : upper_ascii (lower_ascii c) = upper_ascii c.
Proof.
  destruct c as [[] [] [] [] [] [] [] []]; reflexivity.
Qed.

Lemma upper_lower s : upper (lower s) = upper s.
Proof.
  induction s as [|c s IH]; cbn; [reflexivity|].
  now rewrite upper_lower_ascii, IH.
Qed.

Lemma parsed_method_known spec group_name e :
  In e (parse_endpoints spec group_name) ->
  In (e_method e) ["GET"; "POST"; "PUT"; "DELETE"; "PATCH"].
Proof.
  unfold parse_endpoints. intros I.
  apply in_flat_map in I as [[path ops] [_ I]].
  apply in_flat_map in I as [[m op] [_ I]]. cbn [fst snd] in I.
  destruct (mem (lower m) http_methods) eqn:Mm; [|destruct I].
  destruct I as [<- | []]. cbn [parse_operation e_method].
  rewrite <- upper_lower. apply mem_In in Mm. unfold http_methods in Mm.
  cbn [In] in Mm.
  destruct Mm as [<- | [<- | [<- | [<- | [<- | []]]]]]; cbn; tauto.
Qed.

(** X14. Every endpoint read from a contract carries one of the five
    upper-case verbs, whatever the letter case of its key in the contract,
    so a probe of it is made with exactly the verb it names (the fallback
    to GET for an unknown method is never taken for it), and its JSON body
    goes on the wire for POST, PUT and PATCH only: a body built for a GET
    or DELETE endpoint is dropped. *)
Theorem parsed_endpoints_are_probed_with_their_verb :
  forall spec group_name e,
    In e (parse_endpoints spec group_name) ->
    In (e_method e) ["GET"; "POST"; "PUT"; "DELETE"; "PATCH"]
    /\ e_group e = group_name
    /\ forall u hd jb t,
         let rq := dispatch u (e_method e) hd jb t in
         verb_name (q_verb rq) = e_method e
         /\ q_url rq = u /\ q_headers rq = hd
         /\ q_json rq = (if carries_body (q_verb rq)
                         then Some (body_or_empty jb) else None).
Proof.
  intros spec group_name e I. split; [eapply parsed_method_known; eauto|].
  split.
  { unfold parse_endpoints in I.
    apply in_flat_map in I as [[path ops] [_ I]].
    apply in_flat_map in I as [[m op] [_ I]]. cbn [fst snd] in I.
    destruct (mem (lower m) http_methods); [|destruct I].
    destruct I as [<- | []]. reflexivity. }
  intros u hd jb t.
  apply parsed_method_known in I. cbn [In] in I.
  destruct I as [<- | [<- | [<- | [<- | [<- | []]]]]]; cbn; repeat split.
Qed.

(* ================================================================== *)
(** * Discovery *)
(* ================================================================== *)

Section DiscoveryFurther.
Context `{PyRuntime} `{Network} `{ContractReader}.

Lemma fetch_groups_adds svc_name svc_url timeout groups :
  forall acc tr all tr1,
    fetch_groups svc_name svc_url timeout groups acc tr = (Ok all, tr1) ->
    exists new, all = (acc ++ new)%list /\ Forall (of_service svc_name svc_url) new.
Proof.
  induction groups as [|[group_name group_url] rest IH]; intros acc tr all tr1;
    cbn [fetch_groups].
  - intros [= <- <-]. exists []. now rewrite app_nil_r.
  - unfold bind at 1.
    destruct (fetch_openapi_spec svc_url (pystr group_url) timeout tr)
      as [[spec|x] tr0]; [|discriminate].
    destruct spec as [s|]; [|apply IH].
    destruct (truthy s); [|apply IH].
    destruct (read_contract s) as [doc|].
    + intros R. apply IH in R as (new & -> & F).
      exists (map (with_service svc_name svc_url) (parse_endpoints doc group_name)
              ++ new)%list.
      split; [now rewrite app_assoc|].
      apply Forall_app. split; [|exact F].
      apply Forall_forall. intros e I. apply in_map_iff in I as (e0 & <- & I).
      repeat split. cbn [with_service e_method].
      eapply parsed_method_known; eauto.
    + intros [= <- <-]. exists []. now rewrite app_nil_r.
Qed.

Lemma fetch_services_adds timeout svcs :
  forall acc tr all tr1,
    fetch_services timeout svcs acc tr = (Ok all, tr1) ->
    exists new,
      all = (acc ++ new)%list
      /\ Forall (fun e => exists svc name url,
                     In svc svcs /\ service_entry svc = Ok (name, url)
                     /\ url <> EmptyString
                     /\ of_service name url e)
                new.
Proof.
  induction svcs as [|svc rest IH]; intros acc tr all tr1; cbn [fetch_services].
  - intros [= <- <-]. exists []. now rewrite app_nil_r.
  - unfold bind at 1, liftR.
    destruct (service_entry svc) as [[name u]|x] eqn:S; [|discriminate].
    destruct (u =? EmptyString) eqn:Z.
    + intros R. apply IH in R as (new & -> & F). exists new. split; [reflexivity|].
      eapply Forall_impl; [|exact F]. intros e (svc' & n & a & I & P).
      exists svc', n, a. split; [now right | exact P].
    + unfold bind at 1.
      destruct (fetch_swagger_config u timeout tr)
        as [[groups|x] tr0]; [|discriminate].
      unfold bind at 1.
      destruct (fetch_groups name u timeout groups acc tr0)
        as [[found|x] tr2] eqn:G; [|discriminate].
      intros R. apply IH in R as (new2 & -> & F2).
      apply fetch_groups_adds in G as (new1 & -> & F1).
      exists (new1 ++ new2)%list. split; [now rewrite app_assoc|].
      apply Forall_app. split.
      * eapply Forall_impl; [|exact F1]. intros e P. exists svc, name, u.
        split; [now left|]. split; [exact S|]. split; [|exact P].
        intros E. rewrite E in Z. discriminate.
      * eapply Forall_impl; [|exact F2]. intros e (svc' & n & a & I & P).
        exists svc', n, a. split; [now right | exact P].
Qed.

Lemma fetch_all_is_fetch_services config :
  fetch_all_endpoints config
  = fetch_services (discovery_timeout config) (configured_services config) [].
Proof.
  unfold fetch_all_endpoints, configured_services, discovery_timeout.
  destruct (services config); [|reflexivity].
  destruct (nonempty (swagger_base_url config)); reflexivity.
Qed.

Lemma configured_services_described config :
  services config = [] ->
  forallb describes_service (configured_services config) = true.
Proof.
  intros E. unfold configured_services. rewrite E.
  destruct (nonempty (swagger_base_url config)); reflexivity.
Qed.

Lemma fetch_services_unreachable timeout svcs :
  unreachable -> (0 < timeout)%Z ->
  forall acc tr all tr1,
    fetch_services timeout svcs acc tr = (Ok all, tr1) ->
    all = acc
    /\ List.length tr1 = List.length tr + List.length (filter has_address svcs).
Proof.
  intros U P. induction svcs as [|svc rest IH]; intros acc tr all tr1;
    cbn [fetch_services filter].
  - intros [= <- <-]. split; [reflexivity | cbn; lia].
  - unfold bind at 1, liftR, has_address.
    destruct (service_entry svc) as [[name u]|x]; [|discriminate].
    destruct (u =? EmptyString); cbn [negb].
    + apply IH.
    + unfold bind at 1, fetch_swagger_config, try_except, bind at 1.
      rewrite requests_call_sent by exact P.
      destruct (U tr (plain_get (rstrip_slash u ++ "/v3/api-docs/swagger-config")
                                timeout)) as [x ->].
      cbn [ret fetch_groups]. unfold bind at 1. cbn [ret].
      intros R. apply IH in R as [-> L]. split; [reflexivity|].
      rewrite L, length_app. cbn. fold has_address. lia.
Qed.

(** X15. Discovery reads the name and the address of every configured
    service before anything is caught: it returns when every entry is a
    dict whose url is text or missing, and raises AttributeError when
    some entry is not; nothing else makes it fail.  Every endpoint it
    returns carries the name and the address (trailing slashes removed,
    never empty) of a configured service and one of the five verbs, so a
    run of it is made against that service and not against the
    configuration's base URL.  With no service and no base URL configured
    it returns nothing and makes no exchange; when no service answers and
    the timeout is positive it returns nothing after one exchange per
    service that has an address. *)
Theorem discovery_keeps_the_service_of_each_endpoint :
  forall config tr,
    (forallb describes_service (configured_services config) = true ->
     exists found tr1, fetch_all_endpoints config tr = (Ok found, tr1))
    /\ (forallb describes_service (configured_services config) = false ->
        exists x tr1,
          is_AttributeError x = true
          /\ fetch_all_endpoints config tr = (Raise x, tr1))
    /\ (services config = [] ->
        exists found tr1, fetch_all_endpoints config tr = (Ok found, tr1))
    /\ (forall found tr1,
          fetch_all_endpoints config tr = (Ok found, tr1) ->
          (forall e, In e found ->
             exists svc name url,
               In svc (configured_services config)
               /\ service_entry svc = Ok (name, url)
               /\ url <> EmptyString
               /\ e_service_name e = Some name
               /\ e_base_url e = Some url
               /\ resolve_base_url e config = url
               /\ In (e_method e) ["GET"; "POST"; "PUT"; "DELETE"; "PATCH"])
          /\ (configured_services config = [] -> found = [] /\ tr1 = tr)
          /\ (unreachable -> (0 < discovery_timeout config)%Z ->
              found = []
              /\ List.length tr1
                 = List.length tr
                   + List.length (filter has_address (configured_services config)))).
Proof.
  intros config tr. rewrite fetch_all_is_fetch_services.
  split; [|split; [|split]].
  - intros D. now apply fetch_services_returns.
  - intros D. destruct (fetch_services_fails (discovery_timeout config)
                          (configured_services config) D [] tr) as (x & tr1 & A & R).
    eauto.
  - intros E. apply fetch_services_returns. now apply configured_services_described.
  - intros found tr1 R. split; [|split].
    + intros e I. destruct (fetch_services_adds _ _ _ _ _ _ R) as (new & -> & F).
      cbn [app] in I. rewrite Forall_forall in F.
      destruct (F e I) as (svc & name & url & Is & Se & NZ & Sn & Bu & Me).
      exists svc, name, url. repeat split; try assumption.
      unfold resolve_base_url. rewrite Bu. cbn [nonempty or_default].
      destruct (url =? EmptyString) eqn:Z; [|reflexivity].
      apply String.eqb_eq in Z. contradiction.
    + intros E. rewrite E in R. cbn in R. injection R as <- <-. split; reflexivity.
    + intros U P.
      now apply (fetch_services_unreachable _ _ U P [] tr found tr1).
Qed.

End DiscoveryFurther.

(* ================================================================== *)
(** * The authorization header *)
(* ================================================================== *)

Lemma lower_app a b : lower (a ++ b) = lower a ++ lower b.
Proof. induction a as [|c a IH]; cbn; [reflexivity | now rewrite IH]. Qed.

Lemma lower_length s : String.length (lower s) = String.length s.
Proof. induction s as [|c s IH]; cbn; [reflexivity | now rewrite IH]. Qed.

Lemma prefix_app a b : prefix a (a ++ b) = true.
Proof.
  induction a as [|c a IH]; cbn; [now destruct b|].
  destruct (ascii_dec c c); [exact IH | contradiction].
Qed.

Lemma drop_scheme q t : drop (String.length q + 1) (q ++ " " ++ t) = t.
Proof. induction q as [|c q IH]; cbn; [reflexivity | exact IH]. Qed.

Lemma app_assoc_string (a b c : string) : (a ++ b) ++ c = a ++ b ++ c.
Proof. induction a as [|x a IH]; cbn; [reflexivity | now rewrite IH]. Qed.

Section AuthHeader.
Context `{PyRuntime} `{Network}.

(** X16. A token given together with the scheme of the configuration
    (Bearer by default), in any letter case, gives the same header as the
    bare token: the scheme is removed once, the rest is trimmed and the
    configured spelling of the scheme is put in front. A user name and a
    password given beside a token play no part. *)
Theorem pasted_scheme_is_removed_from_the_token :
  forall config tok0 q t user pw,
    let ty := or_default "Bearer" (auth_type config) in
    let key := or_default "Authorization" (auth_header config) in
    tok0 <> EmptyString ->
    strip tok0 = q ++ " " ++ t ->
    lower q = lower ty ->
    make_auth_headers config (Some tok0) user pw = [(key, ty ++ " " ++ strip t)]
    /\ (t <> EmptyString ->
        prefix (lower ty ++ " ") (lower (strip t)) = false ->
        forall user' pw',
          make_auth_headers config (Some t) user' pw'
          = make_auth_headers config (Some tok0) user pw).
Proof.
  intros config tok0 q t user pw ty key NE S L.
  assert (A : make_auth_headers config (Some tok0) user pw
              = [(key, ty ++ " " ++ strip t)]).
  { unfold make_auth_headers. fold ty key.
    destruct (tok0 =? EmptyString) eqn:Z;
      [apply String.eqb_eq in Z; contradiction|].
    cbn [negb]. rewrite S.
    assert (P : prefix (lower ty ++ " ") (lower (q ++ " " ++ t)) = true).
    { rewrite lower_app, L, lower_app, <- app_assoc_string. apply prefix_app. }
    rewrite P.
    assert (Len : String.length ty = String.length q).
    { rewrite <- (lower_length ty), <- (lower_length q), L. reflexivity. }
    rewrite Len, drop_scheme. reflexivity. }
  split; [exact A|].
  intros NT NP user' pw'. rewrite A.
  unfold make_auth_headers. fold ty key.
  destruct (t =? EmptyString) eqn:Z; [apply String.eqb_eq in Z; contradiction|].
  cbn [negb]. rewrite NP. reflexivity.
Qed.

End AuthHeader.

(* ================================================================== *)
(** * Duplicate endpoints across groups *)
(* ================================================================== *)

Lemma unique_from_In seen l e :
  In e (unique_from seen l) -> In e l /\ ~ In (endpoint_key e) seen.
Proof.
  revert seen. induction l as [|ep rest IH]; intros seen; cbn [unique_from];
    [intros []|].
  destruct (mem (endpoint_key ep) seen) eqn:M.
  - intros I. apply IH in I as [I N]. split; [now right | exact N].
  - intros [<- | I].
    + split; [now left|]. intros I. apply mem_In in I. congruence.
    + apply IH in I as [I N]. split; [now right|].
      intros J. apply N. now right.
Qed.

Lemma unique_from_NoDup seen l :
  NoDup (map endpoint_key (unique_from seen l)).
Proof.
  revert seen. induction l as [|ep rest IH]; intros seen; cbn [unique_from];
    [constructor|].
  destruct (mem (endpoint_key ep) seen); [apply IH|].
  cbn [map]. constructor; [|apply IH].
  intros I. apply in_map_iff in I as (e' & K & I).
  apply unique_from_In in I as [_ N]. apply N. left. now symmetry.
Qed.

Lemma unique_from_first seen l1 e l2 :
  ~ In (endpoint_key e) seen ->
  ~ In (endpoint_key e) (map endpoint_key l1) ->
  In e (unique_from seen (l1 ++ e :: l2)).
Proof.
  revert seen. induction l1 as [|ep rest IH]; intros seen N1 N2;
    cbn [app unique_from].
  - destruct (mem (endpoint_key e) seen) eqn:M; [|now left].
    apply mem_In in M. contradiction.
  - cbn [map In] in N2.
    destruct (mem (endpoint_key ep) seen).
    + apply IH; [exact N1 | tauto].
    + right. apply IH; [|tauto]. intros [E | I]; [|contradiction].
      apply N2. now left.
Qed.

Lemma unique_from_fixed seen l :
  NoDup (map endpoint_key l) ->
  (forall e, In e l -> ~ In (endpoint_key e) seen) ->
  unique_from seen l = l.
Proof.
  revert seen. induction l as [|ep rest IH]; intros seen ND D; cbn [unique_from];
    [reflexivity|].
  cbn [map] in ND. apply NoDup_cons_iff in ND as [N ND].
  destruct (mem (endpoint_key ep) seen) eqn:M.
  - apply mem_In in M. exfalso. apply (D ep); [now left | exact M].
  - f_equal. apply IH; [exact ND|].
    intros e I [E | J].
    + apply N. rewrite E. now apply in_map.
    + apply (D e); [now right | exact J].
Qed.

Lemma verb_key_injective m p m' p' :
  In m ["GET"; "POST"; "PUT"; "DELETE"; "PATCH"] ->
  In m' ["GET"; "POST"; "PUT"; "DELETE"; "PATCH"] ->
  m ++ ":" ++ p = m' ++ ":" ++ p' -> m = m' /\ p = p'.
Proof.
  cbn [In].
  intros [<- | [<- | [<- | [<- | [<- | []]]]]]
         [<- | [<- | [<- | [<- | [<- | []]]]]] E;
    cbn in E; try discriminate E; injection E as ->; split; reflexivity.
Qed.

Lemma unique_from_covers seen l e :
  In e l ->
  In (endpoint_key e) seen
  \/ exists e', In e' (unique_from seen l) /\ endpoint_key e' = endpoint_key e.
Proof.
  revert seen. induction l as [|ep rest IH]; intros seen; cbn [unique_from];
    [intros []|].
  intros [-> | I].
  - destruct (mem (endpoint_key e) seen) eqn:M.
    + left. now apply mem_In.
    + right. exists e. split; [now left | reflexivity].
  - destruct (mem (endpoint_key ep) seen) eqn:M; [now apply IH|].
    destruct (IH (endpoint_key ep :: seen) I) as [[E | J] | (e' & I' & K)].
    + right. exists ep. split; [now left | exact E].
    + now left.
    + right. exists e'. split; [now right | exact K].
Qed.

Lemma NoDup_map_injective {A B} (f : A -> B) (l : list A) a b :
  NoDup (map f l) -> In a l -> In b l -> f a = f b -> a = b.
Proof.
  induction l as [|x l IH]; cbn [map]; [intros _ []|].
  intros ND. apply NoDup_cons_iff in ND as [N ND].
  intros [-> | Ia] [-> | Ib] E.
  - reflexivity.
  - exfalso. apply N. rewrite E. now apply in_map.
  - exfalso. apply N. rewrite <- E. now apply in_map.
  - now apply IH.
Qed.

(** X17. The duplicate filter of the command-line run keeps, in order,
    the first endpoint of every method:path key and drops the later ones:
    the keys of the result do not repeat, every kept endpoint was found,
    the first endpoint of a key is kept and is the only one kept for that
    key, a list without repeated keys is left as it is (so filtering
    twice changes nothing), and for endpoints read from contracts two
    keys are equal only when method and path both are. *)
Theorem duplicate_filter_keeps_first_of_each_key :
  forall all_endpoints,
    NoDup (map endpoint_key (unique_endpoints all_endpoints))
    /\ (forall e, In e (unique_endpoints all_endpoints) -> In e all_endpoints)
    /\ (forall e, In e all_endpoints ->
          exists e', In e' (unique_endpoints all_endpoints)
                     /\ endpoint_key e' = endpoint_key e)
    /\ (forall l1 e l2,
          all_endpoints = (l1 ++ e :: l2)%list ->
          ~ In (endpoint_key e) (map endpoint_key l1) ->
          In e (unique_endpoints all_endpoints)
          /\ forall e', In e' (unique_endpoints all_endpoints) ->
                        endpoint_key e' = endpoint_key e -> e' = e)
    /\ (NoDup (map endpoint_key all_endpoints) ->
        unique_endpoints all_endpoints = all_endpoints)
    /\ unique_endpoints (unique_endpoints all_endpoints)
       = unique_endpoints all_endpoints
    /\ (forall spec g spec' g' e e',
          In e (parse_endpoints spec g) -> In e' (parse_endpoints spec' g') ->
          endpoint_key e = endpoint_key e' ->
          e_method e = e_method e' /\ e_path e = e_path e').
Proof.
  intros all_endpoints. unfold unique_endpoints.
  split; [apply unique_from_NoDup|].
  split; [intros e I; now apply unique_from_In in I|].
  split.
  { intros e I. destruct (unique_from_covers [] all_endpoints e I) as [[] | X].
    exact X. }
  split.
  { intros l1 e l2 -> N.
    assert (I : In e (unique_from [] (l1 ++ e :: l2)))
      by (apply unique_from_first; [intros [] | exact N]).
    split; [exact I|].
    intros e' I' K.
    eapply NoDup_map_injective;
      [apply (unique_from_NoDup [] (l1 ++ e :: l2)) | exact I' | exact I | exact K]. }
  split.
  { intros ND. apply unique_from_fixed; [exact ND | intros e _ []]. }
  split.
  { apply unique_from_fixed; [apply unique_from_NoDup | intros e _ []]. }
  intros spec g spec' g' e e' I I' K. unfold endpoint_key in K.
  eapply verb_key_injective; [| |exact K]; eapply parsed_method_known; eauto.
Qed.

(* ================================================================== *)
(** * The record of a completed run *)
(* ================================================================== *)

Lemma mapM_pointwise {A B} (f : A -> M B) (P : A -> B -> Prop) :
  (forall x tr y tr1, f x tr = (Ok y, tr1) -> P x y) ->
  forall l tr ys tr1, mapM f l tr = (Ok ys, tr1) -> Forall2 P l ys.
Proof.
  intros Step. induction l as [|x rest IH]; intros tr ys tr1; cbn [mapM].
  - intros [= <- <-]. constructor.
  - intros R. apply bind_ok in R as (y & tr0 & E & R).
    apply bind_ok in R as (zs & tr2 & E2 & R). injection R as <- <-.
    constructor; [eapply Step; eauto | eapply IH; eauto].
Qed.

Section CompletedRun.
Context `{PyRuntime} `{Network}.

Lemma negative_tests_one_result e base_url headers config tr rs tr1 :
  run_negative_tests e base_url headers config tr = (Ok rs, tr1) ->
  List.length rs = 1.
Proof.
  unfold run_negative_tests. intros R.
  apply bind_ok in R as ([u b] & tr0 & _ & R).
  apply bind_ok in R as (res & tr2 & _ & R). injection R as <- <-. reflexivity.
Qed.

Lemma granular_fuzz_shape e base_url headers config po ro tr rs tr1 :
  granular_fuzz e base_url headers config po ro tr = (Ok rs, tr1) ->
  map fuzz_param rs = map Some (or_default [] ro).
Proof.
  unfold granular_fuzz. intros R.
  apply Forall2_map_eq.
  eapply mapM_pointwise; [|exact R].
  intros [name val] tr0 y tr2 S.
  apply bind_ok in S as ([u b] & tr3 & _ & S).
  apply bind_ok in S as (res & tr4 & _ & S). injection S as <- <-. reflexivity.
Qed.

Lemma field_progression_shape e base_url headers config bo tr rs tr1 :
  run_field_progression_test e base_url headers config bo tr = (Ok rs, tr1) ->
  map fp_param rs = map p_name (find_field_selectors e).
Proof.
  unfold run_field_progression_test. intros R.
  apply Forall2_map_eq.
  eapply mapM_pointwise; [|exact R].
  intros s tr0 y tr2 S.
  apply bind_ok in S as ([u b] & tr3 & _ & S).
  apply bind_ok in S as (r1 & tr4 & _ & S).
  apply bind_ok in S as (sub & tr5 & _ & S).
  injection S as <- <-. reflexivity.
Qed.

Lemma auth_tests_shape e base_url test_url headers config po baseline tr a sp tr1 :
  auth_tests e base_url test_url headers config po baseline tr = (Ok (a, sp), tr1) ->
  map fst sp = ["token_only";
                if takes_credentials e then "creds_only" else "invalid_token"]
  /\ (takes_credentials e = false -> dict_get "token_only" sp = Some baseline)
  /\ (takes_credentials e = true -> dict_get "creds_only" sp = Some a).
Proof.
  unfold auth_tests. fold (takes_credentials e).
  destruct (takes_credentials e); intros R.
  - apply bind_ok in R as ([u b] & tr0 & _ & R).
    apply bind_ok in R as (r1 & tr2 & _ & R).
    apply bind_ok in R as ([u2 b2] & tr3 & _ & R).
    apply bind_ok in R as (r2 & tr4 & _ & R).
    injection R as <- <- <-. repeat split; try discriminate.
  - apply bind_ok in R as (r1 & tr0 & _ & R).
    apply bind_ok in R as (r2 & tr2 & _ & R).
    injection R as <- <- <-. repeat split; try discriminate.
Qed.

(** X18. The record of a run that went past the Baseline: the Baseline
    status is not 401; there is one negative result, one path-fuzz result
    per path parameter and fuzz value, one enum result per enum parameter,
    one fuzz result per random override and one progression entry per
    field selector, each in the order of the endpoint. The removal and
    empty-value audits are made only when the endpoint has a query
    parameter: an endpoint whose parameters are all in the path or in the
    body gets neither, whatever its body schema. The special
    authorization results are token_only and invalid_token, token_only
    being the Baseline itself, unless the endpoint takes a username or a
    password as a parameter, when they are token_only and creds_only.
    The analysis is present exactly when it was requested. *)
Theorem completed_run_has_one_entry_per_case :
  forall e config tok user pw po ro co run_ai mode off lim multi include isolated
         tr f tr1,
    test_single_endpoint e config tok user pw po ro co run_ai mode off lim
                         multi include isolated tr = (Ok (Completed f), tr1) ->
    let overrides := merge_custom po co in
    f_endpoint f = e
    /\ status_in (status_code (f_baseline f)) [401%Z] = false
    /\ (exists body,
          build_test_url (resolve_base_url e config) e overrides None None include
          = Ok (f_test_url f, body)
          /\ f_logic_findings f = run_logic_checks (f_baseline f) overrides body)
    /\ List.length (f_negative_results f) = 1
    /\ map (fun r => (pf_param r, pf_value r)) (f_path_fuzz_results f) = fuzz_cases e
    /\ map en_param (f_enum_results f) = map p_name (enum_params e)
    /\ map fuzz_param (f_fuzz_test_results f) = map Some (or_default [] ro)
    /\ map fp_param (f_field_progression f) = map p_name (find_field_selectors e)
    /\ (filter (fun p => p_in p =? "query") (e_params e) = [] ->
        f_param_results f = [] /\ f_empty_results f = [])
    /\ (filter (fun p => p_in p =? "query") (e_params e) <> [] ->
        map (fun r => (prm_param r, prm_required_by_spec r)) (f_param_results f)
        = audited_params e include
        /\ map emp_param (f_empty_results f) = map fst (audited_params e include))
    /\ map fst (f_special_auth f)
       = ["token_only";
          if takes_credentials e then "creds_only" else "invalid_token"]
    /\ (takes_credentials e = false ->
        dict_get "token_only" (f_special_auth f) = Some (f_baseline f))
    /\ (takes_credentials e = true ->
        dict_get "creds_only" (f_special_auth f) = Some (f_auth_test f))
    /\ (f_ai_analysis f = None <-> run_ai = false).
Proof.
  intros e config tok user pw po ro co run_ai mode off lim multi include isolated
         tr f tr1 R overrides.
  unfold test_single_endpoint in R. fold overrides in R.
  apply bind_ok in R as ([test_url body] & tr0 & B & R).
  unfold liftR in B. injection B as B <-.
  apply bind_ok in R as (baseline & tr2 & _ & R).
  destruct (status_in (status_code baseline) [401%Z]) eqn:S401;
    [unfold ret in R; discriminate R|].
  apply bind_ok in R as (neg & tr3 & Neg & R).
  apply bind_ok in R as (pf & tr4 & Pf & R).
  apply bind_ok in R as (en & tr5 & En & R).
  apply bind_ok in R as (comb & tr6 & _ & R).
  apply bind_ok in R as (fz & tr7 & Fz & R).
  apply bind_ok in R as ([a sp] & tr8 & Au & R).
  apply bind_ok in R as ([prs ers] & tr9 & Audit & R).
  apply bind_ok in R as (fp & tr10 & Fp & R).
  apply bind_ok in R as (ai & tr11 & Ai & R).
  injection R as <- <-. cbn [f_endpoint f_test_url f_baseline f_auth_test
    f_special_auth f_param_results f_empty_results f_negative_results
    f_fuzz_test_results f_path_fuzz_results f_enum_results f_logic_findings
    f_field_progression f_ai_analysis].
  split; [reflexivity|]. split; [exact S401|].
  split; [exists body; split; [exact B | reflexivity]|].
  split; [eapply negative_tests_one_result; eauto|].
  split; [eapply path_fuzzing_shape; eauto|].
  split; [eapply enum_testing_shape; eauto|].
  split; [eapply granular_fuzz_shape; eauto|].
  split; [eapply field_progression_shape; eauto|].
  split.
  { intros Q. rewrite Q in Audit. injection Audit as <- <- _. split; reflexivity. }
  split.
  { intros Q.
    destruct (filter (fun p => p_in p =? "query") (e_params e)) as [|q qs];
      [contradiction|].
    apply bind_ok in Audit as (prs' & tr12 & Rm & Audit).
    apply bind_ok in Audit as (ers' & tr13 & Em & Audit).
    injection Audit as <- <- _.
    split; [eapply removal_shape; eauto | eapply empty_values_shape; eauto]. }
  destruct (auth_tests_shape _ _ _ _ _ _ _ _ _ _ _ Au) as (K1 & K2 & K3).
  split; [exact K1|]. split; [exact K2|]. split; [exact K3|].
  destruct run_ai.
  - apply bind_ok in Ai as (x & tr12 & _ & Ai). injection Ai as <- _.
    split; discriminate.
  - injection Ai as <- _. split; reflexivity.
Qed.

End CompletedRun.

(* ================================================================== *)
(** * Which parameters a request carries *)
(* ================================================================== *)

Lemma keys_dict_set_iff {V} (d : list (string * V)) k v x :
  In x (keys (dict_set k v d)) <-> x = k \/ In x (keys d).
Proof.
  split; [apply keys_dict_set_incl|].
  intros [-> | I]; [|now apply keys_dict_set_mono].
  apply dict_get_keys. rewrite dict_get_set, String.eqb_refl. discriminate.
Qed.

Section SentParameters.
Context `{PyRuntime}.

Lemma build_step_sends o i path q p path' q' :
  build_step o None None i (path, q) p = Ok (path', q') ->
  forall k, In k (keys q')
            <-> In k (keys q)
                \/ (k = p_name p /\ p_in p = "query"
                    /\ filtered_out k i = false /\ sends o p = true).
Proof.
  unfold build_step. cbn [opt_mem].
  destruct (p_in p =? "path") eqn:P.
  - rewrite andb_false_r. apply String.eqb_eq in P.
    assert (NQ : p_in p <> "query") by (rewrite P; discriminate).
    destruct (truthy_lookup (p_name p) o) as [[| | | | |]|]; try discriminate;
      intros [= <- <-] k; split; auto; intros [I | (_ & Q & _)]; auto;
      contradiction.
  - rewrite andb_true_r.
    destruct (filtered_out (p_name p) i) eqn:F.
    { intros [= <- <-] k. split; [auto|]. intros [I | (-> & _ & F' & _)]; [auto|].
      congruence. }
    destruct (p_in p =? "query") eqn:Q.
    2:{ apply String.eqb_neq in Q. intros [= <- <-] k. split; [auto|].
        intros [I | (_ & Q' & _)]; [auto | contradiction]. }
    apply String.eqb_eq in Q.
    assert (Yes : forall v k, sends o p = true ->
              (In k (keys (dict_set (p_name p) v q))
               <-> In k (keys q)
                   \/ (k = p_name p /\ p_in p = "query"
                       /\ filtered_out k i = false /\ sends o p = true))).
    { intros v k Sd. rewrite keys_dict_set_iff. split.
      - intros [-> | I]; auto.
      - intros [I | (-> & _)]; auto. }
    assert (No : forall k, sends o p = false ->
              (In k (keys q)
               <-> In k (keys q)
                   \/ (k = p_name p /\ p_in p = "query"
                       /\ filtered_out k i = false /\ sends o p = true))).
    { intros k Sd. split; [auto|]. intros [I | (_ & _ & _ & Sd')]; [auto|].
      congruence. }
    unfold sends in Yes, No |- *.
    destruct o as [d|].
    + destruct (dict_get (p_name p) d) as [v|].
      * destruct (not_none v); intros [= <- <-] k; [now apply Yes | now apply No].
      * destruct (p_required p); intros [= <- <-] k; [now apply Yes | now apply No].
    + destruct (not_none (p_example p)); cbn [orb];
        [intros [= <- <-] k; now apply Yes|].
      destruct (not_none (p_default p)); intros [= <- <-] k;
        [now apply Yes | now apply No].
Qed.

Lemma build_params_sends o i params :
  forall path q path' q',
    build_params o None None i params (path, q) = Ok (path', q') ->
    forall k, In k (keys q')
              <-> In k (keys q)
                  \/ exists p, In p params /\ p_name p = k /\ p_in p = "query"
                               /\ filtered_out k i = false /\ sends o p = true.
Proof.
  induction params as [|p rest IH]; intros path q path' q'; cbn [build_params].
  - intros [= <- <-] k. split; [auto|]. intros [I | (p & [] & _)]. exact I.
  - destruct (build_step o None None i (path, q) p) as [[p1 q1]|x] eqn:E;
      [|discriminate].
    intros R k. rewrite (IH p1 q1 path' q' R k).
    rewrite (build_step_sends o i path q p p1 q1 E k). split.
    + intros [[I | (-> & Q & F & Sd)] | (p' & I & N & Q & F & Sd)].
      * auto.
      * right. exists p. cbn. auto.
      * right. exists p'. cbn. auto.
    + intros [I | (p' & [<- | I] & N & Q & F & Sd)].
      * auto.
      * left. right. auto.
      * right. exists p'. auto.
Qed.

(** X19. The query string of a request built without skip-set and
    empty-set holds exactly the names of the query parameters that the
    inclusion filter lets through and that are sent: without overrides, a
    parameter with an example or a default; with overrides, a parameter
    whose override is not None or, when it has no override, a required
    parameter. So with an empty mapping of overrides, which is what the
    handler passes when the caller names no parameter, only the required
    query parameters are sent. *)
Theorem query_holds_exactly_the_sent_parameters :
  forall base e o i url body,
    build_test_url base e o None None i = Ok (url, body) ->
    exists path query,
      build_params o None None i (e_params e) (e_path e, []) = Ok (path, query)
      /\ url = url_of base path query
      /\ (forall k, In k (keys query)
                    <-> exists p, In p (e_params e) /\ p_name p = k
                                  /\ p_in p = "query"
                                  /\ filtered_out k i = false /\ sends o p = true)
      /\ (o = Some [] ->
          forall k, In k (keys query)
                    <-> exists p, In p (e_params e) /\ p_name p = k
                                  /\ p_in p = "query"
                                  /\ filtered_out k i = false
                                  /\ p_required p = true).
Proof.
  intros base e o i url body. unfold build_test_url.
  destruct (build_params o None None i (e_params e) (e_path e, []))
    as [[path query]|x] eqn:E; [|discriminate].
  intros [= <- <-]. exists path, query. split; [reflexivity|]. split.
  { unfold url_of. destruct query; reflexivity. }
  assert (K : forall k, In k (keys query)
                    <-> exists p, In p (e_params e) /\ p_name p = k
                                  /\ p_in p = "query"
                                  /\ filtered_out k i = false /\ sends o p = true).
  { intros k. rewrite (build_params_sends o i (e_params e) _ _ _ _ E k).
    cbn [keys map In]. tauto. }
  split; [exact K|].
  intros -> k. rewrite K. cbn [sends dict_get]. reflexivity.
Qed.

End SentParameters.

(* ================================================================== *)
(** * Combinations that cannot be requested *)
(* ================================================================== *)

Lemma mapM_raises {A B} (f : A -> M B) (c : A) (l : list A) :
  In c l -> (forall tr, raises (f c tr)) -> forall tr, raises (mapM f l tr).
Proof.
  intros I F. induction l as [|x rest IH]; [destruct I|]. intros tr. cbn [mapM].
  destruct I as [-> | I].
  - apply raises_bind_l. apply F.
  - apply raises_bind_r. intros y tr1 _. apply raises_bind_l. now apply IH.
Qed.

Lemma mapM_raise_kind {A B} (f : A -> M B) (P : PyExn -> Prop) :
  (forall a tr x tr1, f a tr = (Raise x, tr1) -> P x) ->
  forall l tr x tr1, mapM f l tr = (Raise x, tr1) -> P x.
Proof.
  intros K. induction l as [|a rest IH]; intros tr x tr1; cbn [mapM];
    [discriminate|].
  unfold bind at 1. destruct (f a tr) as [[y|x0] tr0] eqn:E.
  - unfold bind at 1. destruct (mapM f rest tr0) as [[ys|x1] tr2] eqn:E2;
      [discriminate|].
    intros [= <- <-]. eapply IH; eauto.
  - intros [= <- <-]. eapply K; eauto.
Qed.

Section UnusableCombinations.
Context `{PyRuntime} `{Network}.

Lemma run_combination_raise_kind e base_url headers config include baseline c tr x tr1 :
  positive_timeout config -> readable_peer ->
  run_combination e base_url headers config include baseline c tr = (Raise x, tr1) ->
  is_TypeError x = true.
Proof.
  intros P Rd. unfold run_combination, bind at 1, liftR.
  destruct (build_test_url base_url e (Some (to_overrides c)) None None None)
    as [[u b]|x0] eqn:B.
  - unfold bind.
    destruct (probe_returns config u (e_method e) (Some headers) (Some b) tr P Rd)
      as (res & t & _ & ->).
    destruct (status_code res); [discriminate|]. now intros [= <- _].
  - intros [= <- _]. eapply build_raises_TypeError; eauto.
Qed.

(** X20. A combination that gives a path parameter no value at all (the
    absence sentinel) or a list of values cannot be requested: building
    its URL raises TypeError before any exchange. When the window of a
    call of the combinatorial phase holds such a combination the call
    returns no result at all, not even for the combinations before it: it
    ends in an exception, which is a TypeError when the configuration has
    a positive timeout and the target's answers can be processed. *)
Theorem omitted_path_parameter_aborts_the_phase :
  forall e base_url headers config bo mode offset limit multi include ro isolated
         all baseline c,
    e_params e <> [] ->
    enumerate e bo multi include ro isolated = Ok (all, baseline) ->
    In c (select_window mode offset limit all) ->
    unusable_in_path e c ->
    (forall tr,
        exists x,
          is_TypeError x = true
          /\ run_combination e base_url headers config
                             (effective_include e include) baseline c tr
             = (Raise x, tr))
    /\ (forall tr,
          exists x tr1,
            run_combinatorial_tests e base_url headers config bo mode offset limit
                                    multi include ro isolated tr
            = (Raise x, tr1)
            /\ (positive_timeout config -> readable_peer ->
                is_TypeError x = true)).
Proof.
  intros e base_url headers config bo mode offset limit multi include ro isolated
         all baseline c Hp E I U.
  assert (One : forall tr,
             exists x,
               is_TypeError x = true
               /\ run_combination e base_url headers config
                                  (effective_include e include) baseline c tr
                  = (Raise x, tr)).
  { intros tr. destruct (unusable_combination_is_not_built e base_url c U) as [x B].
    exists x. split; [eapply build_raises_TypeError; eauto|].
    unfold run_combination, bind, liftR. rewrite B. reflexivity. }
  split; [exact One|].
  intros tr. unfold run_combinatorial_tests.
  destruct (e_params e) as [|p0 ps]; [congruence|].
  unfold bind at 1, liftR. rewrite E.
  destruct (mapM_raises
              (run_combination e base_url headers config
                               (effective_include e include) baseline)
              c (select_window mode offset limit all) I
              (fun tr0 => match One tr0 with
                          | ex_intro _ x (conj _ R) =>
                              ex_intro _ x (ex_intro _ tr0 R)
                          end) tr) as (x & tr1 & R).
  exists x, tr1. split.
  - unfold bind. rewrite R. reflexivity.
  - intros P Rd.
    eapply (mapM_raise_kind _ (fun x => is_TypeError x = true)); [|exact R].
    intros a tr0 x0 tr2. now apply run_combination_raise_kind.
Qed.

End UnusableCombinations.

(* ================================================================== *)
(** * The echo check *)
(* ================================================================== *)

Lemma pyval_nested_ind (P : pyval -> Prop) :
  P PNone -> (forall b, P (PBool b)) -> (forall z, P (PInt z)) ->
  (forall s, P (PStr s)) ->
  (forall l, Forall P l -> P (PList l)) ->
  (forall d, Forall (fun kv => P (snd kv)) d -> P (PDict d)) ->
  forall v, P v.
Proof.
  intros HN HB HI HS HL HD. fix IH 1. intros [| b | z | s | l | d].
  - exact HN.
  - apply HB.
  - apply HI.
  - apply HS.
  - apply HL. induction l as [|x l IHl]; constructor; [apply IH | exact IHl].
  - apply HD. induction d as [|[k x] d IHd]; constructor; [apply IH | exact IHd].
Qed.

Section EchoCheck.
Context `{PyRuntime}.

Lemma find_in_json_unfold target data :
  find_in_json target data
  = (target =? lower (pystr data))
    || match data with
       | PDict d => existsb (fun kv => find_in_json target (snd kv)) d
       | PList l => existsb (find_in_json target) l
       | _ => false
       end.
Proof.
  destruct data; try reflexivity.
  cbn [find_in_json]. f_equal.
  induction d as [|[k v] d IH]; [reflexivity|]. cbn [existsb snd]. now rewrite IH.
Qed.

Lemma find_in_json_sound target data :
  find_in_json target data = true ->
  exists sub, occurs_in sub data /\ lower (pystr sub) = target.
Proof.
  induction data as [| b | z | s | l IH | d IH] using pyval_nested_ind;
    rewrite find_in_json_unfold; intros F; apply orb_true_iff in F as [F | F];
    try discriminate F;
    try (apply String.eqb_eq in F; eexists; split; [apply occurs_here | now symmetry]).
  - apply existsb_exists in F as (x & I & F).
    rewrite Forall_forall in IH. destruct (IH x I F) as (sub & O & E).
    exists sub. split; [eapply occurs_item; eauto | exact E].
  - apply existsb_exists in F as ([k x] & I & F). cbn [snd] in F.
    rewrite Forall_forall in IH. destruct (IH (k, x) I F) as (sub & O & E).
    exists sub. split; [eapply occurs_value; eauto | exact E].
Qed.

Lemma find_in_json_complete sub data :
  occurs_in sub data -> find_in_json (lower (pystr sub)) data = true.
Proof.
  induction 1 as [v | sub x l I O IH | sub k x d I O IH];
    rewrite find_in_json_unfold.
  - now rewrite String.eqb_refl.
  - apply orb_true_iff. right. apply existsb_exists. eauto.
  - apply orb_true_iff. right. apply existsb_exists. exists (k, x). auto.
Qed.

(** X21. The echo check finds a sent value exactly when some value at
    some depth of the response document (the document itself, an item of
    a list, a value of a dict, never a key) has the same text as the sent
    value, letter case aside. On a response whose JSON body is empty or
    absent there are no findings at all. Otherwise the findings are those
    of the echo check, one for every sent value that is not None and whose
    text has more than one character (echoed when found, a warning when
    not), followed by at most one per sensitive keyword. *)
Theorem echo_check_searches_every_value :
  forall baseline overrides body,
    (forall target data,
        find_in_json target data = true
        <-> exists sub, occurs_in sub data /\ lower (pystr sub) = target)
    /\ (truthy (json_body baseline) = false ->
        run_logic_checks baseline overrides body = [])
    /\ (truthy (json_body baseline) = true ->
        exists echo sensitive,
          run_logic_checks baseline overrides body = (echo ++ sensitive)%list
          /\ List.length echo
             = List.length (filter checked_by_echo (sent_data overrides body))
          /\ List.length sensitive <= List.length sensitive_keywords
          /\ forall key val,
               In (key, val) (sent_data overrides body) ->
               checked_by_echo (key, val) = true ->
               ((exists sub, occurs_in sub (json_body baseline)
                             /\ lower (pystr sub) = lower (pystr val)) ->
                In ("Logic: `" ++ key ++ "=" ++ pystr val
                    ++ "` correctly ECHOED in response.") echo)
               /\ (~ (exists sub, occurs_in sub (json_body baseline)
                                  /\ lower (pystr sub) = lower (pystr val)) ->
                   In ("LOGIC WARN: Sent field `" ++ key ++ "=" ++ pystr val
                       ++ "` NOT found in response.") echo)).
Proof.
  intros baseline overrides body.
  assert (Iff : forall target data,
             find_in_json target data = true
             <-> exists sub, occurs_in sub data /\ lower (pystr sub) = target).
  { intros target data. split; [apply find_in_json_sound|].
    intros (sub & O & <-). now apply find_in_json_complete. }
  split; [exact Iff|]. split.
  { intros T. unfold run_logic_checks. rewrite T. reflexivity. }
  intros T. unfold run_logic_checks. rewrite T. cbn [negb].
  fold (sent_data overrides body).
  eexists. eexists. split; [reflexivity|]. split; [|split].
  - induction (sent_data overrides body) as [|[key val] rest IH]; [reflexivity|].
    cbn [flat_map filter]. rewrite length_app, IH.
    unfold checked_by_echo at 2. cbn [snd].
    destruct (not_none val && (1 <? String.length (pystr val))%nat);
      [|reflexivity].
    destruct (find_in_json (lower (pystr val)) (json_body baseline)); reflexivity.
  - induction sensitive_keywords as [|kw rest IH]; [cbn; lia|].
    cbn [flat_map]. rewrite length_app. cbn [List.length].
    match goal with
    | |- context [if ?c then _ else _] => destruct c
    end; cbn [List.length]; lia.
  - intros key val I C. unfold checked_by_echo in C. cbn [snd] in C.
    split.
    + intros O. apply Iff in O. apply in_flat_map. exists (key, val).
      split; [exact I|]. rewrite C, O. now left.
    + intros N. apply in_flat_map. exists (key, val). split; [exact I|].
      rewrite C.
      destruct (find_in_json (lower (pystr val)) (json_body baseline)) eqn:F;
        [|now left].
      exfalso. apply N. now apply Iff.
Qed.

End EchoCheck.

(* ================================================================== *)
(** * Listing and selecting an endpoint *)
(* ================================================================== *)




Section ListingFurther.
Context `{PyRuntime} `{Network} `{ContractReader}.


End ListingFurther.

(* ================================================================== *)
(** * Closed instances of the further properties *)
(* ================================================================== *)

(** A boolean flag for which the caller gave one spelling only: both
    values are in its pool. *)
Lemma boolean_coverage_witness :
  let p := sample_param "active" "query" false (PStr "true") "boolean" in
  let bo := Some [("active", PStr "TRUE")] in
  p_type p = "boolean"
  /\ exists t f,
       lower t = "true" /\ lower f = "false"
       /\ In (Single t) (@pool_of plain_runtime p bo [] [] ["active"])
       /\ In (Single f) (@pool_of plain_runtime p bo [] [] ["active"]).
Proof.
  intros p bo. split; [reflexivity|].
  destruct (@boolean_parameters_cover_both_values plain_runtime p bo [] []
              ["active"] eq_refl) as (t & f & _ & Et & _ & Ef & P).
  destruct (P eq_refl eq_refl) as [Pt Pf].
  exists t, f. auto.
Defined.

(** The sixteen combinations of the sample endpoint all give a value to
    its four parameters. *)
Lemma complete_assignments_witness :
  exists all baseline,
    @enumerate plain_runtime items_endpoint (Some [("tags", PStr "a,b")])
               (Some ["tags"]) None None (Some ["limit"]) = Ok (all, baseline)
    /\ List.length all = 16
    /\ forall c, In c all -> keys c = keys baseline.
Proof.
  eassert (E : @enumerate plain_runtime items_endpoint (Some [("tags", PStr "a,b")])
                 (Some ["tags"]) None None (Some ["limit"]) = Ok (_, _))
    by (vm_compute; reflexivity).
  eexists. eexists. split; [exact E|]. split; [reflexivity|].
  destruct (@combinations_are_complete_assignments plain_runtime _ _ _ _ _ _ _ _ E)
    as (main_part & sweeps & A & M & S).
  intros c I. rewrite A in I. apply in_app_or in I as [I | I].
  - exact (proj1 (M c I)).
  - destruct (S c I) as (name & v & _ & K & _). exact K.
Defined.

(** With [tags] skipped and [limit] left out by the filter, neither is in
    the query string. *)
Lemma filtered_request_witness :
  exists url body path query,
    @build_test_url plain_runtime "http://shop.test/" items_endpoint None
                    (Some ["tags"]) None (Some ["category"; "tags"]) = Ok (url, body)
    /\ url = @url_of plain_runtime "http://shop.test/" path query
    /\ ~ In "tags" (keys query) /\ ~ In "limit" (keys query).
Proof.
  eassert (E : @build_test_url plain_runtime "http://shop.test/" items_endpoint None
                 (Some ["tags"]) None (Some ["category"; "tags"]) = Ok (_, _))
    by (vm_compute; reflexivity).
  destruct (@request_holds_only_filtered_parameters plain_runtime _ _ _ _ _ _ _ _ E)
    as [(path & query & _ & U & K) _].
  eexists. eexists. exists path, query. split; [exact E|]. split; [exact U|].
  split; intros I; apply K in I as (_ & Sk & F); discriminate.
Defined.

(** An order whose [state] is a field of the JSON body. *)
Lemma body_field_witness :
  let e := parse_operation "shop" "/orders/{id}" "post" order_operation in
  (forall p, In p (e_params e) -> p_name p = "state" ->
             p_in p <> "path" /\ p_in p <> "query")
  /\ @build_test_url plain_runtime "http://shop.test" e None (Some ["state"]) None None
     = @build_test_url plain_runtime "http://shop.test" e None None None None
  /\ @build_test_url plain_runtime "http://shop.test" e None None (Some ["state"]) None
     = @build_test_url plain_runtime "http://shop.test" e None None None None.
Proof.
  intros e.
  assert (Hn : forall p, In p (e_params e) -> p_name p = "state" ->
                         p_in p <> "path" /\ p_in p <> "query").
  { intros p I N. vm_compute in I. destruct I as [<- | [<- | []]].
    - discriminate N.
    - split; discriminate. }
  split; [exact Hn|].
  exact (@skipping_a_body_field_changes_nothing plain_runtime "http://shop.test" e
           None None "state" Hn).
Defined.

(** A combination with two tags and no limit. *)
Lemma combination_request_witness :
  let c := [("id", Single "7"); ("category", Single "shoes");
            ("tags", Multi ["a"; "b"]); ("limit", Absent)] in
  exists url body path query,
    @build_test_url plain_runtime "http://shop.test" items_endpoint
                    (Some (to_overrides c)) None None None = Ok (url, body)
    /\ url = @url_of plain_runtime "http://shop.test" path query
    /\ ~ In "limit" (keys query)
    /\ dict_get "tags" query = Some (PList [PStr "a"; PStr "b"]).
Proof.
  intros c.
  eassert (E : @build_test_url plain_runtime "http://shop.test" items_endpoint
                 (Some (to_overrides c)) None None None = Ok (_, _))
    by (vm_compute; reflexivity).
  destruct (@combination_values_reach_the_query plain_runtime _ _ _ _ _ E)
    as (path & query & U & A & V).
  eexists. eexists. exists path, query. split; [exact E|]. split; [exact U|].
  split.
  - apply A. reflexivity.
  - apply (V "tags" (Multi ["a"; "b"])); [reflexivity | discriminate|].
    exists (sample_param "tags" "query" false (PStr "x") "string").
    split; [|split; reflexivity]. cbn. tauto.
Defined.

(** The first combination of the sample endpoint against a peer that
    cannot be reached. *)
Lemma aborted_phase_witness :
  exists x tr1,
    is_TypeError x = true
    /\ @run_combinatorial_tests plain_runtime unreachable_peer items_endpoint
         "http://shop.test" [] sample_config None "minimal" 0 64 None None None None []
       = (Raise x, tr1)
    /\ List.length tr1 = 1.
Proof.
  eassert (E : @enumerate plain_runtime items_endpoint None None None None None
               = Ok (_, _)) by (vm_compute; reflexivity).
  match type of E with
  | _ = Ok (?all, _) =>
      eassert (W : select_window "minimal" 0 64 all = _ :: _)
        by (vm_compute; reflexivity)
  end.
  match type of W with
  | _ = ?c :: _ =>
      eassert (B : @build_test_url plain_runtime "http://shop.test" items_endpoint
                     (Some (to_overrides c)) None None None = Ok (_, _))
        by (vm_compute; reflexivity)
  end.
  destruct (@transport_failure_aborts_the_combinatorial_phase plain_runtime
              unreachable_peer items_endpoint "http://shop.test" [] sample_config
              None "minimal" 0 64 None None None None _ _ _ _ _ _ 10%Z
              (ConnectionError "Max retries exceeded") []
              ltac:(discriminate) E W B eq_refl ltac:(lia) eq_refl) as (x & T & R).
  exists x. eexists. split; [exact T|]. split; [exact R | reflexivity].
Defined.

(** A run against a peer that cannot be reached, and the answer of the
    handler to a caller that selects the first endpoint. *)
Lemma unreachable_target_witness :
  let data :=
    {| d_index := Some 0%Z; d_auth_token := Some "secret"; d_auth_mode := None;
       d_username := None; d_password := None; d_params := None;
       d_random_params := None; d_custom_params := None; d_run_ai := None;
       d_combinatorial_mode := None; d_comb_offset := None; d_comb_limit := None;
       d_multi_params := None; d_include_params := None;
       d_isolated_params := None |} in
  @unreachable unreachable_peer
  /\ raises (@test_single_endpoint plain_runtime unreachable_peer items_endpoint
               sample_config (Some "secret") None None None None None false
               "minimal" 0 64 None None None [])
  /\ exists message tr1,
       @run_test plain_runtime unreachable_peer no_reader sample_config
                 [items_endpoint] data []
       = (ReplyError 500 message, [items_endpoint], tr1).
Proof.
  intros data.
  assert (U : @unreachable unreachable_peer)
    by (intros tr rq; eexists; reflexivity).
  split; [exact U|].
  destruct (@unreachable_target_gives_no_record plain_runtime unreachable_peer
              no_reader U) as [P Q].
  split.
  - apply P. discriminate.
  - apply (Q sample_config [items_endpoint] data [] 0%Z items_endpoint);
      try reflexivity. discriminate.
Defined.

(** An operation declared under the key Post. *)
Lemma parsed_verb_witness :
  let doc := {| doc_paths := Some [("/orders/{id}", [("Post", order_operation);
                                                     ("summary", order_operation)])] |} in
  let e := parse_operation "shop" "/orders/{id}" "Post" order_operation in
  parse_endpoints doc "shop" = [e]
  /\ e_method e = "POST"
  /\ forall u hd jb t,
       verb_name (q_verb (dispatch u (e_method e) hd jb t)) = e_method e
       /\ q_json (dispatch u (e_method e) hd jb t) = Some (body_or_empty jb).
Proof.
  intros doc e.
  assert (I : In e (parse_endpoints doc "shop")) by (left; reflexivity).
  destruct (parsed_endpoints_are_probed_with_their_verb doc "shop" e I)
    as (_ & _ & D).
  split; [reflexivity|]. split; [reflexivity|].
  intros u hd jb t. destruct (D u hd jb t) as (V & _ & _ & J).
  split; [exact V | exact J].
Defined.

(** A token pasted with its scheme in lower case and with blanks around. *)
Lemma pasted_scheme_witness :
  @make_auth_headers plain_runtime sample_config (Some "  bearer abc ") None None
  = [("Authorization", "Bearer abc")]
  /\ @make_auth_headers plain_runtime sample_config (Some "abc") (Some "u") (Some "p")
     = @make_auth_headers plain_runtime sample_config (Some "  bearer abc ") None None.
Proof.
  destruct (@pasted_scheme_is_removed_from_the_token plain_runtime sample_config
              "  bearer abc " "bearer" "abc" None None
              ltac:(discriminate) eq_refl eq_refl) as [A B].
  split; [exact A|].
  exact (B ltac:(discriminate) eq_refl (Some "u") (Some "p")).
Defined.

(** A run of the sample endpoint against a peer that answers 200 to
    everything. *)
Lemma completed_run_witness :
  exists f tr1,
    @test_single_endpoint plain_runtime (constant_peer 200) items_endpoint
      sample_config (Some "secret") None None None None None false
      "minimal" 0 64 None None None [] = (Ok (Completed f), tr1)
    /\ List.length (f_negative_results f) = 1
    /\ List.length (f_path_fuzz_results f) = 7
    /\ map fst (f_special_auth f) = ["token_only"; "invalid_token"]
    /\ List.length (f_param_results f) = 3
    /\ f_ai_analysis f = None.
Proof.
  destruct (@test_single_endpoint plain_runtime (constant_peer 200) items_endpoint
              sample_config (Some "secret") None None None None None false
              "minimal" 0 64 None None None []) as [[[h | f] | x] tr1] eqn:R.
  - exfalso. vm_compute in R. discriminate R.
  - destruct (@completed_run_has_one_entry_per_case plain_runtime (constant_peer 200)
                _ _ _ _ _ _ _ _ _ _ _ _ _ _ _ _ _ _ R)
      as (_ & _ & _ & N & Pf & _ & _ & _ & _ & Au & Sp & _ & _ & Ai).
    exists f, tr1. split; [reflexivity|]. split; [exact N|].
    split.
    { rewrite <- (length_map (fun r => (pf_param r, pf_value r))), Pf. reflexivity. }
    split; [exact Sp|]. split.
    { destruct (Au ltac:(discriminate)) as [Pr _].
      rewrite <- (length_map (fun r => (prm_param r, prm_required_by_spec r))), Pr.
      reflexivity. }
    apply Ai. reflexivity.
  - exfalso. vm_compute in R. discriminate R.
Defined.

(** The handler's empty mapping of overrides: the required [category] is
    sent, the optional [tags] is not. *)
Lemma empty_overrides_witness :
  exists url body path query,
    @build_test_url plain_runtime "http://shop.test" items_endpoint (Some [])
                    None None None = Ok (url, body)
    /\ url = @url_of plain_runtime "http://shop.test" path query
    /\ In "category" (keys query) /\ ~ In "tags" (keys query).
Proof.
  eassert (E : @build_test_url plain_runtime "http://shop.test" items_endpoint
                 (Some []) None None None = Ok (_, _)) by (vm_compute; reflexivity).
  destruct (@query_holds_exactly_the_sent_parameters plain_runtime _ _ _ _ _ _ E)
    as (path & query & _ & U & _ & K).
  eexists. eexists. exists path, query. split; [exact E|]. split; [exact U|].
  split.
  - apply (K eq_refl).
    exists (sample_param "category" "query" true (PStr "shoes") "string").
    split; [cbn; tauto|]. repeat split.
  - intros I. apply (K eq_refl) in I as (p & Ip & N & _ & _ & Rq).
    cbn in Ip. destruct Ip as [<- | [<- | [<- | [<- | []]]]];
      try discriminate N; discriminate Rq.
Defined.

(** A full-mode run over the sample endpoint, whose path parameter [id]
    is required and has no sample: its pool ends with the sentinel, and
    the third combination gives [id] no value. *)
Lemma omitted_path_parameter_witness :
  let c := [("id", Absent); ("category", Single "shoes");
            ("tags", Absent); ("limit", Absent)] in
  unusable_in_path items_endpoint c
  /\ exists x tr1,
       is_TypeError x = true
       /\ @run_combinatorial_tests plain_runtime (constant_peer 200) items_endpoint
            "http://shop.test" [] sample_config None "full" 0 64 None None None None []
          = (Raise x, tr1).
Proof.
  intros c.
  assert (U : unusable_in_path items_endpoint c).
  { exists (sample_param "id" "path" true (PStr "7") "string").
    split; [cbn; tauto|]. split; [reflexivity|]. left. reflexivity. }
  split; [exact U|].
  eassert (E : @enumerate plain_runtime items_endpoint None None None None None
               = Ok (_, _)) by (vm_compute; reflexivity).
  assert (I : In c (select_window "full" 0 64
                      [[("id", Single "7"); ("category", Single "shoes");
                        ("tags", Absent); ("limit", Absent)];
                       [("id", Single "7"); ("category", Absent);
                        ("tags", Absent); ("limit", Absent)];
                       c;
                       [("id", Absent); ("category", Absent);
                        ("tags", Absent); ("limit", Absent)]]))
    by (right; right; left; reflexivity).
  destruct (@omitted_path_parameter_aborts_the_phase plain_runtime (constant_peer 200)
              items_endpoint "http://shop.test" [] sample_config None "full" 0 64
              None None None None _ _ c ltac:(discriminate) E I U) as [_ P].
  destruct (P []) as (x & tr1 & R & T).
  exists x, tr1. split; [|exact R].
  apply T.
  - exists 10%Z. split; [reflexivity | lia].
  - intros tr rq resp [= <-]. reflexivity.
Defined.
